(** * Memory: nodes addressed by (xx, yy, zz), each holding a 2D array

    A shallow embedding of [src/memory.js] (class [Memory]) and the
    verification of its specification.

    JavaScript arrays are objects: [setMatrix] stores the caller's array
    itself, [getAllData] hands the stored array out, and two rows of a
    matrix may be one and the same array.  The embedding therefore keeps
    a heap of array objects and the class's methods are programs of a
    state-and-exception monad over it.  As in JavaScript, a thrown
    exception keeps every mutation made before it.

    What the embedding fixes:
    - coordinates and indices are integers ([Z]); a cell holds a number
      or [undefined] (a hole of a sparse array reads as [undefined] and
      is not told apart from it);
    - a matrix is an array of arrays of cells: the outer arrays live in
      [grids], the rows in [cells];
    - an array has at most [2^32 - 1] elements, as the language has it:
      [Array(n)], [Array.from] and [push] throw a RangeError beyond (the
      exhaustion of memory is left out);
    - an assignment [a[i] = v] at an [i] that is no array index
      (negative, or [2^32 - 1] and more) adds a named property to the
      array object and leaves its elements and length alone, and so
      does a [push] on an array of [2^32 - 1] elements before it
      throws: only the elements are kept. *)

From Stdlib Require Import Ascii.
From stdpp Require Import gmap strings list pretty.

Open Scope Z_scope.

(** ** Data *)

Definition loc := positive.

Inductive jsval : Type :=
| Num (n : Z)
| Undefined.

(** [throw new Error(msg)], and the two exceptions the engine raises by
    itself in this code: a property read or written on [undefined], and
    an array made or grown to a length that no array can have. *)
Inductive exn : Type :=
| Error (msg : string)
| TypeError
| RangeError.

(** A node object [{xx, yy, zz, value}]; [value] refers to the outer
    array of the node's matrix. *)
Record node : Type := Node { xx : Z; yy : Z; zz : Z; value : loc }.

(** The fields of a [Memory] object.  A node object is referred to by
    its position in [nodes]: each one is pushed once, when it is built,
    and never removed. *)
Record Memory : Type := mkMemory {
  nodes : list node;
  usedAddresses : gset string
}.

(** The object [this] together with the arrays of the heap. *)
Record state : Type := mkState {
  this : Memory;
  grids : gmap loc (list loc);
  cells : gmap loc (list jsval)
}.

(** [new Memory()] on a heap that holds no array yet. *)
Definition constructor : state :=
  mkState (mkMemory [] ∅) ∅ ∅.

(** ** The monad: state, and exceptions that keep the state *)

Definition M (A : Type) : Type := state → state * (exn + A).

Definition ret {A} (a : A) : M A := λ s, (s, inr a).

Definition bind {A B} (m : M A) (f : A → M B) : M B :=
  λ s, match m s with
       | (s', inr a) => f a s'
       | (s', inl e) => (s', inl e)
       end.

Definition throw {A} (e : exn) : M A := λ s, (s, inl e).

Notation "x <- m ;; k" := (bind m (λ x, k))
  (at level 100, m at next level, right associativity).
Notation "m ;;; k" := (bind m (λ _, k))
  (at level 100, right associativity).

Fixpoint for_each {A} (body : A → M unit) (l : list A) : M unit :=
  match l with
  | [] => ret tt
  | a :: l' => body a ;;; for_each body l'
  end.

(** ** Array objects *)

(** The largest length of an array, [2^32 - 1]. *)
Definition max_length : Z := 4294967295.

(** Reading through a reference.  A reference always designates an
    array; the [TypeError] branch stands for a value that is not one. *)
Definition grid_of (o : loc) : M (list loc) :=
  λ s, match grids s !! o with
       | Some m => (s, inr m)
       | None => (s, inl TypeError)
       end.

Definition row_of (l : loc) : M (list jsval) :=
  λ s, match cells s !! l with
       | Some vs => (s, inr vs)
       | None => (s, inl TypeError)
       end.

Definition put_grid (o : loc) (m : list loc) : M unit :=
  λ s, (mkState (this s) (<[o := m]> (grids s)) (cells s), inr tt).

Definition put_row (l : loc) (vs : list jsval) : M unit :=
  λ s, (mkState (this s) (grids s) (<[l := vs]> (cells s)), inr tt).

(** A new array object gets a reference that designates no array yet. *)
Definition new_row (vs : list jsval) : M loc :=
  λ s, let l := fresh (dom (cells s)) in
       (mkState (this s) (grids s) (<[l := vs]> (cells s)), inr l).

Definition new_grid (m : list loc) : M loc :=
  λ s, let o := fresh (dom (grids s)) in
       (mkState (this s) (<[o := m]> (grids s)) (cells s), inr o).

(** [a[i]] at an integer [i]: [undefined] ([None]) out of range. *)
Definition index {A} (a : list A) (i : Z) : option A :=
  if i <? 0 then None else a !! Z.to_nat i.

(** [a[i] = v] on the elements of [a]: in range the element is
    replaced, past the end the array is extended up to [i] (the cells in
    between are holes), and at an [i] that is no array index, negative
    or [max_length] and more, no element changes. *)
Definition array_set (a : list jsval) (i : Z) (v : jsval) : list jsval :=
  if i <? 0 then a
  else if i <? Z.of_nat (length a) then <[Z.to_nat i := v]> a
  else if i <? max_length
       then a ++ replicate (Z.to_nat i - length a)%nat Undefined ++ [v]
       else a.

(** [o.push(l)] on an outer array, [l.push(v)] and [l[i] = v] on a row.
    A [push] on an array of [max_length] elements throws when it sets
    the new length. *)
Definition push_row (o l : loc) : M unit :=
  m <- grid_of o ;;
  if Z.of_nat (length m) <? max_length then put_grid o (m ++ [l])
  else throw RangeError.

Definition push_cell (l : loc) (v : jsval) : M unit :=
  vs <- row_of l ;;
  if Z.of_nat (length vs) <? max_length then put_row l (vs ++ [v])
  else throw RangeError.

Definition store_cell (l : loc) (i : Z) (v : jsval) : M unit :=
  vs <- row_of l ;; put_row l (array_set vs i v).

(** [Array(cols).fill(0)]: [Array(cols)] throws when [cols] is not the
    length of an array. *)
Definition array_fill0 (cols : Z) : M loc :=
  if (cols <? 0) || (max_length <? cols) then throw RangeError
  else new_row (replicate (Z.to_nat cols) (Num 0)).

(** [Array.from({ length: len }, f)]: a negative length counts as 0 and
    a length above [max_length] throws before [f] is called; otherwise
    [f] is called once per element, in order. *)
Fixpoint array_from_loop (n : nat) (f : M loc) : M (list loc) :=
  match n with
  | O => ret []
  | S k => l <- f ;; ls <- array_from_loop k f ;; ret (l :: ls)
  end.

Definition array_from (len : Z) (f : M loc) : M (list loc) :=
  if max_length <? len then throw RangeError
  else array_from_loop (Z.to_nat len) f.

(** [rows > 0 ? a[0].length : 0], with [rows = a.length] *)
Definition cols_of (m : list loc) : M Z :=
  match m with
  | [] => ret 0
  | l :: _ => vs <- row_of l ;; ret (Z.of_nat (length vs))
  end.

(** ** The methods of [Memory] *)

Definition generateAddress (x y z : Z) : string :=
  pretty x +:+ "," +:+ pretty y +:+ "," +:+ pretty z.

(** [this.nodes.find(...)]: the first node with these coordinates. *)
Definition findNode (m : Memory) (x y z : Z) : option nat :=
  fst <$> list_find (λ n, xx n = x ∧ yy n = y ∧ zz n = z) (nodes m).

(** [this.findNode(xx, yy, zz)] and [this.nodes], read from a method. *)
Definition this_findNode (x y z : Z) : M (option nat) :=
  λ s, (s, inr (findNode (this s) x y z)).

Definition this_nodes : M (list node) :=
  λ s, (s, inr (nodes (this s))).

Definition node_value (i : nat) : M loc :=
  λ s, match nodes (this s) !! i with
       | Some n => (s, inr (value n))
       | None => (s, inl TypeError)
       end.

(** [this.nodes.push(node)], which throws like any [push] when the
    array is full. *)
Definition push_node (n : node) : M nat :=
  λ s, if Z.of_nat (length (nodes (this s))) <? max_length
       then (mkState (mkMemory (nodes (this s) ++ [n])
                               (usedAddresses (this s)))
                     (grids s) (cells s),
             inr (length (nodes (this s))))
       else (s, inl RangeError).

Definition add_address (a : string) : M unit :=
  λ s, (mkState (mkMemory (nodes (this s)) ({[a]} ∪ usedAddresses (this s)))
                (grids s) (cells s),
        inr tt).

(** [node.value = matrix] *)
Definition set_node_value (i : nat) (o : loc) : M unit :=
  λ s, (mkState (mkMemory (alter (λ n, Node (xx n) (yy n) (zz n) o) i
                                 (nodes (this s)))
                          (usedAddresses (this s)))
                (grids s) (cells s),
        inr tt).

Definition createNodeIfNeeded (x y z rows cols : Z) : M nat :=
  node <- this_findNode x y z ;;
  match node with
  | Some i => ret i
  | None =>
      ls <- array_from rows (array_fill0 cols) ;;
      o <- new_grid ls ;;
      i <- push_node (Node x y z o) ;;
      add_address (generateAddress x y z) ;;;
      ret i
  end.

Definition getAllData (x y z : Z) : M loc :=
  node <- this_findNode x y z ;;
  match node with
  | None => throw (Error "Invalid address")
  | Some i => node_value i
  end.

(** The conditions of the [if] are evaluated from left to right, and
    [node.value[rowIndex]] is read only once the first three hold. *)
Definition get (x y z rowIndex colIndex : Z) : M jsval :=
  node <- this_findNode x y z ;;
  match node with
  | None => throw (Error "Invalid address")
  | Some i =>
      o <- node_value i ;;
      m <- grid_of o ;;
      if (0 <=? rowIndex) && (rowIndex <? Z.of_nat (length m))
         && (0 <=? colIndex)
      then
        match index m rowIndex with
        | None => throw TypeError
        | Some l =>
            vs <- row_of l ;;
            if colIndex <? Z.of_nat (length vs)
            then ret (default Undefined (index vs colIndex))
            else throw (Error "Index out of bounds")
        end
      else throw (Error "Index out of bounds")
  end.

Definition setMatrix (x y z : Z) (matrix : loc) : M unit :=
  m <- grid_of matrix ;;
  let rows := Z.of_nat (length m) in
  cols <- cols_of m ;;
  i <- createNodeIfNeeded x y z rows cols ;;
  set_node_value i matrix.

(** [while (node.value.length <= rowIndex) node.value.push(Array(currentCols).fill(0))] *)
Fixpoint push_rows_loop (fuel : nat) (o : loc) (rowIndex currentCols : Z)
  : M unit :=
  match fuel with
  | O => ret tt
  | S k =>
      m <- grid_of o ;;
      if Z.of_nat (length m) <=? rowIndex
      then l <- array_fill0 currentCols ;;
           push_row o l ;;;
           push_rows_loop k o rowIndex currentCols
      else ret tt
  end.

(** [while (node.value[r].length <= colIndex) node.value[r].push(0)] *)
Fixpoint push_cells_loop (fuel : nat) (l : loc) (colIndex : Z) : M unit :=
  match fuel with
  | O => ret tt
  | S k =>
      vs <- row_of l ;;
      if Z.of_nat (length vs) <=? colIndex
      then push_cell l (Num 0) ;;; push_cells_loop k l colIndex
      else ret tt
  end.

(** Each pass of a loop makes the array one longer or throws, so the
    first loop runs at most [rowIndex + 1] times and the second at most
    [colIndex + 1] times: the fuel is never used up (lemmas
    [push_rows_loop_run] and [push_cells_loop_run] when the loops
    return, [push_rows_loop_overflow] and [push_cells_loop_overflow]
    when they throw). *)
Definition expandMatrixIfNeeded (i : nat) (rowIndex colIndex : Z) : M unit :=
  o <- node_value i ;;
  m <- grid_of o ;;
  currentCols <- cols_of m ;;
  push_rows_loop (Z.to_nat (rowIndex + 1)) o rowIndex currentCols ;;;
  m' <- grid_of o ;;
  updatedCols <- match m' with
                 | [] => throw TypeError
                 | l :: _ => vs <- row_of l ;; ret (Z.of_nat (length vs))
                 end ;;
  if updatedCols <=? colIndex
  then for_each (λ l, push_cells_loop (Z.to_nat (colIndex + 1)) l colIndex) m'
  else ret tt.

Definition set (x y z rowIndex colIndex : Z) (newValue : jsval) : M unit :=
  node <- this_findNode x y z ;;
  i <- match node with
       | Some i => ret i
       | None => createNodeIfNeeded x y z (rowIndex + 1) (colIndex + 1)
       end ;;
  expandMatrixIfNeeded i rowIndex colIndex ;;;
  o <- node_value i ;;
  m <- grid_of o ;;
  match index m rowIndex with
  | None => throw TypeError
  | Some l => store_cell l colIndex newValue
  end.

Definition getDimensions (x y z : Z) : M (Z * Z) :=
  node <- this_findNode x y z ;;
  match node with
  | None => ret (0, 0)
  | Some i =>
      o <- node_value i ;;
      m <- grid_of o ;;
      cols <- cols_of m ;;
      ret (Z.of_nat (length m), cols)
  end.

(** The three loops of [update], with the assignment
    [node.value[r][c] = 1] as the parameter [assign], so that the order
    in which the cells are assigned can be told: [update_row_with] is
    the loop over the columns of a row, [update_node_with] the loop
    over the rows of a node, [update_with] the loop over the nodes.
    The bounds [node.value.length] and [node.value[r].length] do not
    change while the loops run: the assignments are all within them. *)
Definition update_row_with (assign : loc → Z → jsval → M unit) (l : loc)
  : M unit :=
  vs <- row_of l ;;
  for_each (λ c, assign l (Z.of_nat c) (Num 1)) (seq 0 (length vs)).

Definition update_node_with (assign : loc → Z → jsval → M unit) (n : node)
  : M unit :=
  m <- grid_of (value n) ;; for_each (update_row_with assign) m.

Definition update_with (assign : loc → Z → jsval → M unit) : M unit :=
  ns <- this_nodes ;; for_each (update_node_with assign) ns.

(** [update] itself: the assignment is [l[c] = 1] on the row [l]. *)
Definition update_row : loc → M unit := update_row_with store_cell.

Definition update_node : node → M unit := update_node_with store_cell.

Definition update : M unit := update_with store_cell.

(** ** The operations of the store, as one type *)

Inductive op : Type :=
| CreateNodeIfNeeded (x y z rows cols : Z)
| GetAllData (x y z : Z)
| Get (x y z rowIndex colIndex : Z)
| SetMatrix (x y z : Z) (matrix : loc)
| SetCell (x y z rowIndex colIndex : Z) (newValue : jsval)
| GetDimensions (x y z : Z)
| Update.

Inductive result : Type :=
| RNode (i : nat)
| RMatrix (o : loc)
| RValue (v : jsval)
| RDimensions (rows cols : Z)
| RVoid.

Definition call (c : op) : M result :=
  match c with
  | CreateNodeIfNeeded x y z rows cols =>
      i <- createNodeIfNeeded x y z rows cols ;; ret (RNode i)
  | GetAllData x y z => o <- getAllData x y z ;; ret (RMatrix o)
  | Get x y z rowIndex colIndex =>
      v <- get x y z rowIndex colIndex ;; ret (RValue v)
  | SetMatrix x y z matrix => setMatrix x y z matrix ;;; ret RVoid
  | SetCell x y z rowIndex colIndex newValue =>
      set x y z rowIndex colIndex newValue ;;; ret RVoid
  | GetDimensions x y z =>
      d <- getDimensions x y z ;; ret (RDimensions (fst d) (snd d))
  | Update => update ;;; ret RVoid
  end.

(** The state after a sequence of calls; the caller may catch what a
    call throws and go on. *)
Definition calls (cs : list op) (s : state) : state :=
  foldl (λ s c, fst (call c s)) s cs.

(** * The vocabulary of the specification *)

(** ** Matrices as values *)

Definition zeros (n : Z) : list jsval := replicate (Z.to_nat n) (Num 0).

(** The matrix an outer array designates, read off the heap. *)
Definition grid_at (s : state) (o : loc) : option (list (list jsval)) :=
  m ← grids s !! o; mapM (λ l, cells s !! l) m.

(** The matrix of the node at [(x, y, z)]. *)
Definition node_grid (s : state) (x y z : Z) : option (list (list jsval)) :=
  i ← findNode (this s) x y z;
  n ← nodes (this s) !! i;
  grid_at s (value n).

(** Every row is as long as every other row. *)
Definition rectangular (g : list (list jsval)) : Prop :=
  ∀ r1 r2, r1 ∈ g → r2 ∈ g → length r1 = length r2.

(** The cell of a matrix at integer indices, [None] out of range. *)
Definition cell (g : list (list jsval)) (row col : Z) : option jsval :=
  r ← index g row; index r col.

(** The number of columns [getDimensions] reports for a matrix. *)
Definition first_row_length (g : list (list jsval)) : Z :=
  match g with
  | [] => 0
  | r :: _ => Z.of_nat (length r)
  end.

(** The length of the row of index [row], 0 when there is none. *)
Definition row_length (g : list (list jsval)) (row : Z) : Z :=
  match index g row with
  | Some r => Z.of_nat (length r)
  | None => 0
  end.

(** The matrix has no more rows, and no row more cells, than an array
    can have elements: so it is with every array of JavaScript. *)
Definition fits (g : list (list jsval)) : Prop :=
  Z.of_nat (length g) ≤ max_length ∧
  Forall (λ r, Z.of_nat (length r) ≤ max_length) g.

(** [g'] has the rows of [g] at their places, each one possibly longer
    at its end, and possibly more rows after them. *)
Definition grid_extends (g g' : list (list jsval)) : Prop :=
  (length g ≤ length g')%nat ∧
  ∀ k r, g !! k = Some r → ∃ r', g' !! k = Some r' ∧ r `prefix_of` r'.

(** The matrix of a node created by [set(x, y, z, rowIndex, colIndex, v)]:
    [rowIndex + 1] rows of [colIndex + 1] zeros, with [v] in the last
    cell of the last row. *)
Definition created_grid (rowIndex colIndex : Z) (v : jsval)
  : list (list jsval) :=
  <[Z.to_nat rowIndex := <[Z.to_nat colIndex := v]> (zeros (colIndex + 1))]>
    (replicate (Z.to_nat (rowIndex + 1)) (zeros (colIndex + 1))).

(** A row with every cell set to 1. *)
Definition ones (vs : list jsval) : list jsval :=
  replicate (length vs) (Num 1).

(** ** Conditions on states *)

(** The rows of the outer array [m] are arrays of the heap. *)
Definition rows_allocated (s : state) (m : list loc) : Prop :=
  ∀ l, l ∈ m → is_Some (cells s !! l).

(** The node at [(x, y, z)] is node [i], the object [n], and its matrix
    is made of the rows [m], all of them arrays of the heap. *)
Definition holds (s : state) (x y z : Z) (i : nat) (n : node) (m : list loc)
  : Prop :=
  findNode (this s) x y z = Some i ∧
  nodes (this s) !! i = Some n ∧
  grids s !! value n = Some m ∧
  rows_allocated s m.

(** The address is free, or its node has its matrix on the heap, and
    the matrix is one of arrays. *)
Definition node_ok (s : state) (x y z : Z) : Prop :=
  findNode (this s) x y z = None ∨
  ∃ g, node_grid s x y z = Some g ∧ fits g.

(** There is a node at the address, or [this.nodes] is not full and
    can take one. *)
Definition has_room (s : state) (x y z : Z) : Prop :=
  is_Some (findNode (this s) x y z) ∨
  Z.of_nat (length (nodes (this s))) < max_length.

(** [createNodeIfNeeded] at a free address returns exactly when the
    matrix can be made and [this.nodes] has room. *)
Definition can_create (s : state) (rows cols : Z) : Prop :=
  rows ≤ max_length ∧ (rows ≤ 0 ∨ 0 ≤ cols ≤ max_length) ∧
  Z.of_nat (length (nodes (this s))) < max_length.

(** The rows of the node's matrix are pairwise distinct arrays, as they
    are in every matrix the store builds itself. *)
Definition rows_distinct (s : state) (x y z : Z) : Prop :=
  findNode (this s) x y z = None ∨
  ∃ i n m, holds s x y z i n m ∧ NoDup m.

(** Every node has its matrix on the heap. *)
Definition store_ok (s : state) : Prop :=
  ∀ n, n ∈ nodes (this s) → is_Some (grid_at s (value n)).

(** Every reference designates an array: the [value] of a node an outer
    array, the elements of an outer array rows. *)
Definition refs_ok (s : state) : Prop :=
  (∀ n, n ∈ nodes (this s) → is_Some (grids s !! value n)) ∧
  (∀ o m, grids s !! o = Some m → rows_allocated s m).

(** No array has more elements than an array can have. *)
Definition within_limits (s : state) : Prop :=
  Z.of_nat (length (nodes (this s))) ≤ max_length ∧
  (∀ o m, grids s !! o = Some m → Z.of_nat (length m) ≤ max_length) ∧
  (∀ l vs, cells s !! l = Some vs → Z.of_nat (length vs) ≤ max_length).

(** JavaScript has no other states; the conditions [node_ok],
    [store_ok], [fits g] and [grid_at s o = Some g] of the claims say
    so for the arrays a call works on. *)
Definition wf (s : state) : Prop := refs_ok s ∧ within_limits s.

Definition coords (n : node) : Z * Z * Z := (xx n, yy n, zz n).


(** Node [i] has its matrix on the heap and every row of it is [w]
    long. *)
Definition row_lengths (s : state) (i : nat) (w : Z) : Prop :=
  ∃ n m, nodes (this s) !! i = Some n ∧
         grids s !! value n = Some m ∧
         ∀ l, l ∈ m → ∃ vs, cells s !! l = Some vs ∧ Z.of_nat (length vs) = w.

(** The state has the nodes, the outer arrays and the row lengths of
    [s0]. *)
Definition same_shape (s0 s : state) : Prop :=
  this s = this s0 ∧ grids s = grids s0 ∧
  ∀ l, length <$> cells s !! l = length <$> cells s0 !! l.

(** ** Calls *)


(** The call is one that creates a node: its address has none, and
    [this.nodes] is not full. *)
Definition creates (c : op) (s : state) : Prop :=
  match c with
  | CreateNodeIfNeeded x y z _ _
  | SetMatrix x y z _
  | SetCell x y z _ _ _ =>
      findNode (this s) x y z = None ∧
      Z.of_nat (length (nodes (this s))) < max_length
  | _ => False
  end.

(** The operations that may create the node at [(x, y, z)]: the two
    writes, and the creation step they share. *)
Definition targets (c : op) (x y z : Z) : Prop :=
  match c with
  | CreateNodeIfNeeded x' y' z' _ _
  | SetMatrix x' y' z' _
  | SetCell x' y' z' _ _ _ => x' = x ∧ y' = y ∧ z' = z
  | _ => False
  end.

(** A sequence of [set] calls at one address. *)
Definition sets (x y z : Z) (ws : list (Z * Z * jsval)) : M unit :=
  for_each (λ w, set x y z w.1.1 w.1.2 w.2) ws.

(** A call leaves the coordinates of the nodes and the index as they
    are, or it adds the node it targets, which was not there. *)
Definition this_effect (s s' : state) (P : Z → Z → Z → Prop) : Prop :=
  (coords <$> nodes (this s') = coords <$> nodes (this s) ∧
   usedAddresses (this s') = usedAddresses (this s)) ∨
  (∃ x y z, P x y z ∧ findNode (this s) x y z = None ∧
            coords <$> nodes (this s') = (coords <$> nodes (this s)) ++ [(x, y, z)] ∧
            usedAddresses (this s')
              = {[generateAddress x y z]} ∪ usedAddresses (this s)).

(** ** Closed forms of the loops and of [set] *)

(** [pad col vs]: the row [vs] after [while (vs.length <= col) vs.push(0)] *)
Definition pad (col : Z) (vs : list jsval) : list jsval :=
  vs ++ replicate (Z.to_nat (col + 1 - Z.of_nat (length vs))) (Num 0).

(** [s'] is [s] with the new rows [ls], each [w] zeros wide. *)
Definition allocated_rows (s s' : state) (ls : list loc) (w : Z) : Prop :=
  this s' = this s ∧ NoDup ls ∧
  (∀ l, l ∈ ls → cells s !! l = None) ∧
  (∀ l, cells s' !! l = if decide (l ∈ ls) then Some (zeros w)
                        else cells s !! l).

(** [rows > 0 ? m[0].length : 0] as a function of the heap *)
Definition width (s : state) (m : list loc) : Z :=
  match m with
  | [] => 0
  | l :: _ => Z.of_nat (length (default [] (cells s !! l)))
  end.

(** The row at [l] once the new rows [ls] have been pushed on the outer
    array [m], before the columns are expanded. *)
Definition base (s : state) (m ls : list loc) (l : loc)
  : option (list jsval) :=
  if decide (l ∈ ls) then Some (zeros (width s m)) else cells s !! l.

(** The row at [l] once the outer array [m] has been expanded by the new
    rows [ls] for a write at column [colIndex]. *)
Definition expanded (s : state) (m ls : list loc) (colIndex : Z) (l : loc)
  : option (list jsval) :=
  if decide (width s m ≤ colIndex ∧ l ∈ m ++ ls)
  then pad colIndex <$> base s m ls l
  else base s m ls l.

(** What [set] does once it holds the node. *)
Definition set_tail (i : nat) (rowIndex colIndex : Z) (newValue : jsval)
  : M unit :=
  expandMatrixIfNeeded i rowIndex colIndex ;;;
  o <- node_value i ;;
  m <- grid_of o ;;
  match index m rowIndex with
  | None => throw TypeError
  | Some l => store_cell l colIndex newValue
  end.

(** The row at [l] after the write: the row of index [rowIndex], [lr],
    gets the cell; every row that is this same array gets it too. *)
Definition written (s : state) (m ls : list loc) (lr : loc)
    (colIndex : Z) (v : jsval) (l : loc) : option (list jsval) :=
  if decide (l = lr)
  then (λ vs, array_set vs colIndex v) <$> expanded s m ls colIndex l
  else expanded s m ls colIndex l.

(** [written] on a row [vs] that is there. *)
Definition written_row (s : state) (m ls : list loc) (lr : loc)
    (colIndex : Z) (v : jsval) (l : loc) (vs : list jsval) : list jsval :=
  let vs1 := if decide (width s m ≤ colIndex ∧ l ∈ m ++ ls)
             then pad colIndex vs else vs in
  if decide (l = lr) then array_set vs1 colIndex v else vs1.

(** ** The cell writes of [update] *)

(** The rows of the matrices of the nodes [ns]. *)
Definition rows_of (s : state) (ns : list node) : list loc :=
  n ← ns; default [] (grids s !! value n).

(** The cell writes of [update] on a row, column after column; on a
    node, row after row; on the store, node after node as [this.nodes]
    lists them. *)
Definition row_writes (s : state) (l : loc) : list (loc * Z) :=
  (λ c, (l, Z.of_nat c)) <$> seq 0 (length (default [] (cells s !! l))).

Definition node_writes (s : state) (n : node) : list (loc * Z) :=
  default [] (grids s !! value n) ≫= row_writes s.

Definition update_writes (s : state) : list (loc * Z) :=
  nodes (this s) ≫= node_writes s.

(** The assignment [assign], made at the cell [w]. *)
Definition assign_one (assign : loc → Z → jsval → M unit) (w : loc * Z)
  : M unit :=
  assign w.1 w.2 (Num 1).

(** An assignment that tells the order of the assignments: it puts in
    the cell the number of the assignments made before it, which it
    counts in the cell 0 of the array [counter]. *)
Definition numbered (counter : loc) (l : loc) (c : Z) (_ : jsval) : M unit :=
  k <- row_of counter ;;
  match k with
  | [Num k] => store_cell counter 0 (Num (k + 1)) ;;; store_cell l c (Num k)
  | _ => throw TypeError
  end.

(** [assign] keeps the shape of [s0] when it assigns to a cell that
    [update] assigns to. *)
Definition keeps_shape (s0 : state) (assign : loc → Z → jsval → M unit)
  : Prop :=
  ∀ w s, w ∈ update_writes s0 → same_shape s0 s →
         same_shape s0 (fst (assign w.1 w.2 (Num 1) s)).

(** ** What a method may change and throw *)

(** [obeys R E Q m]: from any state [m] ends in a state related by [R];
    what it throws satisfies [E], what it returns satisfies [Q]. *)
Definition obeys {A} (R : relation state) (E : exn → Prop) (Q : A → Prop)
    (m : M A) : Prop :=
  ∀ s, R s (fst (m s)) ∧
       match snd (m s) with inl e => E e | inr a => Q a end.

(** Programs that work on the arrays only: they leave [this] alone and
    throw nothing but what the engine throws, a [TypeError] or a
    [RangeError]. *)
Definition same_this : relation state := λ s s', this s' = this s.

Definition on_arrays {A} (Q : A → Prop) (m : M A) : Prop :=
  obeys same_this (λ e, e = TypeError ∨ e = RangeError) Q m.

(** Programs that change nothing at all. *)
Definition reads {A} (m : M A) : Prop :=
  obeys eq (λ _, True) (λ _, True) m.

(** Programs that keep the references of a state in order, and programs
    that keep its arrays within the limits, whether they return or
    throw. *)
Definition keeps_refs : relation state := λ s s', refs_ok s → refs_ok s'.

Definition refs_safe {A} (m : M A) : Prop :=
  obeys keeps_refs (λ _, True) (λ _, True) m.

Definition keeps_limits : relation state :=
  λ s s', within_limits s → within_limits s'.

Definition limits_safe {A} (Q : A → Prop) (m : M A) : Prop :=
  obeys keeps_limits (λ _, True) Q m.

(** The arrays of [s'] are those of [s], each one possibly longer at its
    end, and possibly new ones; an outer array whose rows were arrays
    still has arrays for rows. *)
Definition grown : relation state := λ s s',
  this s' = this s ∧
  (∀ o m, grids s !! o = Some m →
          ∃ m', grids s' !! o = Some m' ∧ m `prefix_of` m' ∧
                (rows_allocated s m → rows_allocated s' m')) ∧
  (∀ l vs, cells s !! l = Some vs →
           ∃ vs', cells s' !! l = Some vs' ∧ vs `prefix_of` vs').

(** ** Addresses *)

Fixpoint no_comma (a : string) : Prop :=
  match a with
  | EmptyString => True
  | String c a' => c ≠ ","%char ∧ no_comma a'
  end.

(** ** The index of used addresses, and the nodes *)

(** The address string of a triple of coordinates. *)
Definition address_of (c : Z * Z * Z) : string :=
  generateAddress c.1.1 c.1.2 c.2.

(** The index holds the addresses of the nodes and nothing else. *)
Definition index_ok (s : state) : Prop :=
  usedAddresses (this s) = list_to_set (address_of <$> (coords <$> nodes (this s))).

(** No two nodes have the same coordinates. *)
Definition one_node_per_address (s : state) : Prop :=
  NoDup (coords <$> nodes (this s)).

(** ** [expandMatrixIfNeeded] and [set] on a matrix as a value *)

(** What [expandMatrixIfNeeded] makes of a matrix whose rows are
    distinct arrays: rows of zeros, as wide as the first row, up to
    [rowIndex]; then, when the first row ends at or before [colIndex],
    zeros at the end of every row that does. *)
Definition expand_grid (g : list (list jsval)) (rowIndex colIndex : Z)
  : list (list jsval) :=
  let g1 := g ++ replicate (Z.to_nat (rowIndex + 1 - Z.of_nat (length g)))
                           (zeros (first_row_length g)) in
  if decide (first_row_length g ≤ colIndex) then pad colIndex <$> g1 else g1.

(** What [set] makes of it: the expansion, then
    [value[rowIndex][colIndex] = newValue]. *)
Definition set_grid (g : list (list jsval)) (rowIndex colIndex : Z)
    (newValue : jsval) : list (list jsval) :=
  alter (λ vs, array_set vs colIndex newValue) (Z.to_nat rowIndex)
        (expand_grid g rowIndex colIndex).

(** ** Example states *)

(** A new [Memory], and the caller's matrix [[1,2,3],[4,5,6]] as the
    outer array 1 with the rows 1 and 2. *)
Definition heap_2x3 : state :=
  mkState (mkMemory [] ∅)
          {[ 1%positive := [1%positive; 2%positive] ]}
          (<[ 2%positive := [Num 4; Num 5; Num 6] ]>
             {[ 1%positive := [Num 1; Num 2; Num 3] ]}).

(** After [memory.setMatrix(0, 0, 0, [[1,2,3],[4,5,6]])]. *)
Definition store_2x3 : state := fst (setMatrix 0 0 0 1%positive heap_2x3).

(** After [memory.set(0, 0, 0, 2, 1, 7)] on a new [Memory]: a node of
    shape (3, 2). *)
Definition store_3x2 : state := fst (set 0 0 0 2 1 (Num 7) constructor).

(** A matrix with one row used twice:
    [const r = [0, 0]; const matrix = [r, r];] *)
Definition heap_shared_row : state :=
  mkState (mkMemory [] ∅)
          {[ 1%positive := [1%positive; 1%positive] ]}
          {[ 1%positive := [Num 0; Num 0] ]}.

(** After [memory.setMatrix(0, 0, 0, [[1], [2, 3]])] and after
    [memory.setMatrix(0, 0, 0, [[1, 2], [3]])] on a new [Memory]: two
    matrices whose rows have different lengths. *)
Definition store_1_23 : state :=
  fst (setMatrix 0 0 0 1%positive
         (mkState (mkMemory [] ∅)
                  {[ 1%positive := [1%positive; 2%positive] ]}
                  (<[ 2%positive := [Num 2; Num 3] ]>
                     {[ 1%positive := [Num 1] ]}))).

Definition store_12_3 : state :=
  fst (setMatrix 0 0 0 1%positive
         (mkState (mkMemory [] ∅)
                  {[ 1%positive := [1%positive; 2%positive] ]}
                  (<[ 2%positive := [Num 3] ]>
                     {[ 1%positive := [Num 1; Num 2] ]}))).

(** After [memory.set(0, 0, 0, 1, 0, 1)] on a new [Memory]: two rows of
    one cell. *)
Definition store_2x1 : state := fst (set 0 0 0 1 0 (Num 1) constructor).

(** Two nodes of different shapes: (0, 0, 0) with 2 rows of 3 cells and
    (1, 1, 1) with 1 row of 2 cells. *)
Definition store_two_nodes : state :=
  fst (set 1 1 1 0 1 (Num 9) store_2x3).

(** [store_two_nodes] with one more array on the heap, the counter
    [[0]]. *)
Definition store_counted : state :=
  mkState (this store_two_nodes) (grids store_two_nodes)
          (<[ 9%positive := [Num 0] ]> (cells store_two_nodes)).

(** * Lemmas *)

(** ** Running monadic programs *)

Lemma bind_inr {A B} (m : M A) (f : A → M B) s s' a :
  m s = (s', inr a) → bind m f s = f a s'.
Proof. intros H. unfold bind. by rewrite H. Qed.

Lemma bind_inl {A B} (m : M A) (f : A → M B) s s' e :
  m s = (s', inl e) → bind m f s = (s', inl e).
Proof. intros H. unfold bind. by rewrite H. Qed.

Lemma state_eta s : mkState (this s) (grids s) (cells s) = s.
Proof. by destruct s. Qed.

Lemma grid_of_run s o m : grids s !! o = Some m → grid_of o s = (s, inr m).
Proof. intros H. unfold grid_of. by rewrite H. Qed.

Lemma row_of_run s l vs : cells s !! l = Some vs → row_of l s = (s, inr vs).
Proof. intros H. unfold row_of. by rewrite H. Qed.

Lemma node_value_run s i n :
  nodes (this s) !! i = Some n → node_value i s = (s, inr (value n)).
Proof. intros H. unfold node_value. by rewrite H. Qed.

Lemma fresh_cells_None s : cells s !! fresh (dom (cells s)) = None.
Proof. apply not_elem_of_dom, is_fresh. Qed.

Lemma fresh_grids_None s : grids s !! fresh (dom (grids s)) = None.
Proof. apply not_elem_of_dom, is_fresh. Qed.

(** ** The largest length of an array *)

Arguments max_length : simpl never.

Lemma max_length_pos : 2 < max_length.
Proof. unfold max_length. lia. Qed.

(** ** Closed forms of the allocations and of the two loops *)

Lemma array_fill0_run cols s :
  0 ≤ cols ≤ max_length →
  array_fill0 cols s =
    (mkState (this s) (grids s)
             (<[fresh (dom (cells s)) := zeros cols]> (cells s)),
     inr (fresh (dom (cells s)))).
Proof.
  intros Hc. unfold array_fill0.
  destruct (Z.ltb_spec cols 0); [lia |].
  destruct (Z.ltb_spec max_length cols); [lia | done].
Qed.

Lemma array_fill0_RangeError cols s :
  cols < 0 ∨ max_length < cols → array_fill0 cols s = (s, inl RangeError).
Proof.
  intros Hc. unfold array_fill0.
  destruct (Z.ltb_spec cols 0); [done |].
  destruct (Z.ltb_spec max_length cols); [done | lia].
Qed.

Lemma array_fill0_cases cols s :
  array_fill0 cols s = (s, inl RangeError) ∨
  array_fill0 cols s =
    (mkState (this s) (grids s)
             (<[fresh (dom (cells s)) := zeros cols]> (cells s)),
     inr (fresh (dom (cells s)))).
Proof.
  destruct (decide (0 ≤ cols ≤ max_length)).
  - right. by apply array_fill0_run.
  - left. apply array_fill0_RangeError. lia.
Qed.

Lemma allocated_rows_cons s s1 s' l ls w :
  cells s !! l = None →
  this s1 = this s →
  cells s1 = <[l := zeros w]> (cells s) →
  allocated_rows s1 s' ls w →
  allocated_rows s s' (l :: ls) w.
Proof.
  intros Hl Ht Hc (Ht' & Hnd & Hfresh & Hlook).
  assert (l ∉ ls) as Hnotin.
  { intros Hin. apply Hfresh in Hin. rewrite Hc, lookup_insert_eq in Hin.
    discriminate. }
  split_and!.
  - congruence.
  - by constructor.
  - intros l' [-> | Hin]%elem_of_cons; [done |].
    specialize (Hfresh _ Hin). rewrite Hc in Hfresh.
    destruct (decide (l = l')) as [-> | Hne]; [done |].
    by rewrite lookup_insert_ne in Hfresh.
  - intros l'. rewrite Hlook, Hc.
    destruct (decide (l' ∈ ls)) as [Hin | Hin];
      destruct (decide (l' ∈ l :: ls)) as [Hin' | Hin']; try done.
    + exfalso. apply Hin'. by right.
    + apply elem_of_cons in Hin' as [-> | ?]; [| done].
      by rewrite lookup_insert_eq.
    + rewrite lookup_insert_ne; [done |]. intros ->. apply Hin'. by left.
Qed.

Lemma allocated_rows_nil s w : allocated_rows s s [] w.
Proof.
  split_and!; [done | constructor | by intros l ?%elem_of_nil |].
  intros l. by rewrite decide_False by apply not_elem_of_nil.
Qed.

Lemma array_from_loop_run n cols s :
  0 ≤ cols ≤ max_length →
  ∃ ls s', array_from_loop n (array_fill0 cols) s = (s', inr ls) ∧
           grids s' = grids s ∧ length ls = n ∧ allocated_rows s s' ls cols.
Proof.
  intros Hc. revert s. induction n as [| n IH]; intros s.
  - exists [], s. split_and!; [done.. | apply allocated_rows_nil].
  - simpl. rewrite (bind_inr _ _ _ _ _ (array_fill0_run cols s Hc)).
    set (l := fresh (dom (cells s))).
    set (s1 := mkState _ _ _).
    destruct (IH s1) as (ls & s' & Hrun & Hg & Hlen & Halloc).
    exists (l :: ls), s'. rewrite (bind_inr _ _ _ _ _ Hrun).
    split_and!; [done | done | by simpl; f_equal |].
    eapply allocated_rows_cons; [apply fresh_cells_None | | | done]; done.
Qed.

Lemma array_from_run rows cols s :
  rows ≤ max_length → rows ≤ 0 ∨ 0 ≤ cols ≤ max_length →
  ∃ ls s', array_from rows (array_fill0 cols) s = (s', inr ls) ∧
           grids s' = grids s ∧ length ls = Z.to_nat rows ∧
           allocated_rows s s' ls cols.
Proof.
  intros Hrows Hsize. unfold array_from.
  destruct (Z.ltb_spec max_length rows); [lia |].
  destruct (decide (0 ≤ cols ≤ max_length)) as [Hc | Hc].
  - by apply array_from_loop_run.
  - replace (Z.to_nat rows) with 0%nat by lia.
    exists [], s. split_and!; [done.. | apply allocated_rows_nil].
Qed.

Lemma array_from_RangeError rows cols s :
  max_length < rows ∨ 0 < rows ∧ (cols < 0 ∨ max_length < cols) →
  array_from rows (array_fill0 cols) s = (s, inl RangeError).
Proof.
  intros Hsize. unfold array_from.
  destruct (Z.ltb_spec max_length rows); [done |].
  destruct Hsize as [? | [Hrows Hcols]]; [lia |].
  destruct (Z.to_nat rows) as [| n] eqn:Hn; [lia |]. simpl.
  by apply bind_inl, array_fill0_RangeError.
Qed.

Lemma push_row_run o l s m :
  grids s !! o = Some m → Z.of_nat (length m) < max_length →
  push_row o l s
  = (mkState (this s) (<[o := m ++ [l]]> (grids s)) (cells s), inr tt).
Proof.
  intros Hm Hlen. unfold push_row.
  rewrite (bind_inr _ _ _ _ _ (grid_of_run _ _ _ Hm)).
  destruct (Z.ltb_spec (Z.of_nat (length m)) max_length); [done | lia].
Qed.

Lemma push_row_RangeError o l s m :
  grids s !! o = Some m → max_length ≤ Z.of_nat (length m) →
  push_row o l s = (s, inl RangeError).
Proof.
  intros Hm Hlen. unfold push_row.
  rewrite (bind_inr _ _ _ _ _ (grid_of_run _ _ _ Hm)).
  destruct (Z.ltb_spec (Z.of_nat (length m)) max_length); [lia | done].
Qed.

Lemma push_cell_run l v s vs :
  cells s !! l = Some vs → Z.of_nat (length vs) < max_length →
  push_cell l v s
  = (mkState (this s) (grids s) (<[l := vs ++ [v]]> (cells s)), inr tt).
Proof.
  intros Hl Hlen. unfold push_cell.
  rewrite (bind_inr _ _ _ _ _ (row_of_run _ _ _ Hl)).
  destruct (Z.ltb_spec (Z.of_nat (length vs)) max_length); [done | lia].
Qed.

Lemma push_cell_RangeError l v s vs :
  cells s !! l = Some vs → max_length ≤ Z.of_nat (length vs) →
  push_cell l v s = (s, inl RangeError).
Proof.
  intros Hl Hlen. unfold push_cell.
  rewrite (bind_inr _ _ _ _ _ (row_of_run _ _ _ Hl)).
  destruct (Z.ltb_spec (Z.of_nat (length vs)) max_length); [lia | done].
Qed.

Lemma push_rows_loop_run fuel o rowIndex cc s m :
  grids s !! o = Some m → 0 ≤ cc ≤ max_length → rowIndex < max_length →
  (Z.to_nat (rowIndex + 1 - Z.of_nat (length m)) ≤ fuel)%nat →
  ∃ ls s', push_rows_loop fuel o rowIndex cc s = (s', inr tt) ∧
           grids s' = <[o := m ++ ls]> (grids s) ∧
           length ls = Z.to_nat (rowIndex + 1 - Z.of_nat (length m)) ∧
           allocated_rows s s' ls cc.
Proof.
  intros Hm Hcc Hlimit. revert s m Hm.
  induction fuel as [| fuel IH]; intros s m Hm Hfuel.
  - exists [], s. split_and!; [done | | simpl; lia | apply allocated_rows_nil].
    by rewrite app_nil_r, insert_id.
  - simpl. rewrite (bind_inr _ _ _ _ _ (grid_of_run _ _ _ Hm)).
    destruct (Z.leb_spec (Z.of_nat (length m)) rowIndex) as [Hle | Hgt].
    + rewrite (bind_inr _ _ _ _ _ (array_fill0_run cc s Hcc)).
      set (l := fresh (dom (cells s))).
      set (s1 := mkState _ _ _).
      assert (push_row o l s1
              = (mkState (this s) (<[o := m ++ [l]]> (grids s))
                         (<[l := zeros cc]> (cells s)), inr tt)) as Hpush.
      { apply (push_row_run o l s1 m); [done | lia]. }
      rewrite (bind_inr _ _ _ _ _ Hpush). clear Hpush.
      set (s2 := mkState _ _ _).
      destruct (IH s2 (m ++ [l])) as (ls & s' & Hrun & Hg & Hlen & Halloc).
      { apply lookup_insert_eq. }
      { rewrite length_app. simpl. lia. }
      exists (l :: ls), s'. split_and!.
      * done.
      * rewrite Hg. simpl. rewrite insert_insert_eq.
        by rewrite <- app_assoc.
      * simpl. rewrite Hlen, length_app. simpl. lia.
      * eapply allocated_rows_cons; [apply fresh_cells_None | | | done]; done.
    + exists [], s. split_and!; [done | | simpl; lia | apply allocated_rows_nil].
      by rewrite app_nil_r, insert_id.
Qed.

Lemma pad_length col vs :
  Z.of_nat (length (pad col vs)) = Z.max (Z.of_nat (length vs)) (col + 1).
Proof. unfold pad. rewrite length_app, length_replicate. lia. Qed.

Lemma pad_long col vs : col < Z.of_nat (length vs) → pad col vs = vs.
Proof.
  intros H. unfold pad.
  replace (Z.to_nat _) with 0%nat by lia. apply app_nil_r.
Qed.

Lemma pad_idemp col vs : pad col (pad col vs) = pad col vs.
Proof. apply pad_long. rewrite pad_length. lia. Qed.

Lemma pad_push col vs :
  Z.of_nat (length vs) ≤ col → pad col (vs ++ [Num 0]) = pad col vs.
Proof.
  intros H. unfold pad. rewrite length_app. simpl.
  replace (Z.to_nat (col + 1 - Z.of_nat (length vs)))
    with (S (Z.to_nat (col + 1 - Z.of_nat (length vs + 1)))) by lia.
  simpl. by rewrite <- app_assoc.
Qed.

Lemma pad_lookup col vs c x : vs !! c = Some x → pad col vs !! c = Some x.
Proof. intros H. unfold pad. by apply lookup_app_l_Some. Qed.

Lemma push_cells_loop_run fuel l colIndex s vs :
  cells s !! l = Some vs → colIndex < max_length →
  (Z.to_nat (colIndex + 1 - Z.of_nat (length vs)) ≤ fuel)%nat →
  push_cells_loop fuel l colIndex s =
    (mkState (this s) (grids s) (<[l := pad colIndex vs]> (cells s)), inr tt).
Proof.
  intros Hl Hlimit. revert s vs Hl.
  induction fuel as [| fuel IH]; intros s vs Hl Hfuel.
  - simpl. unfold ret. rewrite pad_long by lia.
    by rewrite insert_id, state_eta.
  - simpl. rewrite (bind_inr _ _ _ _ _ (row_of_run _ _ _ Hl)).
    destruct (Z.leb_spec (Z.of_nat (length vs)) colIndex) as [Hle | Hgt].
    + rewrite (bind_inr _ _ _ _ _ (push_cell_run l (Num 0) s vs Hl ltac:(lia))).
      rewrite (IH _ (vs ++ [Num 0])).
      * simpl. by rewrite insert_insert_eq, pad_push.
      * apply lookup_insert_eq.
      * rewrite length_app. simpl. lia.
    + unfold ret. rewrite pad_long by lia.
      by rewrite insert_id, state_eta.
Qed.

(** The loops at an index that no array has: they fill the array up to
    [max_length] elements and the next [push] throws. *)
Lemma push_cells_loop_overflow fuel l colIndex s vs :
  cells s !! l = Some vs →
  Z.of_nat (length vs) ≤ max_length ≤ colIndex →
  (Z.to_nat (max_length - Z.of_nat (length vs)) < fuel)%nat →
  push_cells_loop fuel l colIndex s =
    (mkState (this s) (grids s)
             (<[l := pad (max_length - 1) vs]> (cells s)),
     inl RangeError).
Proof.
  intros Hl Hlimit. revert s vs Hl Hlimit.
  induction fuel as [| fuel IH]; intros s vs Hl Hlimit Hfuel; [lia |].
  simpl. rewrite (bind_inr _ _ _ _ _ (row_of_run _ _ _ Hl)).
  destruct (Z.leb_spec (Z.of_nat (length vs)) colIndex) as [_ | ?]; [| lia].
  destruct (decide (Z.of_nat (length vs) < max_length)) as [Hlt | Hge].
  - rewrite (bind_inr _ _ _ _ _ (push_cell_run l (Num 0) s vs Hl Hlt)).
    rewrite (IH _ (vs ++ [Num 0])).
    + simpl. rewrite insert_insert_eq, pad_push; [done | lia].
    + apply lookup_insert_eq.
    + rewrite length_app. simpl. lia.
    + rewrite length_app. simpl. lia.
  - rewrite (bind_inl _ _ _ _ _
               (push_cell_RangeError l (Num 0) s vs Hl ltac:(lia))).
    rewrite pad_long by lia. by rewrite insert_id, state_eta.
Qed.

Lemma push_rows_loop_overflow fuel o rowIndex cc s m :
  grids s !! o = Some m →
  Z.of_nat (length m) ≤ max_length ≤ rowIndex →
  (Z.to_nat (max_length - Z.of_nat (length m)) < fuel)%nat →
  snd (push_rows_loop fuel o rowIndex cc s) = inl RangeError.
Proof.
  revert s m. induction fuel as [| fuel IH]; intros s m Hm Hlimit Hfuel; [lia |].
  simpl. rewrite (bind_inr _ _ _ _ _ (grid_of_run _ _ _ Hm)).
  destruct (Z.leb_spec (Z.of_nat (length m)) rowIndex) as [_ | ?]; [| lia].
  destruct (array_fill0_cases cc s) as [Hfill | Hfill].
  { by rewrite (bind_inl _ _ _ _ _ Hfill). }
  rewrite (bind_inr _ _ _ _ _ Hfill).
  set (l := fresh (dom (cells s))). set (s1 := mkState _ _ _).
  destruct (decide (Z.of_nat (length m) < max_length)) as [Hlt | Hge].
  - rewrite (bind_inr _ _ _ _ _ (push_row_run o l s1 m Hm Hlt)).
    apply (IH _ (m ++ [l])).
    + apply lookup_insert_eq.
    + rewrite length_app. simpl. lia.
    + rewrite length_app. simpl. lia.
  - by rewrite (bind_inl _ _ _ _ _
                  (push_row_RangeError o l s1 m Hm ltac:(lia))).
Qed.

(** A loop over rows that replaces each row [vs] by [f vs]; a row that
    comes twice is replaced twice. *)
Lemma map_rows_run (body : loc → M unit) (f : list jsval → list jsval) L s :
  (∀ l s vs, cells s !! l = Some vs →
             body l s = (mkState (this s) (grids s) (<[l := f vs]> (cells s)),
                         inr tt)) →
  (∀ vs, f (f vs) = f vs) →
  rows_allocated s L →
  ∃ s', for_each body L s = (s', inr tt) ∧
        this s' = this s ∧ grids s' = grids s ∧
        ∀ l, cells s' !! l = if decide (l ∈ L) then f <$> cells s !! l
                             else cells s !! l.
Proof.
  intros Hbody Hf. revert s. induction L as [| l L IH]; intros s Hall.
  - exists s. split_and!; [done.. |]. intros l.
    by rewrite decide_False by apply not_elem_of_nil.
  - destruct (Hall l) as [vs Hvs]; [by left |].
    simpl. rewrite (bind_inr _ _ _ _ _ (Hbody l s vs Hvs)).
    set (s1 := mkState _ _ _).
    destruct (IH s1) as (s' & Hrun & Ht & Hg & Hc).
    { intros l' Hin. simpl. destruct (decide (l = l')) as [-> | Hne].
      - rewrite lookup_insert_eq. eauto.
      - rewrite lookup_insert_ne by done. apply Hall. by right. }
    exists s'. split_and!; [done.. |].
    intros l'. rewrite Hc. simpl.
    destruct (decide (l = l')) as [<- | Hne].
    + rewrite lookup_insert_eq, Hvs.
      rewrite (decide_True (P := l ∈ l :: L)) by left.
      simpl. case_decide; [by rewrite Hf | done].
    + rewrite lookup_insert_ne by done.
      destruct (decide (l' ∈ L)) as [Hin | Hin];
        destruct (decide (l' ∈ l :: L)) as [Hin' | Hin']; try done.
      * exfalso. apply Hin'. by right.
      * by apply elem_of_cons in Hin' as [-> | ?].
Qed.

Lemma pad_rows_run colIndex L s :
  colIndex < max_length →
  rows_allocated s L →
  ∃ s', for_each (λ l, push_cells_loop (Z.to_nat (colIndex + 1)) l colIndex) L s
        = (s', inr tt) ∧
        this s' = this s ∧ grids s' = grids s ∧
        ∀ l, cells s' !! l = if decide (l ∈ L) then pad colIndex <$> cells s !! l
                             else cells s !! l.
Proof.
  intros Hlimit. apply (map_rows_run _ (pad colIndex)); [| apply pad_idemp].
  intros l s0 vs Hvs. apply push_cells_loop_run; [done | done | lia].
Qed.

(** ** Closed form of [expandMatrixIfNeeded] *)

Lemma width_nonneg s m : 0 ≤ width s m.
Proof. destruct m; simpl; lia. Qed.

Lemma cols_of_run s m :
  rows_allocated s m → cols_of m s = (s, inr (width s m)).
Proof.
  intros Hall. destruct m as [| l m]; [done |].
  destruct (Hall l) as [vs Hvs]; [by left |].
  simpl. rewrite (bind_inr _ _ _ _ _ (row_of_run _ _ _ Hvs)).
  by rewrite Hvs.
Qed.

Lemma zeros_length n : 0 ≤ n → Z.of_nat (length (zeros n)) = n.
Proof. intros H. unfold zeros. rewrite length_replicate. lia. Qed.

Lemma expandMatrixIfNeeded_TypeError s i n rowIndex colIndex :
  nodes (this s) !! i = Some n →
  grids s !! value n = Some [] →
  rowIndex < 0 →
  expandMatrixIfNeeded i rowIndex colIndex s = (s, inl TypeError).
Proof.
  intros Hn Hm Hrow. unfold expandMatrixIfNeeded.
  rewrite (bind_inr _ _ _ _ _ (node_value_run _ _ _ Hn)).
  rewrite (bind_inr _ _ _ _ _ (grid_of_run _ _ _ Hm)).
  simpl. unfold bind at 1. simpl.
  replace (Z.to_nat (rowIndex + 1)) with 0%nat by lia. simpl.
  unfold bind at 1. simpl.
  by rewrite (bind_inr _ _ _ _ _ (grid_of_run _ _ _ Hm)).
Qed.

(** The first half of [expandMatrixIfNeeded]: the rows are pushed, and
    the first row, old or new, is [width s m] long. *)
Lemma expandMatrixIfNeeded_rows s i n m rowIndex colIndex :
  nodes (this s) !! i = Some n →
  grids s !! value n = Some m →
  rows_allocated s m →
  m ≠ [] ∨ 0 ≤ rowIndex →
  rowIndex < max_length → width s m ≤ max_length →
  ∃ ls s1 l0 rest vs0,
    expandMatrixIfNeeded i rowIndex colIndex s
    = (if width s m <=? colIndex
       then for_each (λ l, push_cells_loop (Z.to_nat (colIndex + 1)) l colIndex)
                     (m ++ ls)
       else ret tt) s1 ∧
    this s1 = this s ∧
    grids s1 = <[value n := m ++ ls]> (grids s) ∧
    length ls = Z.to_nat (rowIndex + 1 - Z.of_nat (length m)) ∧
    NoDup ls ∧
    (∀ l, l ∈ ls → cells s !! l = None) ∧
    (∀ l, cells s1 !! l = base s m ls l) ∧
    m ++ ls = l0 :: rest ∧
    cells s1 !! l0 = Some vs0 ∧
    Z.of_nat (length vs0) = width s m ∧
    rows_allocated s1 (m ++ ls).
Proof.
  intros Hn Hm Hall Hne Hrow Hw. unfold expandMatrixIfNeeded.
  rewrite (bind_inr _ _ _ _ _ (node_value_run _ _ _ Hn)).
  rewrite (bind_inr _ _ _ _ _ (grid_of_run _ _ _ Hm)).
  rewrite (bind_inr _ _ _ _ _ (cols_of_run _ _ Hall)).
  destruct (push_rows_loop_run (Z.to_nat (rowIndex + 1)) (value n) rowIndex
              (width s m) s m Hm (conj (width_nonneg s m) Hw) Hrow)
    as (ls & s1 & Hrun & Hg & Hlen & Ht & Hnd & Hfresh & Hc); [lia |].
  rewrite (bind_inr _ _ _ _ _ Hrun).
  assert (grids s1 !! value n = Some (m ++ ls)) as Hm1.
  { rewrite Hg. apply lookup_insert_eq. }
  rewrite (bind_inr _ _ _ _ _ (grid_of_run _ _ _ Hm1)).
  assert (∀ l, l ∈ m → l ∉ ls) as Hold.
  { intros l Hin Hin'. destruct (Hall l Hin) as [vs Hvs].
    rewrite (Hfresh l Hin') in Hvs. discriminate. }
  assert (∃ l0 rest vs, m ++ ls = l0 :: rest ∧ cells s1 !! l0 = Some vs ∧
                        Z.of_nat (length vs) = width s m)
    as (l0 & rest & vs0 & Heq & Hvs0 & Hw0).
  { destruct m as [| l0 m'].
    - destruct ls as [| l0 ls']; [simpl in Hlen; destruct Hne; [done | lia] |].
      exists l0, ls', (zeros 0). split_and!; [done | | done].
      rewrite Hc. by rewrite decide_True by left.
    - destruct (Hall l0) as [vs Hvs]; [by left |].
      exists l0, (m' ++ ls), vs. split_and!; [done | |].
      + rewrite Hc. rewrite decide_False; [done |]. apply Hold. by left.
      + simpl. by rewrite Hvs. }
  exists ls, s1, l0, rest, vs0.
  split_and!; try done.
  - rewrite Heq.
    rewrite (bind_inr _ _ _ _ (Z.of_nat (length vs0))
               (bind_inr _ _ _ _ _ (row_of_run _ _ _ Hvs0))).
    by rewrite <- Heq, Hw0.
  - intros l Hin. rewrite Hc. case_decide; [eauto |].
    apply elem_of_app in Hin as [Hin | Hin]; [by apply Hall | done].
Qed.

Lemma expandMatrixIfNeeded_run s i n m rowIndex colIndex :
  nodes (this s) !! i = Some n →
  grids s !! value n = Some m →
  rows_allocated s m →
  m ≠ [] ∨ 0 ≤ rowIndex →
  rowIndex < max_length → colIndex < max_length →
  width s m ≤ max_length →
  ∃ ls s', expandMatrixIfNeeded i rowIndex colIndex s = (s', inr tt) ∧
           this s' = this s ∧
           grids s' = <[value n := m ++ ls]> (grids s) ∧
           length ls = Z.to_nat (rowIndex + 1 - Z.of_nat (length m)) ∧
           NoDup ls ∧
           (∀ l, l ∈ ls → cells s !! l = None) ∧
           (∀ l, cells s' !! l = expanded s m ls colIndex l).
Proof.
  intros Hn Hm Hall Hne Hrow Hcol Hw.
  destruct (expandMatrixIfNeeded_rows s i n m rowIndex colIndex
              Hn Hm Hall Hne Hrow Hw)
    as (ls & s1 & l0 & rest & vs0 & -> & Ht & Hg & Hlen & Hnd & Hfresh & Hc
        & _ & _ & _ & Hall1).
  destruct (Z.leb_spec (width s m) colIndex) as [Hle | Hgt].
  - destruct (pad_rows_run colIndex (m ++ ls) s1 Hcol Hall1)
      as (s2 & Hrun2 & Ht2 & Hg2 & Hc2).
    exists ls, s2. split_and!; [done | congruence | congruence | done.. |].
    intros l. rewrite Hc2, Hc. unfold expanded.
    destruct (decide (l ∈ m ++ ls)).
    + by rewrite (decide_True (P := _ ∧ _)) by done.
    + rewrite (decide_False (P := _ ∧ _)); [done |]. by intros [_ ?].
  - exists ls, s1. split_and!; [done.. |].
    intros l. rewrite Hc. unfold expanded.
    rewrite (decide_False (P := _ ∧ _)); [done |]. intros [? _]. lia.
Qed.

(** At a row or a column that no array has, [expandMatrixIfNeeded]
    throws. *)
Lemma expandMatrixIfNeeded_overflow s i n m rowIndex colIndex :
  nodes (this s) !! i = Some n →
  grids s !! value n = Some m →
  rows_allocated s m →
  Z.of_nat (length m) ≤ max_length → width s m ≤ max_length →
  0 ≤ rowIndex → max_length ≤ rowIndex ∨ max_length ≤ colIndex →
  snd (expandMatrixIfNeeded i rowIndex colIndex s) = inl RangeError.
Proof.
  intros Hn Hm Hall Hlen Hw Hrow Hlimit.
  destruct (decide (rowIndex < max_length)) as [Hlt | Hge].
  - destruct Hlimit as [? | Hcol]; [lia |].
    destruct (expandMatrixIfNeeded_rows s i n m rowIndex colIndex
                Hn Hm Hall (or_intror Hrow) Hlt Hw)
      as (ls & s1 & l0 & rest & vs0 & -> & _ & _ & _ & _ & _ & _
          & -> & Hvs0 & Hw0 & _).
    destruct (Z.leb_spec (width s m) colIndex) as [_ | ?]; [| lia].
    simpl.
    rewrite (bind_inl _ _ _ _ _
               (push_cells_loop_overflow (Z.to_nat (colIndex + 1)) l0 colIndex
                  s1 vs0 Hvs0 ltac:(lia) ltac:(lia))).
    done.
  - unfold expandMatrixIfNeeded.
    rewrite (bind_inr _ _ _ _ _ (node_value_run _ _ _ Hn)).
    rewrite (bind_inr _ _ _ _ _ (grid_of_run _ _ _ Hm)).
    rewrite (bind_inr _ _ _ _ _ (cols_of_run _ _ Hall)).
    pose proof (push_rows_loop_overflow (Z.to_nat (rowIndex + 1)) (value n)
                  rowIndex (width s m) s m Hm ltac:(lia) ltac:(lia)) as Hrun.
    destruct (push_rows_loop _ _ _ _ s) as [s1 r] eqn:Hloop.
    simpl in Hrun. subst r.
    by rewrite (bind_inl _ _ _ _ _ Hloop).
Qed.

(** ** Closed forms of [createNodeIfNeeded] and [set] *)

Lemma createNodeIfNeeded_found s x y z rows cols i :
  findNode (this s) x y z = Some i →
  createNodeIfNeeded x y z rows cols s = (s, inr i).
Proof.
  intros H. unfold createNodeIfNeeded, bind, this_findNode. by rewrite H.
Qed.

(** [createNodeIfNeeded] at a free address: the matrix of the node is
    allocated, then the node is pushed. *)
Lemma createNodeIfNeeded_alloc s x y z rows cols :
  findNode (this s) x y z = None →
  rows ≤ max_length → rows ≤ 0 ∨ 0 ≤ cols ≤ max_length →
  ∃ ls o s1,
    createNodeIfNeeded x y z rows cols s
    = (i <- push_node (Node x y z o) ;;
       add_address (generateAddress x y z) ;;;
       ret i) s1 ∧
    this s1 = this s ∧
    grids s !! o = None ∧
    grids s1 = <[o := ls]> (grids s) ∧
    length ls = Z.to_nat rows ∧
    NoDup ls ∧
    (∀ l, l ∈ ls → cells s !! l = None) ∧
    (∀ l, cells s1 !! l = if decide (l ∈ ls) then Some (zeros cols)
                          else cells s !! l).
Proof.
  intros Hfind Hrows Hsize. unfold createNodeIfNeeded, bind at 1, this_findNode.
  rewrite Hfind.
  destruct (array_from_run rows cols s Hrows Hsize)
    as (ls & s1 & Hrun & Hg & Hlen & Ht & Hnd & Hfresh & Hc).
  rewrite (bind_inr _ _ _ _ _ Hrun).
  exists ls, (fresh (dom (grids s1))). eexists. split.
  { unfold bind at 1, new_grid. reflexivity. }
  simpl. rewrite Hg. split_and!; try done.
  apply fresh_grids_None.
Qed.

Lemma createNodeIfNeeded_run s x y z rows cols :
  findNode (this s) x y z = None →
  rows ≤ max_length → rows ≤ 0 ∨ 0 ≤ cols ≤ max_length →
  Z.of_nat (length (nodes (this s))) < max_length →
  ∃ ls o s',
    createNodeIfNeeded x y z rows cols s
      = (s', inr (length (nodes (this s)))) ∧
    nodes (this s') = nodes (this s) ++ [Node x y z o] ∧
    usedAddresses (this s')
      = {[generateAddress x y z]} ∪ usedAddresses (this s) ∧
    grids s !! o = None ∧
    grids s' = <[o := ls]> (grids s) ∧
    length ls = Z.to_nat rows ∧
    NoDup ls ∧
    (∀ l, l ∈ ls → cells s !! l = None) ∧
    (∀ l, cells s' !! l = if decide (l ∈ ls) then Some (zeros cols)
                          else cells s !! l).
Proof.
  intros Hfind Hrows Hsize Hroom.
  destruct (createNodeIfNeeded_alloc s x y z rows cols Hfind Hrows Hsize)
    as (ls & o & s1 & -> & Ht & Ho & Hg & Hlen & Hnd & Hfresh & Hc).
  exists ls, o. eexists. split.
  { unfold bind, push_node, add_address, ret. simpl. rewrite Ht.
    destruct (Z.ltb_spec (Z.of_nat (length (nodes (this s)))) max_length);
      [reflexivity | lia]. }
  simpl. split_and!; done.
Qed.

(** The three ways in which [createNodeIfNeeded] throws: the matrix is
    asked too large, or with rows of a length that is none, and then
    nothing has changed; or [this.nodes] is full, and then the matrix
    was allocated for nothing. *)
Lemma createNodeIfNeeded_RangeError s x y z rows cols :
  findNode (this s) x y z = None →
  max_length < rows ∨ 0 < rows ∧ (cols < 0 ∨ max_length < cols) →
  createNodeIfNeeded x y z rows cols s = (s, inl RangeError).
Proof.
  intros Hfind Hsize. unfold createNodeIfNeeded, bind at 1, this_findNode.
  rewrite Hfind. by apply bind_inl, array_from_RangeError.
Qed.

Lemma createNodeIfNeeded_full s x y z rows cols :
  findNode (this s) x y z = None →
  rows ≤ max_length → rows ≤ 0 ∨ 0 ≤ cols ≤ max_length →
  max_length ≤ Z.of_nat (length (nodes (this s))) →
  ∃ ls o s',
    createNodeIfNeeded x y z rows cols s = (s', inl RangeError) ∧
    this s' = this s ∧
    grids s !! o = None ∧
    grids s' = <[o := ls]> (grids s) ∧
    length ls = Z.to_nat rows ∧
    (∀ l, l ∈ ls → cells s !! l = None) ∧
    (∀ l, cells s' !! l = if decide (l ∈ ls) then Some (zeros cols)
                          else cells s !! l).
Proof.
  intros Hfind Hrows Hsize Hfull.
  destruct (createNodeIfNeeded_alloc s x y z rows cols Hfind Hrows Hsize)
    as (ls & o & s1 & -> & Ht & Ho & Hg & Hlen & Hnd & Hfresh & Hc).
  exists ls, o, s1. split; [| done].
  unfold bind, push_node. rewrite Ht.
  destruct (Z.ltb_spec (Z.of_nat (length (nodes (this s)))) max_length);
    [lia | done].
Qed.

Global Instance can_create_dec s rows cols : Decision (can_create s rows cols).
Proof. unfold can_create. apply _. Defined.

Lemma createNodeIfNeeded_throws s x y z rows cols :
  findNode (this s) x y z = None →
  ¬ can_create s rows cols →
  snd (createNodeIfNeeded x y z rows cols s) = inl RangeError ∧
  this (fst (createNodeIfNeeded x y z rows cols s)) = this s ∧
  (Z.of_nat (length (nodes (this s))) < max_length →
   fst (createNodeIfNeeded x y z rows cols s) = s).
Proof.
  intros Hfind Hnot.
  destruct (decide (rows ≤ max_length ∧ (rows ≤ 0 ∨ 0 ≤ cols ≤ max_length)))
    as [[Hrows Hsize] | Hsize].
  - destruct (createNodeIfNeeded_full s x y z rows cols Hfind Hrows Hsize)
      as (ls & o & s' & -> & Ht & _).
    { unfold can_create in Hnot. lia. }
    split_and!; [done | done |]. unfold can_create in Hnot. lia.
  - rewrite createNodeIfNeeded_RangeError; [done | done | lia].
Qed.

Lemma set_found s x y z rowIndex colIndex v i :
  findNode (this s) x y z = Some i →
  set x y z rowIndex colIndex v s = set_tail i rowIndex colIndex v s.
Proof. intros H. unfold set, bind at 1 2, this_findNode. by rewrite H. Qed.

Lemma set_created s s1 x y z rowIndex colIndex v i :
  findNode (this s) x y z = None →
  createNodeIfNeeded x y z (rowIndex + 1) (colIndex + 1) s = (s1, inr i) →
  set x y z rowIndex colIndex v s = set_tail i rowIndex colIndex v s1.
Proof.
  intros H Hc. unfold set, bind at 1 2, this_findNode. by rewrite H, Hc.
Qed.

Lemma index_lookup {A} (a : list A) i :
  0 ≤ i → index a i = a !! Z.to_nat i.
Proof. intros H. unfold index. destruct (Z.ltb_spec i 0); [lia | done]. Qed.

Lemma index_neg {A} (a : list A) i : i < 0 → index a i = None.
Proof. intros H. unfold index. destruct (Z.ltb_spec i 0); [done | lia]. Qed.

Lemma expanded_allocated s m ls colIndex l :
  rows_allocated s m → l ∈ m ++ ls → is_Some (expanded s m ls colIndex l).
Proof.
  intros Hall Hin. unfold expanded, base.
  set (base := if decide (l ∈ ls) then _ else _).
  assert (is_Some base) as [vs Hvs].
  { subst base. destruct (decide (l ∈ ls)); [eauto |].
    apply elem_of_app in Hin as [Hin | Hin]; [by apply Hall | done]. }
  rewrite Hvs. destruct (decide (_ ∧ _)); simpl; eauto.
Qed.

Lemma set_tail_run s i n m rowIndex colIndex v :
  nodes (this s) !! i = Some n →
  grids s !! value n = Some m →
  rows_allocated s m →
  0 ≤ rowIndex < max_length → colIndex < max_length →
  width s m ≤ max_length →
  ∃ ls lr s', set_tail i rowIndex colIndex v s = (s', inr tt) ∧
              this s' = this s ∧
              grids s' = <[value n := m ++ ls]> (grids s) ∧
              length ls = Z.to_nat (rowIndex + 1 - Z.of_nat (length m)) ∧
              NoDup ls ∧
              (∀ l, l ∈ ls → cells s !! l = None) ∧
              (m ++ ls) !! Z.to_nat rowIndex = Some lr ∧
              (∀ l, cells s' !! l = written s m ls lr colIndex v l).
Proof.
  intros Hn Hm Hall [Hrow Hrow'] Hcol' Hw. unfold set_tail.
  destruct (expandMatrixIfNeeded_run s i n m rowIndex colIndex Hn Hm Hall)
    as (ls & s1 & Hrun & Ht & Hg & Hlen & Hnd & Hfresh & Hc);
    [by right | done.. |].
  rewrite (bind_inr _ _ _ _ _ Hrun).
  assert (nodes (this s1) !! i = Some n) as Hn1 by (by rewrite Ht).
  rewrite (bind_inr _ _ _ _ _ (node_value_run _ _ _ Hn1)).
  assert (grids s1 !! value n = Some (m ++ ls)) as Hm1.
  { rewrite Hg. apply lookup_insert_eq. }
  rewrite (bind_inr _ _ _ _ _ (grid_of_run _ _ _ Hm1)).
  rewrite index_lookup by done.
  destruct (lookup_lt_is_Some_2 (m ++ ls) (Z.to_nat rowIndex)) as [lr Hlr].
  { rewrite length_app. lia. }
  rewrite Hlr.
  destruct (expanded_allocated s m ls colIndex lr Hall) as [vs Hvs].
  { by eapply list_elem_of_lookup_2. }
  assert (cells s1 !! lr = Some vs) as Hvs1 by (by rewrite Hc).
  unfold store_cell. rewrite (bind_inr _ _ _ _ _ (row_of_run _ _ _ Hvs1)).
  exists ls, lr. eexists. split; [reflexivity |]. simpl.
  split_and!; try done.
  intros l. unfold written. destruct (decide (l = lr)) as [-> | Hne].
  - by rewrite lookup_insert_eq, Hvs.
  - by rewrite lookup_insert_ne, Hc.
Qed.

Lemma set_tail_negative_row s i n m rowIndex colIndex v :
  nodes (this s) !! i = Some n →
  grids s !! value n = Some m →
  rows_allocated s m →
  rowIndex < 0 →
  m = [] ∨ colIndex < max_length ∧ width s m ≤ max_length →
  snd (set_tail i rowIndex colIndex v s) = inl TypeError.
Proof.
  intros Hn Hm Hall Hrow Hlimit. unfold set_tail.
  pose proof max_length_pos as Hmax.
  destruct (decide (m = [])) as [-> | Hne].
  - by rewrite (bind_inl _ _ _ _ _
                  (expandMatrixIfNeeded_TypeError s i n _ colIndex Hn Hm Hrow)).
  - destruct Hlimit as [? | [Hcol Hw]]; [done |].
    destruct (expandMatrixIfNeeded_run s i n m rowIndex colIndex Hn Hm Hall)
      as (ls & s1 & Hrun & Ht & Hg & Hlen & Hnd & Hfresh & Hc);
      [by left | lia | done.. |].
    rewrite (bind_inr _ _ _ _ _ Hrun).
    assert (nodes (this s1) !! i = Some n) as Hn1 by (by rewrite Ht).
    rewrite (bind_inr _ _ _ _ _ (node_value_run _ _ _ Hn1)).
    assert (grids s1 !! value n = Some (m ++ ls)) as Hm1.
    { rewrite Hg. apply lookup_insert_eq. }
    rewrite (bind_inr _ _ _ _ _ (grid_of_run _ _ _ Hm1)).
    by rewrite index_neg.
Qed.

Lemma set_tail_overflow s i n m rowIndex colIndex v :
  nodes (this s) !! i = Some n →
  grids s !! value n = Some m →
  rows_allocated s m →
  Z.of_nat (length m) ≤ max_length → width s m ≤ max_length →
  0 ≤ rowIndex → max_length ≤ rowIndex ∨ max_length ≤ colIndex →
  snd (set_tail i rowIndex colIndex v s) = inl RangeError.
Proof.
  intros Hn Hm Hall Hlen Hw Hrow Hlimit. unfold set_tail.
  pose proof (expandMatrixIfNeeded_overflow s i n m rowIndex colIndex
                Hn Hm Hall Hlen Hw Hrow Hlimit) as Hrun.
  destruct (expandMatrixIfNeeded _ _ _ s) as [s1 r] eqn:Hexp.
  simpl in Hrun. subst r. by rewrite (bind_inl _ _ _ _ _ Hexp).
Qed.

(** ** Matrices read off the heap *)

Lemma findNode_Some m x y z i :
  findNode m x y z = Some i →
  ∃ n, nodes m !! i = Some n ∧ xx n = x ∧ yy n = y ∧ zz n = z.
Proof.
  unfold findNode. intros ([j n] & Hfind & ->)%fmap_Some.
  apply list_find_Some in Hfind as (Hn & Hp & _). eauto.
Qed.

Lemma grid_at_Some s o g :
  grid_at s o = Some g ↔
  ∃ m, grids s !! o = Some m ∧ Forall2 (λ l r, cells s !! l = Some r) m g.
Proof.
  unfold grid_at. split.
  - intros (m & Hm & Hg)%bind_Some. exists m. split; [done |].
    by apply mapM_Some.
  - intros (m & Hm & Hg). apply bind_Some. exists m. split; [done |].
    by apply mapM_Some.
Qed.

Lemma node_grid_Some s x y z g :
  node_grid s x y z = Some g ↔
  ∃ i n m, findNode (this s) x y z = Some i ∧
           nodes (this s) !! i = Some n ∧
           grids s !! value n = Some m ∧
           Forall2 (λ l r, cells s !! l = Some r) m g.
Proof.
  unfold node_grid. split.
  - intros (i & Hi & (n & Hn & (m & Hm & Hg)%grid_at_Some)%bind_Some)%bind_Some.
    eauto 10.
  - intros (i & n & m & Hi & Hn & Hm & Hg).
    apply bind_Some. exists i. split; [done |].
    apply bind_Some. exists n. split; [done |].
    apply grid_at_Some. eauto.
Qed.

Lemma rows_allocated_Forall2 s m g :
  Forall2 (λ l r, cells s !! l = Some r) m g → rows_allocated s m.
Proof.
  intros HF l (k & Hk)%list_elem_of_lookup_1.
  destruct (Forall2_lookup_l _ _ _ _ _ HF Hk) as (r & _ & Hr). eauto.
Qed.

Lemma rows_allocated_grid s m :
  rows_allocated s m →
  ∃ g, Forall2 (λ l r, cells s !! l = Some r) m g.
Proof.
  intros Hall.
  destruct (mapM_is_Some_2 (λ l, cells s !! l) m) as [g Hg].
  - apply Forall_forall. intros l Hl. by apply Hall.
  - exists g. by apply mapM_Some.
Qed.

(** ** A program logic for what a method may change and throw *)

Section obeys.
Context (R : relation state) `{!PreOrder R} (E : exn → Prop).

Lemma obeys_ret {A} (Q : A → Prop) a : Q a → obeys R E Q (ret a).
Proof. intros H s. by split. Qed.

Lemma obeys_throw {A} (Q : A → Prop) e : E e → obeys R E Q (throw e).
Proof. intros H s. by split. Qed.

Lemma obeys_bind {A B} (P : A → Prop) (Q : B → Prop) m (f : A → M B) :
  obeys R E P m → (∀ a, P a → obeys R E Q (f a)) → obeys R E Q (bind m f).
Proof.
  intros Hm Hf s. unfold bind. specialize (Hm s).
  destruct (m s) as [s1 [e | a]]; simpl in *; [done |].
  destruct Hm as [HR HP]. specialize (Hf a HP s1).
  destruct Hf as [HR' HQ]. split; [by etrans | done].
Qed.

Lemma obeys_weaken {A} (P Q : A → Prop) m :
  obeys R E P m → (∀ a, P a → Q a) → obeys R E Q m.
Proof.
  intros Hm HPQ s. destruct (Hm s) as [HR HP]. split; [done |].
  destruct (snd (m s)); auto.
Qed.

Lemma obeys_for_each {A} (body : A → M unit) l :
  (∀ a, obeys R E (λ _, True) (body a)) →
  obeys R E (λ _, True) (for_each body l).
Proof.
  intros Hbody. induction l as [| a l IH]; simpl.
  - by apply obeys_ret.
  - eapply obeys_bind; [apply Hbody | done].
Qed.

Lemma this_findNode_obeys x y z :
  obeys R E (λ _, True) (this_findNode x y z).
Proof. by intros s. Qed.

Lemma this_nodes_obeys : obeys R E (λ _, True) this_nodes.
Proof. by intros s. Qed.
End obeys.

Global Instance same_this_preorder : PreOrder same_this.
Proof. split; [by intros s | intros s1 s2 s3 H1 H2; unfold same_this in *; congruence]. Qed.

Lemma grid_of_obeys R `{!Reflexive R} (E : exn → Prop) o :
  E TypeError → obeys R E (λ _, True) (grid_of o).
Proof. intros HE s. unfold grid_of. by destruct (grids s !! o). Qed.

Lemma row_of_obeys R `{!Reflexive R} (E : exn → Prop) l :
  E TypeError → obeys R E (λ _, True) (row_of l).
Proof. intros HE s. unfold row_of. by destruct (cells s !! l). Qed.

Lemma node_value_obeys R `{!Reflexive R} (E : exn → Prop) i :
  E TypeError → obeys R E (λ _, True) (node_value i).
Proof. intros HE s. unfold node_value. by destruct (nodes (this s) !! i). Qed.

(** One step of a proof of [obeys]: a sequence, or a leaf. *)
Ltac ob_leaf lem :=
  apply lem; try apply _; try done; try (by left); try (by right);
  simpl; try lia.
Ltac ob_bind := eapply obeys_bind; [apply _ | | intros ? ?].
Tactic Notation "ob_find" ident(r) :=
  eapply obeys_bind; [apply _ | ob_leaf this_findNode_obeys | intros r _].
Ltac ob_read :=
  first [ ob_leaf grid_of_obeys | ob_leaf row_of_obeys
        | ob_leaf node_value_obeys ].

Lemma cols_of_obeys R `{!PreOrder R} (E : exn → Prop) m :
  E TypeError → obeys R E (λ c, 0 ≤ c) (cols_of m).
Proof.
  intros HE. destruct m as [| l m]; simpl.
  - ob_leaf obeys_ret.
  - ob_bind; [ob_read |]. ob_leaf obeys_ret.
Qed.

Lemma put_row_on_arrays l vs : on_arrays (λ _, True) (put_row l vs).
Proof. by intros s. Qed.

Lemma put_grid_on_arrays o m : on_arrays (λ _, True) (put_grid o m).
Proof. by intros s. Qed.

Lemma store_cell_on_arrays l i v : on_arrays (λ _, True) (store_cell l i v).
Proof. ob_bind; [ob_read |]. apply put_row_on_arrays. Qed.

Lemma push_cell_on_arrays l v : on_arrays (λ _, True) (push_cell l v).
Proof.
  ob_bind; [ob_read |].
  destruct (_ <? _); [apply put_row_on_arrays | ob_leaf obeys_throw].
Qed.

Lemma push_row_on_arrays o l : on_arrays (λ _, True) (push_row o l).
Proof.
  ob_bind; [ob_read |].
  destruct (_ <? _); [apply put_grid_on_arrays | ob_leaf obeys_throw].
Qed.

Lemma array_fill0_on_arrays cols : on_arrays (λ _, True) (array_fill0 cols).
Proof.
  unfold array_fill0. destruct (_ || _); [ob_leaf obeys_throw |]. by intros s.
Qed.

Lemma push_rows_loop_on_arrays fuel o rowIndex cc :
  on_arrays (λ _, True) (push_rows_loop fuel o rowIndex cc).
Proof.
  induction fuel as [| fuel IH]; simpl.
  - ob_leaf obeys_ret.
  - ob_bind; [ob_read |].
    destruct (_ <=? _); [| ob_leaf obeys_ret].
    ob_bind; [apply array_fill0_on_arrays |].
    ob_bind; [apply push_row_on_arrays | apply IH].
Qed.

Lemma push_cells_loop_on_arrays fuel l colIndex :
  on_arrays (λ _, True) (push_cells_loop fuel l colIndex).
Proof.
  induction fuel as [| fuel IH]; simpl.
  - ob_leaf obeys_ret.
  - ob_bind; [ob_read |].
    destruct (_ <=? _); [| ob_leaf obeys_ret].
    ob_bind; [apply push_cell_on_arrays | apply IH].
Qed.

Lemma expandMatrixIfNeeded_on_arrays i rowIndex colIndex :
  on_arrays (λ _, True) (expandMatrixIfNeeded i rowIndex colIndex).
Proof.
  unfold expandMatrixIfNeeded.
  ob_bind; [ob_read |].
  ob_bind; [ob_read |].
  ob_bind; [ob_leaf cols_of_obeys |].
  ob_bind; [apply push_rows_loop_on_arrays |].
  ob_bind; [ob_read |].
  eapply obeys_bind with (P := λ _, True); [apply _ | | intros ? ?].
  - match goal with |- context [match ?m with [] => _ | _ :: _ => _ end] =>
      destruct m end; [ob_leaf obeys_throw |].
    ob_bind; [ob_read |]. ob_leaf obeys_ret.
  - destruct (_ <=? _); [| ob_leaf obeys_ret].
    apply obeys_for_each; [apply _ |]. intros l.
    apply push_cells_loop_on_arrays.
Qed.

Lemma set_tail_on_arrays i rowIndex colIndex v :
  on_arrays (λ _, True) (set_tail i rowIndex colIndex v).
Proof.
  unfold set_tail.
  ob_bind; [apply expandMatrixIfNeeded_on_arrays |].
  ob_bind; [ob_read |].
  ob_bind; [ob_read |].
  destruct (index _ rowIndex); [apply store_cell_on_arrays |].
  ob_leaf obeys_throw.
Qed.

Lemma update_on_arrays : on_arrays (λ _, True) update.
Proof.
  unfold update.
  ob_bind; [ob_leaf this_nodes_obeys |].
  apply obeys_for_each; [apply _ |]. intros n.
  ob_bind; [ob_read |].
  apply obeys_for_each; [apply _ |]. intros l.
  ob_bind; [ob_read |].
  apply obeys_for_each; [apply _ |]. intros c.
  apply store_cell_on_arrays.
Qed.

Lemma getAllData_reads x y z : reads (getAllData x y z).
Proof.
  unfold getAllData.
  ob_find r. destruct r as [i |]; [ob_read | ob_leaf obeys_throw].
Qed.

Lemma get_reads x y z rowIndex colIndex : reads (get x y z rowIndex colIndex).
Proof.
  unfold get.
  ob_find r. destruct r as [i |]; [| ob_leaf obeys_throw].
  ob_bind; [ob_read |].
  ob_bind; [ob_read |].
  destruct (_ && _); [| ob_leaf obeys_throw].
  destruct (index _ rowIndex); [| ob_leaf obeys_throw].
  ob_bind; [ob_read |].
  destruct (_ <? _); [ob_leaf obeys_ret | ob_leaf obeys_throw].
Qed.

Lemma getDimensions_reads x y z : reads (getDimensions x y z).
Proof.
  unfold getDimensions.
  ob_find r. destruct r as [i |]; [| ob_leaf obeys_ret].
  ob_bind; [ob_read |].
  ob_bind; [ob_read |].
  eapply obeys_bind with (P := λ _, True); [apply _ | | intros ? ?].
  - eapply obeys_weaken; [ob_leaf cols_of_obeys | done].
  - ob_leaf obeys_ret.
Qed.

(** ** Addresses: ["xx,yy,zz"] names one triple of coordinates *)

Lemma pretty_N_char_no_comma d : pretty_N_char d ≠ ","%char.
Proof. unfold pretty_N_char. by repeat case_match. Qed.

Lemma pretty_N_go_no_comma n a : no_comma a → no_comma (pretty_N_go n a).
Proof.
  revert a. induction (N.lt_wf_0 n) as [n _ IH]. intros a Ha.
  destruct (decide (n = 0)%N) as [-> | Hn]; [by rewrite pretty_N_go_0 |].
  rewrite pretty_N_go_step by lia. apply IH.
  - apply N.div_lt; lia.
  - split; [apply pretty_N_char_no_comma | done].
Qed.

Lemma pretty_Z_no_comma (x : Z) : no_comma (pretty x).
Proof.
  assert (∀ p : positive, no_comma (pretty p)) as Hpos.
  { intros p. unfold pretty, pretty_positive, pretty, pretty_N.
    case_decide; [done |]. by apply pretty_N_go_no_comma. }
  destruct x as [| p | p]; unfold pretty, pretty_Z; [done | apply Hpos |].
  split; [done | apply Hpos].
Qed.

Lemma split_at_comma a a' r r' :
  no_comma a → no_comma a' →
  a +:+ "," +:+ r = a' +:+ "," +:+ r' → a = a' ∧ r = r'.
Proof.
  revert a'. induction a as [| c a IH]; intros [| c' a'] Ha Ha' Heq;
    simpl in *.
  - by simplify_eq.
  - simplify_eq. by destruct Ha'.
  - simplify_eq. by destruct Ha.
  - injection Heq as -> Heq. destruct Ha as [_ Ha], Ha' as [_ Ha'].
    destruct (IH a' Ha Ha' Heq) as [-> ->]. done.
Qed.

Lemma generateAddress_inj x y z x' y' z' :
  generateAddress x y z = generateAddress x' y' z' →
  x = x' ∧ y = y' ∧ z = z'.
Proof.
  unfold generateAddress. intros Heq.
  apply split_at_comma in Heq as [Hx Heq]; [| apply pretty_Z_no_comma..].
  apply split_at_comma in Heq as [Hy Hz]; [| apply pretty_Z_no_comma..].
  split_and!; by apply (inj pretty).
Qed.

(** ** What a call does to [this] *)

Lemma reads_state {A} (m : M A) s : reads m → fst (m s) = s.
Proof. intros H. by destruct (H s) as [<- _]. Qed.

Lemma on_arrays_this {A} (Q : A → Prop) (m : M A) s :
  on_arrays Q m → this (fst (m s)) = this s.
Proof. intros H. by destruct (H s) as [? _]. Qed.

Lemma on_arrays_exn {A} (Q : A → Prop) (m : M A) s e :
  on_arrays Q m → snd (m s) = inl e → e = TypeError ∨ e = RangeError.
Proof. intros H He. destruct (H s) as [_ H']. by rewrite He in H'. Qed.

Lemma bind_ret_fst {A B} (m : M A) (f : A → B) s :
  fst ((x <- m ;; ret (f x)) s) = fst (m s).
Proof. unfold bind. by destruct (m s) as [s' [e | a]]. Qed.

Lemma bind_ret_inl {A B} (m : M A) (f : A → B) s e :
  snd ((x <- m ;; ret (f x)) s) = inl e → snd (m s) = inl e.
Proof. unfold bind. destruct (m s) as [s' [e' | a]]; simpl; congruence. Qed.

Lemma findNode_None m x y z :
  findNode m x y z = None ↔ (x, y, z) ∉ coords <$> nodes m.
Proof.
  unfold findNode. rewrite fmap_None, list_find_None, Forall_forall.
  rewrite list_elem_of_fmap. unfold coords. split.
  - intros H (n & Heq & Hin). apply (H n Hin). by simplify_eq.
  - intros H n Hin (<- & <- & <-). apply H. by exists n.
Qed.

Lemma findNode_app_None m x y z n i :
  findNode m x y z = None →
  coords n = (x, y, z) →
  i = length (nodes m) →
  findNode (mkMemory (nodes m ++ [n]) (usedAddresses m)) x y z = Some i.
Proof.
  unfold findNode, coords. intros Hnone%fmap_None Hn ->. simpl.
  rewrite list_find_app_r by done. simpl.
  rewrite decide_True by (by simplify_eq). done.
Qed.

Lemma findNode_coords m m' x y z :
  coords <$> nodes m = coords <$> nodes m' →
  findNode m x y z = findNode m' x y z.
Proof.
  intros Heq.
  assert (∀ m, findNode m x y z
               = fst <$> list_find (λ c, c = (x, y, z)) (coords <$> nodes m))
    as Hfind.
  { intros m0. unfold findNode. rewrite list_find_fmap.
    rewrite (list_find_ext ((λ c, c = (x, y, z)) ∘ coords)
               (λ n, xx n = x ∧ yy n = y ∧ zz n = z)).
    - by destruct (list_find _ (nodes m0)) as [[??] |].
    - intros n. unfold coords. simpl. split.
      + by intros [= <- <- <-].
      + by intros (<- & <- & <-). }
  by rewrite !Hfind, Heq.
Qed.

Lemma findNode_last m m' x y z n :
  findNode m x y z = None →
  nodes m' = nodes m ++ [n] →
  coords n = (x, y, z) →
  findNode m' x y z = Some (length (nodes m)).
Proof.
  intros Hnone Hnodes Hn.
  rewrite <- (findNode_app_None m x y z n _ Hnone Hn eq_refl).
  apply findNode_coords. simpl. by rewrite Hnodes.
Qed.

Lemma this_effect_same s s' P : this s' = this s → this_effect s s' P.
Proof. intros H. left. by rewrite H. Qed.

Lemma createNodeIfNeeded_effect s x y z rows cols :
  this_effect s (fst (createNodeIfNeeded x y z rows cols s))
              (λ x' y' z', x = x' ∧ y = y' ∧ z = z').
Proof.
  destruct (findNode (this s) x y z) as [i |] eqn:Hfind.
  - rewrite (createNodeIfNeeded_found _ _ _ _ _ _ _ Hfind). by left.
  - destruct (decide (can_create s rows cols)) as [(Hrows & Hsize & Hroom) | Hnot].
    + destruct (createNodeIfNeeded_run s x y z rows cols Hfind Hrows Hsize Hroom)
        as (ls & o & s' & -> & Hnodes & Hused & _).
      right. exists x, y, z. simpl. rewrite Hnodes, fmap_app. done.
    + destruct (createNodeIfNeeded_throws s x y z rows cols Hfind Hnot)
        as (_ & Ht & _).
      by apply this_effect_same.
Qed.

Lemma set_effect s x y z rowIndex colIndex v :
  this_effect s (fst (set x y z rowIndex colIndex v s))
              (λ x' y' z', x = x' ∧ y = y' ∧ z = z').
Proof.
  destruct (findNode (this s) x y z) as [i |] eqn:Hfind.
  - rewrite (set_found _ _ _ _ _ _ _ _ Hfind).
    apply this_effect_same.
    apply (on_arrays_this _ _ _ (set_tail_on_arrays _ _ _ _)).
  - pose proof (createNodeIfNeeded_effect s x y z (rowIndex + 1) (colIndex + 1))
      as Heff.
    destruct (createNodeIfNeeded x y z (rowIndex + 1) (colIndex + 1) s)
      as [s1 [e | i]] eqn:Hcreate.
    + unfold set, bind at 1 2, this_findNode. by rewrite Hfind, Hcreate.
    + rewrite (set_created _ _ _ _ _ _ _ _ _ Hfind Hcreate).
      pose proof (on_arrays_this _ _ s1
                    (set_tail_on_arrays i rowIndex colIndex v)) as Hthis.
      simpl in Heff. unfold this_effect in *. by rewrite Hthis.
Qed.

Lemma set_node_value_coords s i o :
  coords <$> nodes (this (fst (set_node_value i o s)))
  = coords <$> nodes (this s).
Proof.
  simpl. apply list_eq. intros k. rewrite !list_lookup_fmap.
  destruct (decide (k = i)) as [-> | Hne].
  - rewrite list_lookup_alter_eq. by destruct (nodes (this s) !! i).
  - by rewrite list_lookup_alter_ne.
Qed.

Lemma setMatrix_effect s x y z matrix :
  this_effect s (fst (setMatrix x y z matrix s))
              (λ x' y' z', x = x' ∧ y = y' ∧ z = z').
Proof.
  unfold setMatrix, bind at 1, grid_of.
  destruct (grids s !! matrix) as [m |]; [| by left].
  unfold bind at 1.
  pose proof (cols_of_obeys eq (λ _, True) m I s) as [Hs Hcols].
  destruct (cols_of m s) as [s0 [e | cols]]; simpl in Hs, Hcols; subst s0;
    [by left |].
  pose proof (createNodeIfNeeded_effect s x y z (Z.of_nat (length m)) cols)
    as Heff.
  unfold bind.
  destruct (createNodeIfNeeded x y z (Z.of_nat (length m)) cols s)
    as [s1 [e | i]]; [done |].
  simpl in Heff. unfold this_effect in *.
  rewrite set_node_value_coords. done.
Qed.

Lemma call_effect c s :
  this_effect s (fst (call c s)) (targets c).
Proof.
  destruct c as [x y z rows cols | x y z | x y z r c | x y z M
                | x y z r c v | x y z |]; unfold call;
    rewrite bind_ret_fst.
  - apply createNodeIfNeeded_effect.
  - left. by rewrite (reads_state _ _ (getAllData_reads x y z)).
  - left. by rewrite (reads_state _ _ (get_reads x y z r c)).
  - apply setMatrix_effect.
  - apply set_effect.
  - left. by rewrite (reads_state _ _ (getDimensions_reads x y z)).
  - apply this_effect_same, (on_arrays_this _ _ _ update_on_arrays).
Qed.



(** ** What a call may throw, and the state it throws in *)

(** [set] at a free address, when the node can be created: the work
    goes on on the new node, [rowIndex + 1] new rows of [colIndex + 1]
    zeros. *)
Lemma set_created_run s x y z rowIndex colIndex v :
  findNode (this s) x y z = None →
  can_create s (rowIndex + 1) (colIndex + 1) →
  ∃ s0 i n m,
    set x y z rowIndex colIndex v s = set_tail i rowIndex colIndex v s0 ∧
    holds s0 x y z i n m ∧
    nodes (this s0) = nodes (this s) ++ [n] ∧
    usedAddresses (this s0)
      = {[generateAddress x y z]} ∪ usedAddresses (this s) ∧
    length m = Z.to_nat (rowIndex + 1) ∧ NoDup m ∧
    (∀ l, l ∈ m → cells s0 !! l = Some (zeros (colIndex + 1))) ∧
    (m = [] ∨ width s0 m = colIndex + 1).
Proof.
  intros Hfind (Hrows & Hsize & Hroom).
  destruct (createNodeIfNeeded_run s x y z (rowIndex + 1) (colIndex + 1)
              Hfind Hrows Hsize Hroom)
    as (ls & o & s0 & Hrun & Hnodes & Hused & Ho & Hgr & Hlen & Hnd & Hfresh & Hc).
  exists s0, (length (nodes (this s))), (Node x y z o), ls.
  assert (∀ l, l ∈ ls → cells s0 !! l = Some (zeros (colIndex + 1))) as Hz.
  { intros l Hin. by rewrite Hc, decide_True. }
  unfold holds. split_and!; try done.
  - by apply set_created.
  - by apply (findNode_last (this s) _ _ _ _ (Node x y z o)).
  - by rewrite Hnodes, lookup_app_r, Nat.sub_diag by lia.
  - simpl. rewrite Hgr. apply lookup_insert_eq.
  - intros l Hin. rewrite (Hz l Hin). eauto.
  - destruct ls as [| l0 ls']; [by left | right].
    simpl in Hlen. simpl. rewrite (Hz l0) by left. simpl.
    apply zeros_length. lia.
Qed.

Lemma createNodeIfNeeded_exn s x y z rows cols e :
  snd (createNodeIfNeeded x y z rows cols s) = inl e →
  e = RangeError ∧ findNode (this s) x y z = None ∧
  (Z.of_nat (length (nodes (this s))) < max_length →
   fst (createNodeIfNeeded x y z rows cols s) = s).
Proof.
  destruct (findNode (this s) x y z) as [i |] eqn:Hfind.
  - by rewrite (createNodeIfNeeded_found _ _ _ _ _ _ _ Hfind).
  - destruct (decide (can_create s rows cols)) as [(Hrows & Hsize & Hroom) | Hnot].
    + by destruct (createNodeIfNeeded_run s x y z rows cols Hfind Hrows Hsize
                     Hroom) as (ls & o & s' & -> & _).
    + destruct (createNodeIfNeeded_throws s x y z rows cols Hfind Hnot)
        as (He & _ & Hsame).
      rewrite He. by intros [= <-].
Qed.

Lemma setMatrix_exn s x y z matrix e :
  snd (setMatrix x y z matrix s) = inl e →
  e = TypeError ∨
  e = RangeError ∧ findNode (this s) x y z = None ∧
  (Z.of_nat (length (nodes (this s))) < max_length →
   fst (setMatrix x y z matrix s) = s).
Proof.
  destruct (grids s !! matrix) as [m |] eqn:Hm.
  2: { unfold setMatrix, bind, grid_of. rewrite Hm. simpl.
       intros [= <-]. by left. }
  assert (setMatrix x y z matrix s
          = (cols <- cols_of m ;;
             i <- createNodeIfNeeded x y z (Z.of_nat (length m)) cols ;;
             set_node_value i matrix) s) as ->.
  { unfold setMatrix. by rewrite (bind_inr _ _ _ _ _ (grid_of_run _ _ _ Hm)). }
  pose proof (cols_of_obeys eq (λ e, e = TypeError) m eq_refl s) as [Hs Hcols].
  destruct (cols_of m s) as [s0 [e' | cols]] eqn:Hc; simpl in Hs, Hcols;
    subst s0.
  { rewrite (bind_inl _ _ _ _ _ Hc). simpl. intros [= <-]. by left. }
  rewrite (bind_inr _ _ _ _ _ Hc).
  pose proof (createNodeIfNeeded_exn s x y z (Z.of_nat (length m)) cols) as Hexn.
  destruct (createNodeIfNeeded x y z (Z.of_nat (length m)) cols s)
    as [s1 [e' | i]] eqn:Hcreate; simpl in Hexn.
  - rewrite (bind_inl _ _ _ _ _ Hcreate). simpl. intros [= <-].
    right. by apply Hexn.
  - by rewrite (bind_inr _ _ _ _ _ Hcreate).
Qed.

Lemma set_exn s x y z rowIndex colIndex v e :
  snd (set x y z rowIndex colIndex v s) = inl e →
  e = TypeError ∨
  e = RangeError ∧
  (findNode (this s) x y z = None →
   Z.of_nat (length (nodes (this s))) < max_length →
   fst (set x y z rowIndex colIndex v s) = s).
Proof.
  destruct (findNode (this s) x y z) as [i |] eqn:Hfind.
  - rewrite (set_found _ _ _ _ _ _ _ _ Hfind). intros He.
    destruct (on_arrays_exn _ _ _ _ (set_tail_on_arrays _ _ _ _) He)
      as [-> | ->]; [by left | by right].
  - destruct (decide (can_create s (rowIndex + 1) (colIndex + 1)))
      as [Hcan | Hnot].
    + destruct (set_created_run s x y z rowIndex colIndex v Hfind Hcan)
        as (s0 & i & n & m & -> & (_ & Hn & Hm & Hall) & _ & _ & Hlen & _ & _ & Hw).
      destruct Hcan as (Hrows & Hsize & _).
      destruct (decide (0 ≤ rowIndex)) as [Hrow | Hrow].
      * assert (width s0 m = colIndex + 1) as Hw'.
        { destruct Hw as [-> | ?]; [simpl in Hlen; lia | done]. }
        by destruct (set_tail_run s0 i n m rowIndex colIndex v Hn Hm Hall)
          as (ls & lr & s' & -> & _); [lia.. |].
      * assert (m = []) as -> by (apply nil_length_inv; lia).
        rewrite (set_tail_negative_row s0 i n [] rowIndex colIndex v Hn Hm Hall)
          by (lia || by left).
        intros [= <-]. by left.
    + destruct (createNodeIfNeeded_throws s x y z (rowIndex + 1) (colIndex + 1)
                  Hfind Hnot) as (He & _ & Hsame).
      destruct (createNodeIfNeeded x y z (rowIndex + 1) (colIndex + 1) s)
        as [s1 r] eqn:Hcreate; simpl in He, Hsame. subst r.
      assert (set x y z rowIndex colIndex v s = (s1, inl RangeError)) as ->.
      { unfold set, bind at 1 2, this_findNode. by rewrite Hfind, Hcreate. }
      simpl. intros [= <-]. right. by split.
Qed.

(** ** Reading a node's matrix *)

Lemma cell_Some g rowIndex colIndex v :
  cell g rowIndex colIndex = Some v ↔
  0 ≤ rowIndex ∧ 0 ≤ colIndex ∧
  ∃ r, g !! Z.to_nat rowIndex = Some r ∧ r !! Z.to_nat colIndex = Some v.
Proof.
  unfold cell, index. split.
  - intros (r & Hr & Hv)%bind_Some.
    destruct (Z.ltb_spec rowIndex 0); [done |].
    destruct (Z.ltb_spec colIndex 0); [done |]. eauto.
  - intros (Hrow & Hcol & r & Hr & Hv). apply bind_Some. exists r.
    destruct (Z.ltb_spec rowIndex 0); [lia |].
    destruct (Z.ltb_spec colIndex 0); [lia |]. done.
Qed.

Lemma get_run s x y z rowIndex colIndex i n m g :
  findNode (this s) x y z = Some i →
  nodes (this s) !! i = Some n →
  grids s !! value n = Some m →
  Forall2 (λ l r, cells s !! l = Some r) m g →
  get x y z rowIndex colIndex s =
    (s, match cell g rowIndex colIndex with
        | Some v => inr v
        | None => inl (Error "Index out of bounds")
        end).
Proof.
  intros Hfind Hn Hm Hg. unfold get, bind at 1, this_findNode. rewrite Hfind.
  rewrite (bind_inr _ _ _ _ _ (node_value_run _ _ _ Hn)).
  rewrite (bind_inr _ _ _ _ _ (grid_of_run _ _ _ Hm)).
  rewrite (Forall2_length _ _ _ Hg).
  unfold cell.
  destruct (Z.leb_spec 0 rowIndex) as [Hr0 | Hr0]; simpl;
    [| by rewrite index_neg].
  rewrite !(index_lookup _ rowIndex) by done.
  destruct (Z.ltb_spec rowIndex (Z.of_nat (length g))) as [Hr1 | Hr1]; simpl.
  2: { rewrite (lookup_ge_None_2 g) by lia. done. }
  destruct (lookup_lt_is_Some_2 g (Z.to_nat rowIndex)) as [r Hr]; [lia |].
  destruct (Forall2_lookup_r _ _ _ _ _ Hg Hr) as (l & Hl & Hlr).
  rewrite Hr. simpl.
  destruct (Z.leb_spec 0 colIndex) as [Hc0 | Hc0]; simpl;
    [| by rewrite index_neg].
  rewrite Hl. rewrite (bind_inr _ _ _ _ _ (row_of_run _ _ _ Hlr)).
  rewrite index_lookup by done.
  destruct (Z.ltb_spec colIndex (Z.of_nat (length r))) as [Hc1 | Hc1].
  - destruct (lookup_lt_is_Some_2 r (Z.to_nat colIndex)) as [v Hv]; [lia |].
    by rewrite Hv.
  - rewrite (lookup_ge_None_2 r) by lia. done.
Qed.

Lemma width_grid s m g :
  Forall2 (λ l r, cells s !! l = Some r) m g → width s m = first_row_length g.
Proof. intros [| l r m' g' Hl _]; simpl; [done | by rewrite Hl]. Qed.

Lemma getDimensions_run s x y z i n m g :
  findNode (this s) x y z = Some i →
  nodes (this s) !! i = Some n →
  grids s !! value n = Some m →
  Forall2 (λ l r, cells s !! l = Some r) m g →
  getDimensions x y z s = (s, inr (Z.of_nat (length g), first_row_length g)).
Proof.
  intros Hfind Hn Hm Hg. unfold getDimensions, bind at 1, this_findNode.
  rewrite Hfind.
  rewrite (bind_inr _ _ _ _ _ (node_value_run _ _ _ Hn)).
  rewrite (bind_inr _ _ _ _ _ (grid_of_run _ _ _ Hm)).
  rewrite (bind_inr _ _ _ _ _
             (cols_of_run _ _ (rows_allocated_Forall2 _ _ _ Hg))).
  unfold ret. by rewrite (Forall2_length _ _ _ Hg), (width_grid _ _ _ Hg).
Qed.

Lemma rectangular_row_length g r k :
  rectangular g → g !! k = Some r → Z.of_nat (length r) = first_row_length g.
Proof.
  intros Hrect Hr. destruct g as [| r0 g]; [done |]. simpl. f_equal.
  apply Hrect; [by eapply list_elem_of_lookup_2 | by left].
Qed.

Lemma cell_in_bounds g rowIndex colIndex :
  rectangular g →
  is_Some (cell g rowIndex colIndex) ↔
  0 ≤ rowIndex < Z.of_nat (length g) ∧ 0 ≤ colIndex < first_row_length g.
Proof.
  intros Hrect. split.
  - intros [v (Hrow & Hcol & r & Hr & Hv)%cell_Some].
    pose proof (lookup_lt_Some _ _ _ Hr). pose proof (lookup_lt_Some _ _ _ Hv).
    rewrite <- (rectangular_row_length g r _ Hrect Hr). lia.
  - intros [[Hr0 Hr1] [Hc0 Hc1]].
    destruct (lookup_lt_is_Some_2 g (Z.to_nat rowIndex)) as [r Hr]; [lia |].
    rewrite <- (rectangular_row_length g r _ Hrect Hr) in Hc1.
    destruct (lookup_lt_is_Some_2 r (Z.to_nat colIndex)) as [v Hv]; [lia |].
    exists v. apply cell_Some. eauto.
Qed.

(** ** [setMatrix] *)

(** A matrix stays what it is while its arrays are not written. *)
Lemma grid_at_frame s s' o g :
  grids s' !! o = grids s !! o →
  (∀ l, is_Some (cells s !! l) → cells s' !! l = cells s !! l) →
  grid_at s o = Some g → grid_at s' o = Some g.
Proof.
  intros Ho Hcells (m & Hm & Hg)%grid_at_Some. apply grid_at_Some.
  exists m. split; [congruence |].
  eapply Forall2_impl; [done |]. intros l r Hl. simpl in *.
  rewrite Hcells; [done | eauto].
Qed.

Lemma setMatrix_run s x y z matrix m :
  grids s !! matrix = Some m →
  rows_allocated s m →
  is_Some (findNode (this s) x y z) ∨
  can_create s (Z.of_nat (length m)) (width s m) →
  ∃ s' i n, setMatrix x y z matrix s = (s', inr tt) ∧
            findNode (this s') x y z = Some i ∧
            nodes (this s') !! i = Some n ∧ value n = matrix ∧
            grids s' !! matrix = Some m ∧
            (∀ l, is_Some (cells s !! l) → cells s' !! l = cells s !! l).
Proof.
  intros Hm Hall Hcan. unfold setMatrix.
  rewrite (bind_inr _ _ _ _ _ (grid_of_run _ _ _ Hm)).
  rewrite (bind_inr _ _ _ _ _ (cols_of_run _ _ Hall)).
  destruct (findNode (this s) x y z) as [i |] eqn:Hfind.
  - rewrite (bind_inr _ _ _ _ _ (createNodeIfNeeded_found _ _ _ _ _ _ _ Hfind)).
    destruct (findNode_Some _ _ _ _ _ Hfind) as (n & Hn & Hx & Hy & Hz).
    eexists _, i, (Node (xx n) (yy n) (zz n) matrix).
    split; [reflexivity |]. simpl. split_and!; try done.
    + rewrite <- Hfind. apply findNode_coords. simpl.
      apply (set_node_value_coords s i matrix).
    + by rewrite list_lookup_alter_eq, Hn.
  - destruct Hcan as [[? ?] | (Hrows & Hsize & Hroom)]; [done |].
    destruct (createNodeIfNeeded_run s x y z (Z.of_nat (length m)) (width s m)
                Hfind Hrows Hsize Hroom)
      as (ls & o & s1 & Hrun & Hnodes & Hused & Ho & Hg & Hlen & Hnd & Hfresh & Hc).
    rewrite (bind_inr _ _ _ _ _ Hrun).
    assert (alter (λ n, Node (xx n) (yy n) (zz n) matrix)
                  (length (nodes (this s))) (nodes (this s) ++ [Node x y z o])
            = nodes (this s) ++ [Node x y z matrix]) as Halter.
    { rewrite <- (Nat.add_0_r (length (nodes (this s)))) at 1.
      by rewrite alter_app_r. }
    eexists _, (length (nodes (this s))), (Node x y z matrix).
    split; [reflexivity |]. simpl. rewrite Hnodes, Halter.
    split_and!; try done.
    + by apply (findNode_app_None (this s)).
    + by rewrite lookup_app_r, Nat.sub_diag by lia.
    + rewrite Hg, lookup_insert_ne; [done |]. intros ->. congruence.
    + intros l [vs Hvs]. rewrite Hc, decide_False; [done |].
      intros Hin. rewrite (Hfresh l Hin) in Hvs. discriminate.
Qed.

(** [setMatrix] returns only when it finds the node or can create it. *)
Lemma setMatrix_returns s x y z matrix m s' :
  grids s !! matrix = Some m →
  rows_allocated s m →
  setMatrix x y z matrix s = (s', inr tt) →
  is_Some (findNode (this s) x y z) ∨
  can_create s (Z.of_nat (length m)) (width s m).
Proof.
  intros Hm Hall Hrun.
  destruct (findNode (this s) x y z) as [i |] eqn:Hfind; [left; eauto |].
  destruct (decide (can_create s (Z.of_nat (length m)) (width s m)))
    as [? | Hnot]; [by right |].
  destruct (createNodeIfNeeded_throws s x y z _ _ Hfind Hnot) as (He & _).
  destruct (createNodeIfNeeded x y z (Z.of_nat (length m)) (width s m) s)
    as [s1 r] eqn:Hcreate. simpl in He. subst r.
  unfold setMatrix in Hrun.
  rewrite (bind_inr _ _ _ _ _ (grid_of_run _ _ _ Hm)) in Hrun.
  rewrite (bind_inr _ _ _ _ _ (cols_of_run _ _ Hall)) in Hrun.
  by rewrite (bind_inl _ _ _ _ _ Hcreate) in Hrun.
Qed.

Lemma getAllData_run s x y z i n :
  findNode (this s) x y z = Some i →
  nodes (this s) !! i = Some n →
  getAllData x y z s = (s, inr (value n)).
Proof.
  intros Hfind Hn. unfold getAllData, bind, this_findNode. rewrite Hfind.
  by apply node_value_run.
Qed.

(** ** Facts on [array_set] *)

Lemma array_set_neg a i v : i < 0 → array_set a i v = a.
Proof. intros H. unfold array_set. destruct (Z.ltb_spec i 0); [done | lia]. Qed.

Lemma array_set_length a i v :
  0 ≤ i < max_length →
  Z.of_nat (length (array_set a i v)) = Z.max (Z.of_nat (length a)) (i + 1).
Proof.
  intros H. unfold array_set. destruct (Z.ltb_spec i 0); [lia |].
  destruct (Z.ltb_spec i (Z.of_nat (length a))).
  - rewrite length_insert. lia.
  - destruct (Z.ltb_spec i max_length); [| lia].
    rewrite !length_app, length_replicate. simpl. lia.
Qed.

(** An assignment never makes an array longer than an array can be. *)
Lemma array_set_limit a i v :
  Z.of_nat (length a) ≤ max_length →
  Z.of_nat (length (array_set a i v)) ≤ max_length.
Proof.
  intros H. unfold array_set. destruct (Z.ltb_spec i 0); [done |].
  destruct (Z.ltb_spec i (Z.of_nat (length a))).
  - by rewrite length_insert.
  - destruct (Z.ltb_spec i max_length); [| done].
    rewrite !length_app, length_replicate. simpl. lia.
Qed.

Lemma array_set_lookup_eq a i v :
  0 ≤ i < max_length → array_set a i v !! Z.to_nat i = Some v.
Proof.
  intros H. unfold array_set. destruct (Z.ltb_spec i 0); [lia |].
  destruct (Z.ltb_spec i (Z.of_nat (length a))).
  - apply list_lookup_insert_eq. lia.
  - destruct (Z.ltb_spec i max_length); [| lia].
    rewrite lookup_app_r by lia.
    rewrite lookup_app_r by (rewrite length_replicate; lia).
    rewrite length_replicate.
    by replace (_ - _ - _)%nat with 0%nat by lia.
Qed.

Lemma array_set_lookup_ne a i v k x :
  a !! k = Some x → i < 0 ∨ k ≠ Z.to_nat i → array_set a i v !! k = Some x.
Proof.
  intros Hk Hne. unfold array_set. destruct (Z.ltb_spec i 0); [done |].
  destruct Hne as [? | Hne]; [lia |].
  destruct (Z.ltb_spec i (Z.of_nat (length a))).
  - by rewrite list_lookup_insert_ne.
  - destruct (Z.ltb_spec i max_length); [| done].
    by apply lookup_app_l_Some.
Qed.

Lemma array_set_id a i v :
  0 ≤ i → a !! Z.to_nat i = Some v → array_set a i v = a.
Proof.
  intros H Hv. unfold array_set. destruct (Z.ltb_spec i 0); [lia |].
  pose proof (lookup_lt_Some _ _ _ Hv).
  destruct (Z.ltb_spec i (Z.of_nat (length a))); [| lia].
  by apply list_insert_id.
Qed.

(** ** The node a [set] works on *)

Lemma node_grid_holds s x y z g :
  node_grid s x y z = Some g →
  ∃ i n m, holds s x y z i n m ∧
           Forall2 (λ l r, cells s !! l = Some r) m g.
Proof.
  intros (i & n & m & Hi & Hn & Hm & Hg)%node_grid_Some.
  exists i, n, m. split; [| done]. split_and!; try done.
  by eapply rows_allocated_Forall2.
Qed.

Lemma holds_node_grid s x y z i n m :
  holds s x y z i n m →
  ∃ g, node_grid s x y z = Some g ∧
       Forall2 (λ l r, cells s !! l = Some r) m g.
Proof.
  intros (Hi & Hn & Hm & Hall).
  destruct (rows_allocated_grid s m Hall) as [g Hg].
  exists g. split; [| done]. apply node_grid_Some. eauto 10.
Qed.

Lemma fits_width s m g :
  Forall2 (λ l r, cells s !! l = Some r) m g → fits g →
  Z.of_nat (length m) ≤ max_length ∧ width s m ≤ max_length.
Proof.
  intros HF [Hlen Hrows]. split; [by rewrite (Forall2_length _ _ _ HF) |].
  rewrite (width_grid _ _ _ HF). pose proof max_length_pos.
  destruct Hrows; simpl; [lia | done].
Qed.

Lemma can_create_set s x y z rowIndex colIndex :
  has_room s x y z →
  rowIndex < max_length →
  rowIndex < 0 ∨ -1 ≤ colIndex < max_length →
  findNode (this s) x y z = None →
  can_create s (rowIndex + 1) (colIndex + 1).
Proof.
  intros [[i Hi] | Hroom] Hrow Hcol Hfind; [congruence |].
  unfold can_create. lia.
Qed.

(** Where [set] starts its work: on the node it found, or on the node
    it has just created, [rowIndex + 1] new rows of [colIndex + 1]
    zeros. *)
Lemma set_entry s x y z rowIndex colIndex v :
  node_ok s x y z →
  (findNode (this s) x y z = None →
   can_create s (rowIndex + 1) (colIndex + 1)) →
  ∃ s0 i n m,
    set x y z rowIndex colIndex v s = set_tail i rowIndex colIndex v s0 ∧
    holds s0 x y z i n m ∧
    Z.of_nat (length m) ≤ max_length ∧
    width s0 m ≤ max_length ∧
    (s0 = s ∨
     findNode (this s) x y z = None ∧
     nodes (this s0) = nodes (this s) ++ [n] ∧
     usedAddresses (this s0)
       = {[generateAddress x y z]} ∪ usedAddresses (this s) ∧
     length m = Z.to_nat (rowIndex + 1) ∧ NoDup m ∧
     (∀ l, l ∈ m → cells s0 !! l = Some (zeros (colIndex + 1)))).
Proof.
  intros [Hfind | (g & Hg & Hfits)] Hcan.
  - specialize (Hcan Hfind).
    destruct (set_created_run s x y z rowIndex colIndex v Hfind Hcan)
      as (s0 & i & n & m & Hset & Hholds & Hnodes & Hused & Hlen & Hnd & Hz & Hw).
    exists s0, i, n, m. destruct Hcan as (Hrows & Hsize & _).
    pose proof max_length_pos.
    split_and!; [done | done | lia | | right; done].
    destruct Hw as [-> | Hw]; [simpl; lia |].
    destruct m; [simpl; lia |]. simpl in Hlen. lia.
  - destruct (node_grid_holds _ _ _ _ _ Hg) as (i & n & m & Hholds & HF).
    destruct (fits_width s m g HF Hfits) as [Hlen Hw].
    exists s, i, n, m. split_and!; [| done | done | done | by left].
    apply set_found. by destruct Hholds.
Qed.

Lemma push_rows_loop_noop fuel o rowIndex cc s m :
  grids s !! o = Some m → rowIndex < Z.of_nat (length m) →
  push_rows_loop fuel o rowIndex cc s = (s, inr tt).
Proof.
  intros Hm Hlt. destruct fuel as [| fuel]; [done |]. simpl.
  rewrite (bind_inr _ _ _ _ _ (grid_of_run _ _ _ Hm)).
  destruct (Z.leb_spec (Z.of_nat (length m)) rowIndex); [lia | done].
Qed.

(** Within the dimensions of the matrix nothing is pushed, whatever the
    lengths of its arrays. *)
Lemma expandMatrixIfNeeded_noop s i n m rowIndex colIndex :
  nodes (this s) !! i = Some n →
  grids s !! value n = Some m →
  rows_allocated s m →
  rowIndex < Z.of_nat (length m) → colIndex < width s m →
  m ≠ [] →
  expandMatrixIfNeeded i rowIndex colIndex s = (s, inr tt).
Proof.
  intros Hn Hm Hall Hrow Hcol Hne. unfold expandMatrixIfNeeded.
  rewrite (bind_inr _ _ _ _ _ (node_value_run _ _ _ Hn)).
  rewrite (bind_inr _ _ _ _ _ (grid_of_run _ _ _ Hm)).
  rewrite (bind_inr _ _ _ _ _ (cols_of_run _ _ Hall)).
  rewrite (bind_inr _ _ _ _ _
             (push_rows_loop_noop _ (value n) rowIndex _ s m Hm Hrow)).
  rewrite (bind_inr _ _ _ _ _ (grid_of_run _ _ _ Hm)).
  destruct m as [| l0 m']; [done |].
  destruct (Hall l0) as [vs0 Hvs0]; [by left |].
  rewrite (bind_inr _ _ _ _ (Z.of_nat (length vs0))
             (bind_inr _ _ _ _ _ (row_of_run _ _ _ Hvs0))).
  simpl in Hcol. rewrite Hvs0 in Hcol. simpl in Hcol.
  destruct (Z.leb_spec (Z.of_nat (length vs0)) colIndex); [lia | done].
Qed.

Lemma set_tail_noop s i n m lr vs rowIndex colIndex v :
  nodes (this s) !! i = Some n →
  grids s !! value n = Some m →
  rows_allocated s m →
  0 ≤ rowIndex → 0 ≤ colIndex →
  m !! Z.to_nat rowIndex = Some lr →
  cells s !! lr = Some vs →
  vs !! Z.to_nat colIndex = Some v →
  colIndex < width s m →
  set_tail i rowIndex colIndex v s = (s, inr tt).
Proof.
  intros Hn Hm Hall Hrow Hcol Hlr Hvs Hv Hw.
  pose proof (lookup_lt_Some _ _ _ Hlr) as Hlt.
  unfold set_tail.
  rewrite (bind_inr _ _ _ _ _
             (expandMatrixIfNeeded_noop s i n m rowIndex colIndex Hn Hm Hall
                ltac:(lia) Hw ltac:(by intros ->))).
  rewrite (bind_inr _ _ _ _ _ (node_value_run _ _ _ Hn)).
  rewrite (bind_inr _ _ _ _ _ (grid_of_run _ _ _ Hm)).
  rewrite index_lookup, Hlr by done.
  unfold store_cell. rewrite (bind_inr _ _ _ _ _ (row_of_run _ _ _ Hvs)).
  unfold put_row. by rewrite array_set_id, insert_id, state_eta.
Qed.

(** ** The rows after a [set] *)

Lemma written_base s m ls lr colIndex v l vs :
  base s m ls l = Some vs →
  written s m ls lr colIndex v l
  = Some (written_row s m ls lr colIndex v l vs).
Proof.
  unfold written, expanded, written_row. intros ->.
  by repeat case_decide.
Qed.

Lemma base_old s m ls l vs :
  (∀ l, l ∈ ls → cells s !! l = None) →
  cells s !! l = Some vs → base s m ls l = Some vs.
Proof.
  intros Hfresh Hvs. unfold base. rewrite decide_False; [done |].
  intros Hin. rewrite (Hfresh l Hin) in Hvs. discriminate.
Qed.

Lemma base_allocated s m ls l :
  rows_allocated s m → l ∈ m ++ ls → is_Some (base s m ls l).
Proof.
  intros Hall Hin. unfold base. case_decide; [eauto |].
  apply elem_of_app in Hin as [Hin | Hin]; [by apply Hall | done].
Qed.

(** The first row, old or new, is [width s m] long before the columns
    are expanded. *)
Lemma base_first s m ls l0 rest :
  rows_allocated s m →
  (∀ l, l ∈ ls → cells s !! l = None) →
  m ++ ls = l0 :: rest →
  ∃ vs, base s m ls l0 = Some vs ∧ Z.of_nat (length vs) = width s m.
Proof.
  intros Hall Hfresh Heq. destruct m as [| l m']; simpl in Heq.
  - subst ls. exists (zeros 0). unfold base.
    by rewrite decide_True by left.
  - injection Heq as -> _. destruct (Hall l0) as [vs Hvs]; [by left |].
    exists vs. split; [by apply base_old |]. simpl. by rewrite Hvs.
Qed.

Lemma written_row_lookup s m ls lr colIndex v l vs k x :
  vs !! k = Some x →
  l ≠ lr ∨ colIndex < 0 ∨ k ≠ Z.to_nat colIndex →
  written_row s m ls lr colIndex v l vs !! k = Some x.
Proof.
  intros Hk Hne. unfold written_row. cbv zeta.
  set (vs1 := if decide (_ ∧ _) then _ else _).
  assert (vs1 !! k = Some x) as Hk1.
  { subst vs1. destruct (decide (_ ∧ _)); [by apply pad_lookup | done]. }
  destruct (decide (l = lr)); [| done].
  apply array_set_lookup_ne; [done |].
  destruct Hne as [? | [? | ?]]; [done | by left | by right].
Qed.

Lemma written_row_cell s m ls lr colIndex v vs :
  0 ≤ colIndex < max_length →
  written_row s m ls lr colIndex v lr vs !! Z.to_nat colIndex = Some v.
Proof.
  intros Hcol. unfold written_row. cbv zeta.
  rewrite (decide_True (P := lr = lr)) by done.
  by apply array_set_lookup_eq.
Qed.

Lemma written_row_length s m ls lr colIndex v l vs :
  0 ≤ colIndex < max_length → l ∈ m ++ ls →
  Z.of_nat (length vs) = width s m →
  Z.of_nat (length (written_row s m ls lr colIndex v l vs))
  = Z.max (width s m) (colIndex + 1).
Proof.
  intros Hcol Hin Hlen. unfold written_row. cbv zeta.
  set (vs1 := if decide (_ ∧ _) then _ else _).
  assert (Z.of_nat (length vs1) = Z.max (width s m) (colIndex + 1)) as Hlen1.
  { subst vs1. destruct (decide (_ ∧ _)) as [Hd | Hd].
    - rewrite pad_length. lia.
    - destruct (decide (width s m ≤ colIndex)); [by destruct Hd | lia]. }
  destruct (decide (l = lr)); [| done].
  rewrite array_set_length by done. lia.
Qed.

(** The state after [set] has written, for non-negative indices: the
    cell is there, within the width of the matrix. *)
Lemma set_tail_post s i n m rowIndex colIndex v :
  nodes (this s) !! i = Some n →
  grids s !! value n = Some m →
  rows_allocated s m →
  0 ≤ rowIndex < max_length → 0 ≤ colIndex < max_length →
  width s m ≤ max_length →
  ∃ s' m' lr vs,
    set_tail i rowIndex colIndex v s = (s', inr tt) ∧
    this s' = this s ∧
    grids s' !! value n = Some m' ∧
    rows_allocated s' m' ∧
    m' !! Z.to_nat rowIndex = Some lr ∧
    cells s' !! lr = Some vs ∧
    vs !! Z.to_nat colIndex = Some v ∧
    colIndex < width s' m'.
Proof.
  intros Hn Hm Hall Hrow Hcol Hwmax.
  destruct (set_tail_run s i n m rowIndex colIndex v Hn Hm Hall Hrow)
    as (ls & lr & s' & Hrun & Ht & Hg & Hlen & Hnd & Hfresh & Hlr & Hc);
    [lia | done |].
  assert (∀ l, l ∈ m ++ ls →
               ∃ vs, base s m ls l = Some vs ∧
                     cells s' !! l = Some (written_row s m ls lr colIndex v l vs))
    as Hrows.
  { intros l Hin. destruct (base_allocated s m ls l Hall Hin) as [vs Hvs].
    exists vs. split; [done |]. rewrite Hc. by apply written_base. }
  destruct (Hrows lr) as (vs & Hvs & Hvs'); [by eapply list_elem_of_lookup_2 |].
  exists s', (m ++ ls), lr, (written_row s m ls lr colIndex v lr vs).
  split_and!; try done.
  - rewrite Hg. apply lookup_insert_eq.
  - intros l Hin. destruct (Hrows l Hin) as (? & _ & ->). eauto.
  - by apply written_row_cell.
  - assert (∃ l0 rest, m ++ ls = l0 :: rest) as (l0 & rest & Heq).
    { destruct (m ++ ls) as [| l0 rest]; [done | eauto]. }
    assert (l0 ∈ m ++ ls) as Hin0 by (rewrite Heq; by left).
    destruct (base_first s m ls l0 rest Hall Hfresh Heq) as (vs0 & Hvs0 & Hlen0).
    destruct (Hrows l0 Hin0) as (vs0' & Hvs0' & Hl0).
    assert (vs0' = vs0) as -> by congruence.
    rewrite Heq. simpl. rewrite Hl0. simpl.
    rewrite (written_row_length s m ls lr colIndex v l0 vs0); [lia | done..].
Qed.

(** ** Rectangular matrices *)

Lemma set_tail_row_lengths s i w rowIndex colIndex v :
  row_lengths s i w → w ≤ max_length →
  0 ≤ rowIndex < max_length → 0 ≤ colIndex < max_length →
  ∃ s' w', set_tail i rowIndex colIndex v s = (s', inr tt) ∧
           this s' = this s ∧ row_lengths s' i w' ∧ w' ≤ max_length.
Proof.
  intros (n & m & Hn & Hm & Hlens) Hwmax Hrow Hcol.
  assert (rows_allocated s m) as Hall.
  { intros l Hin. destruct (Hlens l Hin) as (vs & -> & _). eauto. }
  assert (width s m ≤ max_length) as Hwidth.
  { pose proof max_length_pos. destruct m as [| l0 m']; [simpl; lia |].
    destruct (Hlens l0) as (vs0 & Hvs0 & Hw0); [by left |].
    simpl. rewrite Hvs0. simpl. lia. }
  destruct (set_tail_run s i n m rowIndex colIndex v Hn Hm Hall Hrow)
    as (ls & lr & s' & Hrun & Ht & Hg & Hlen & Hnd & Hfresh & Hlr & Hc);
    [lia | done |].
  exists s', (Z.max (width s m) (colIndex + 1)).
  split_and!; [done.. | | lia].
  exists n, (m ++ ls). split_and!.
  - by rewrite Ht.
  - rewrite Hg. apply lookup_insert_eq.
  - intros l Hin.
    assert (∃ vs, base s m ls l = Some vs ∧ Z.of_nat (length vs) = width s m)
      as (vs & Hvs & Hw).
    { unfold base. destruct (decide (l ∈ ls)) as [Hnew | Hold].
      - exists (zeros (width s m)). split; [done |].
        apply zeros_length, width_nonneg.
      - apply elem_of_app in Hin as [Hin | Hin]; [| done].
        destruct (Hlens l Hin) as (vs & Hvs & Hw). exists vs. split; [done |].
        destruct m as [| l0 m']; [by apply elem_of_nil in Hin |].
        destruct (Hlens l0) as (vs0 & Hvs0 & Hw0); [by left |].
        simpl. rewrite Hvs0. simpl. lia. }
    exists (written_row s m ls lr colIndex v l vs). split.
    + rewrite Hc. by apply written_base.
    + by apply written_row_length.
Qed.

Lemma sets_row_lengths s x y z i w ws :
  findNode (this s) x y z = Some i →
  row_lengths s i w → w ≤ max_length →
  Forall (λ w, 0 ≤ w.1.1 < max_length ∧ 0 ≤ w.1.2 < max_length) ws →
  ∃ s' w', sets x y z ws s = (s', inr tt) ∧
           this s' = this s ∧ row_lengths s' i w'.
Proof.
  revert s w.
  induction ws as [| [[r c] v] ws IH]; intros s w Hfind Hrect Hwmax Hws.
  - exists s, w. done.
  - apply Forall_cons in Hws as [[Hr Hc] Hws]. simpl in Hr, Hc.
    destruct (set_tail_row_lengths s i w r c v Hrect Hwmax Hr Hc)
      as (s1 & w1 & Hrun & Ht & Hrect1 & Hwmax1).
    destruct (IH s1 w1) as (s' & w' & Hrun' & Ht' & Hrect'); [by rewrite Ht | done.. |].
    exists s', w'. split_and!; [| congruence | done].
    rewrite <- (set_found _ x y z _ _ _ _ Hfind) in Hrun.
    unfold sets. simpl. by rewrite (bind_inr _ _ _ _ _ Hrun).
Qed.

Lemma row_lengths_rectangular s x y z i w :
  findNode (this s) x y z = Some i →
  row_lengths s i w →
  ∃ g, node_grid s x y z = Some g ∧ rectangular g.
Proof.
  intros Hfind (n & m & Hn & Hm & Hlens).
  assert (rows_allocated s m) as Hall.
  { intros l Hin. destruct (Hlens l Hin) as (vs & -> & _). eauto. }
  destruct (holds_node_grid s x y z i n m) as (g & Hg & HF); [done |].
  exists g. split; [done |].
  assert (∀ r, r ∈ g → Z.of_nat (length r) = w) as Hw.
  { intros r (k & Hk)%list_elem_of_lookup_1.
    destruct (Forall2_lookup_r _ _ _ _ _ HF Hk) as (l & Hl & Hlr).
    destruct (Hlens l) as (vs & Hvs & Hlen); [by eapply list_elem_of_lookup_2 |].
    congruence. }
  intros r1 r2 H1%Hw H2%Hw. lia.
Qed.

(** ** Written values under growth *)

Lemma set_tail_distinct s i n m rowIndex colIndex v :
  nodes (this s) !! i = Some n →
  grids s !! value n = Some m →
  rows_allocated s m →
  NoDup m →
  0 ≤ rowIndex < max_length → 0 ≤ colIndex < max_length →
  width s m ≤ max_length →
  ∃ s' m' lr vs,
    set_tail i rowIndex colIndex v s = (s', inr tt) ∧
    this s' = this s ∧
    grids s' !! value n = Some m' ∧
    rows_allocated s' m' ∧
    width s' m' ≤ max_length ∧
    NoDup m' ∧
    m' !! Z.to_nat rowIndex = Some lr ∧
    cells s' !! lr = Some vs ∧
    vs !! Z.to_nat colIndex = Some v ∧
    (∀ k l vs0 c x,
       m !! k = Some l → cells s !! l = Some vs0 → vs0 !! c = Some x →
       k ≠ Z.to_nat rowIndex ∨ c ≠ Z.to_nat colIndex →
       m' !! k = Some l ∧
       ∃ vs', cells s' !! l = Some vs' ∧ vs' !! c = Some x).
Proof.
  intros Hn Hm Hall Hdist Hrow Hcol Hwmax.
  destruct (set_tail_run s i n m rowIndex colIndex v Hn Hm Hall Hrow)
    as (ls & lr & s' & Hrun & Ht & Hg & Hlen & Hnd & Hfresh & Hlr & Hc);
    [lia | done |].
  assert (NoDup (m ++ ls)) as Hdist'.
  { apply NoDup_app. split_and!; [done | | done].
    intros l Hin Hin'. destruct (Hall l Hin) as [vs Hvs].
    rewrite (Hfresh l Hin') in Hvs. discriminate. }
  assert (∀ l, l ∈ m ++ ls →
               ∃ vs, base s m ls l = Some vs ∧
                     cells s' !! l = Some (written_row s m ls lr colIndex v l vs))
    as Hrows.
  { intros l Hin. destruct (base_allocated s m ls l Hall Hin) as [vs Hvs].
    exists vs. split; [done |]. rewrite Hc. by apply written_base. }
  destruct (Hrows lr) as (vs & Hvs & Hvs'); [by eapply list_elem_of_lookup_2 |].
  exists s', (m ++ ls), lr, (written_row s m ls lr colIndex v lr vs).
  split_and!; try done.
  - rewrite Hg. apply lookup_insert_eq.
  - intros l Hin. destruct (Hrows l Hin) as (? & _ & ->). eauto.
  - assert (∃ l0 rest, m ++ ls = l0 :: rest) as (l0 & rest & Heq).
    { destruct (m ++ ls) as [| l0 rest]; [done | eauto]. }
    assert (l0 ∈ m ++ ls) as Hin0 by (rewrite Heq; by left).
    destruct (base_first s m ls l0 rest Hall Hfresh Heq) as (vs0 & Hvs0 & Hlen0).
    destruct (Hrows l0 Hin0) as (vs0' & Hvs0' & Hl0).
    assert (vs0' = vs0) as -> by congruence.
    rewrite Heq. simpl. rewrite Hl0. simpl.
    rewrite (written_row_length s m ls lr colIndex v l0 vs0); [lia | done..].
  - by apply written_row_cell.
  - intros k l vs0 c x Hk Hl Hx Hne.
    assert ((m ++ ls) !! k = Some l) as Hk' by (by apply lookup_app_l_Some).
    split; [done |].
    exists (written_row s m ls lr colIndex v l vs0). split.
    + rewrite Hc. apply written_base. by apply base_old.
    + apply written_row_lookup; [done |].
      destruct Hne as [Hne | Hne]; [left | by right; right].
      intros ->. apply Hne. by eapply NoDup_lookup.
Qed.

Lemma holds_unique s x y z i n m i' n' m' :
  holds s x y z i n m → holds s x y z i' n' m' → i = i' ∧ n = n' ∧ m = m'.
Proof.
  intros (Hi & Hn & Hm & _) (Hi' & Hn' & Hm' & _).
  assert (i = i') as <- by congruence.
  assert (n = n') as <- by congruence.
  split_and!; congruence.
Qed.

(** *** Arrays only grow under [expandMatrixIfNeeded] *)

Global Instance grown_preorder : PreOrder grown.
Proof.
  split.
  - intros s. split_and!; [done | |].
    + intros o m Hm. exists m. done.
    + intros l vs Hvs. exists vs. done.
  - intros s1 s2 s3 (Ht1 & Hg1 & Hc1) (Ht2 & Hg2 & Hc2). split_and!.
    + congruence.
    + intros o m Hm. destruct (Hg1 o m Hm) as (m' & Hm' & Hp & Ha).
      destruct (Hg2 o m' Hm') as (m'' & Hm'' & Hp' & Ha').
      exists m''. split_and!; [done | by etrans | auto].
    + intros l vs Hvs. destruct (Hc1 l vs Hvs) as (vs' & Hvs' & Hp).
      destruct (Hc2 l vs' Hvs') as (vs'' & Hvs'' & Hp').
      exists vs''. split; [done | by etrans].
Qed.

Lemma grown_put_row s l vs vs' :
  cells s !! l = Some vs → vs `prefix_of` vs' →
  grown s (mkState (this s) (grids s) (<[l := vs']> (cells s))).
Proof.
  intros Hl Hp. split_and!; [done | |]; simpl.
  - intros o m Hm. exists m. split_and!; [done.. |].
    intros Hall l' Hin. simpl. destruct (decide (l = l')) as [<- | Hne].
    + rewrite lookup_insert_eq. eauto.
    + rewrite lookup_insert_ne by done. by apply Hall.
  - intros l' vs0 Hvs0. destruct (decide (l = l')) as [<- | Hne].
    + rewrite lookup_insert_eq. exists vs'. split; [done | congruence].
    + rewrite lookup_insert_ne by done. eauto.
Qed.

Lemma grown_new_row s vs :
  grown s (mkState (this s) (grids s)
                   (<[fresh (dom (cells s)) := vs]> (cells s))).
Proof.
  assert (∀ l, is_Some (cells s !! l) → l ≠ fresh (dom (cells s))) as Hfresh.
  { intros l [vs0 Hvs0] ->. by rewrite fresh_cells_None in Hvs0. }
  split_and!; [done | |]; simpl.
  - intros o m Hm. exists m. split_and!; [done.. |].
    intros Hall l Hin. simpl. rewrite lookup_insert_ne; [by apply Hall |].
    intros <-. by eapply Hfresh; [apply Hall |].
  - intros l vs0 Hvs0. rewrite lookup_insert_ne; [eauto |].
    intros <-. by eapply Hfresh.
Qed.

Lemma grown_push_row s o m l :
  grids s !! o = Some m → is_Some (cells s !! l) →
  grown s (mkState (this s) (<[o := m ++ [l]]> (grids s)) (cells s)).
Proof.
  intros Hm Hl. split_and!; [done | |]; simpl; [| eauto].
  intros o' m' Hm'. destruct (decide (o = o')) as [-> | Hne].
  - rewrite lookup_insert_eq. exists (m ++ [l]).
    assert (m' = m) as -> by congruence.
    split_and!; [done | by apply prefix_app_r |].
    intros Hall l' [Hin | ->%list_elem_of_singleton]%elem_of_app; simpl;
      [by apply Hall | done].
  - rewrite lookup_insert_ne by done. exists m'. done.
Qed.

Lemma push_cell_grown l v :
  obeys grown (λ _, True) (λ _, True) (push_cell l v).
Proof.
  intros s. unfold push_cell, bind, row_of.
  destruct (cells s !! l) as [vs |] eqn:Hl; simpl; [| done].
  destruct (_ <? _); simpl; [| done]. split; [| done].
  apply (grown_put_row s l vs); [done | by apply prefix_app_r].
Qed.

Lemma push_cells_loop_grown fuel l colIndex :
  obeys grown (λ _, True) (λ _, True) (push_cells_loop fuel l colIndex).
Proof.
  induction fuel as [| fuel IH]; simpl.
  - ob_leaf obeys_ret.
  - ob_bind; [ob_read |].
    destruct (_ <=? _); [| ob_leaf obeys_ret].
    ob_bind; [apply push_cell_grown | apply IH].
Qed.

Lemma push_rows_loop_grown fuel o rowIndex cc :
  obeys grown (λ _, True) (λ _, True) (push_rows_loop fuel o rowIndex cc).
Proof.
  assert (∀ s, grown s (fst (push_rows_loop fuel o rowIndex cc s))) as H.
  2: { intros s. split; [apply H | by destruct (snd _)]. }
  induction fuel as [| fuel IH]; intros s; [done |].
  simpl. unfold bind at 1, grid_of.
  destruct (grids s !! o) as [m |] eqn:Hm; [| done].
  destruct (_ <=? _); [| done].
  destruct (array_fill0_cases cc s) as [Hfill | Hfill].
  { by rewrite (bind_inl _ _ _ _ _ Hfill). }
  rewrite (bind_inr _ _ _ _ _ Hfill).
  set (l := fresh (dom (cells s))). set (s1 := mkState _ _ _).
  assert (grown s s1) as H1 by apply grown_new_row.
  destruct (decide (Z.of_nat (length m) < max_length)) as [Hlt | Hge].
  - rewrite (bind_inr _ _ _ _ _ (push_row_run o l s1 m Hm Hlt)).
    etrans; [| apply IH]. etrans; [apply H1 |].
    apply (grown_push_row s1 o m l); [done |].
    simpl. rewrite lookup_insert_eq. eauto.
  - by rewrite (bind_inl _ _ _ _ _
                  (push_row_RangeError o l s1 m Hm ltac:(lia))).
Qed.

Lemma expandMatrixIfNeeded_grown i rowIndex colIndex :
  obeys grown (λ _, True) (λ _, True)
        (expandMatrixIfNeeded i rowIndex colIndex).
Proof.
  unfold expandMatrixIfNeeded.
  ob_bind; [ob_read |].
  ob_bind; [ob_read |].
  eapply obeys_bind with (P := λ _, True); [apply _ | | intros ? ?].
  { eapply obeys_weaken; [ob_leaf cols_of_obeys | done]. }
  ob_bind; [apply push_rows_loop_grown |].
  ob_bind; [ob_read |].
  eapply obeys_bind with (P := λ _, True); [apply _ | | intros ? ?].
  - match goal with |- context [match ?m with [] => _ | _ :: _ => _ end] =>
      destruct m end; [ob_leaf obeys_throw |].
    ob_bind; [ob_read |]. ob_leaf obeys_ret.
  - destruct (_ <=? _); [| ob_leaf obeys_ret].
    apply obeys_for_each; [apply _ |]. intros l.
    apply push_cells_loop_grown.
Qed.

Lemma grown_grid_at s s' o g :
  grown s s' → grid_at s o = Some g →
  ∃ g', grid_at s' o = Some g' ∧ grid_extends g g'.
Proof.
  intros (_ & Hgr & Hc) (m & Hm & HF)%grid_at_Some.
  destruct (Hgr o m Hm) as (m' & Hm' & Hp & Hall').
  specialize (Hall' (rows_allocated_Forall2 _ _ _ HF)).
  destruct (rows_allocated_grid s' m' Hall') as [g' HF'].
  exists g'. split; [apply grid_at_Some; eauto |]. split.
  - rewrite <- (Forall2_length _ _ _ HF), <- (Forall2_length _ _ _ HF').
    by apply prefix_length.
  - intros k r Hk.
    destruct (Forall2_lookup_r _ _ _ _ _ HF Hk) as (l & Hl & Hlr).
    pose proof (prefix_lookup_Some _ _ _ _ Hl Hp) as Hl'.
    destruct (Forall2_lookup_l _ _ _ _ _ HF' Hl') as (r' & Hr' & Hlr').
    exists r'. split; [done |].
    destruct (Hc l r Hlr) as (r'' & Hr'' & Hpre). congruence.
Qed.

Lemma expandMatrixIfNeeded_extends s i n g rowIndex colIndex :
  nodes (this s) !! i = Some n →
  grid_at s (value n) = Some g →
  ∃ g', grid_at (fst (expandMatrixIfNeeded i rowIndex colIndex s)) (value n)
        = Some g' ∧
        grid_extends g g'.
Proof.
  intros Hn Hgrid.
  destruct (expandMatrixIfNeeded_grown i rowIndex colIndex s) as [Hgrown _].
  by eapply grown_grid_at.
Qed.

(** ** [set] at any indices *)

Lemma set_unused_run s x y z rowIndex colIndex v :
  findNode (this s) x y z = None →
  can_create s (rowIndex + 1) (colIndex + 1) →
  0 ≤ rowIndex → 0 ≤ colIndex →
  ∃ s', set x y z rowIndex colIndex v s = (s', inr tt) ∧
        node_grid s' x y z = Some (created_grid rowIndex colIndex v).
Proof.
  intros Hnone Hcan Hrow Hcol.
  destruct (set_entry s x y z rowIndex colIndex v)
    as (s0 & i & n & m & Hset & Hholds & _ & Hwmax & Hnew);
    [by left | done |].
  destruct Hnew as [-> | (_ & _ & _ & Hlen & Hnd & Hz)].
  { destruct Hholds as [? _]. congruence. }
  destruct Hholds as (Hfind & Hn & Hm & Hall).
  destruct Hcan as (Hrows & Hsize & _).
  destruct (set_tail_run s0 i n m rowIndex colIndex v Hn Hm Hall)
    as (ls & lr & s' & Hrun & Ht & Hg & Hlen' & _ & _ & Hlr & Hc);
    [lia | lia | done |].
  destruct ls as [| ? ?]; [| simpl in Hlen'; lia].
  rewrite app_nil_r in Hlr, Hg.
  exists s'. split; [congruence |].
  apply node_grid_Some. exists i, n, m.
  split_and!; [by rewrite Ht | by rewrite Ht | |].
  { rewrite Hg. apply lookup_insert_eq. }
  assert (width s0 m = colIndex + 1) as Hw.
  { destruct m as [| l0 m']; [simpl in Hlen; lia |].
    simpl. rewrite (Hz l0) by left. simpl. apply zeros_length. lia. }
  apply Forall2_same_length_lookup_2.
  { unfold created_grid. by rewrite length_insert, length_replicate. }
  intros k l r Hl Hr. rewrite Hc.
  assert (base s0 m [] l = Some (zeros (colIndex + 1))) as Hbase.
  { unfold base. rewrite decide_False by apply not_elem_of_nil.
    apply Hz. by eapply list_elem_of_lookup_2. }
  rewrite (written_base _ _ _ _ _ _ _ _ Hbase). f_equal.
  unfold written_row. cbv zeta.
  rewrite (decide_False (P := _ ∧ _)) by (intros [? _]; lia).
  pose proof (lookup_lt_Some _ _ _ Hl) as Hk.
  unfold created_grid in Hr.
  destruct (decide (k = Z.to_nat rowIndex)) as [-> | Hne].
  - assert (l = lr) as -> by congruence.
    rewrite decide_True by done.
    rewrite list_lookup_insert_eq in Hr by (rewrite length_replicate; lia).
    injection Hr as <-. unfold array_set.
    destruct (Z.ltb_spec colIndex 0); [lia |].
    rewrite zeros_length by lia.
    destruct (Z.ltb_spec colIndex (colIndex + 1)); [done | lia].
  - rewrite decide_False.
    2: { intros ->. apply Hne. by eapply NoDup_lookup. }
    rewrite list_lookup_insert_ne in Hr by done.
    by apply lookup_replicate in Hr as [-> _].
Qed.

Lemma set_nonnegative_run s x y z rowIndex colIndex v :
  0 ≤ rowIndex < max_length → 0 ≤ colIndex < max_length →
  node_ok s x y z → has_room s x y z →
  ∃ s' g, set x y z rowIndex colIndex v s = (s', inr tt) ∧
          node_grid s' x y z = Some g ∧
          cell g rowIndex colIndex = Some v.
Proof.
  intros Hrow Hcol Hok Hroom.
  destruct (set_entry s x y z rowIndex colIndex v Hok)
    as (s0 & i & n & m & Hset & (Hfind & Hn & Hm & Hall) & _ & Hw & _).
  { apply (can_create_set s x y z); [done | lia | lia]. }
  destruct (set_tail_post s0 i n m rowIndex colIndex v Hn Hm Hall Hrow Hcol Hw)
    as (s' & m' & lr & vs & Hrun & Ht & Hm' & Hall' & Hlr & Hvs & Hv & _).
  destruct (holds_node_grid s' x y z i n m') as (g & Hg & HF).
  { split_and!; [by rewrite Ht | by rewrite Ht | done..]. }
  exists s', g. split_and!; [congruence | done |].
  destruct (Forall2_lookup_l _ _ _ _ _ HF Hlr) as (r & Hr & Hlr').
  apply cell_Some. split_and!; [lia | lia |]. exists r. split; congruence.
Qed.

Lemma set_negative_row s x y z rowIndex colIndex v :
  rowIndex < 0 → colIndex < max_length →
  node_ok s x y z → has_room s x y z →
  snd (set x y z rowIndex colIndex v s) = inl TypeError.
Proof.
  intros Hrow Hcol Hok Hroom. pose proof max_length_pos.
  destruct (set_entry s x y z rowIndex colIndex v Hok)
    as (s0 & i & n & m & -> & (Hfind & Hn & Hm & Hall) & _ & Hw & _).
  { apply (can_create_set s x y z); [done | lia | lia]. }
  eapply set_tail_negative_row; [done.. | by right].
Qed.

(** At a negative column the cell assignment adds a property to the
    row and no element; only the creation of a node fails, at a length
    [colIndex + 1] that is negative. *)
Lemma set_negative_col s x y z rowIndex colIndex v :
  0 ≤ rowIndex < max_length → colIndex < 0 →
  node_ok s x y z → has_room s x y z →
  (findNode (this s) x y z = None ∧ colIndex < -1 →
   set x y z rowIndex colIndex v s = (s, inl RangeError)) ∧
  (¬ (findNode (this s) x y z = None ∧ colIndex < -1) →
   snd (set x y z rowIndex colIndex v s) = inr tt).
Proof.
  intros Hrow Hcol Hok Hroom. pose proof max_length_pos. split.
  - intros [Hnone Hlt].
    unfold set, bind at 1 2, this_findNode. rewrite Hnone.
    rewrite createNodeIfNeeded_RangeError; [done | done | lia].
  - intros Hnot.
    destruct (set_entry s x y z rowIndex colIndex v Hok)
      as (s0 & i & n & m & -> & (Hfind & Hn & Hm & Hall) & _ & Hw & _).
    { intros Hnone. apply (can_create_set s x y z); [done | lia | right | done].
      destruct (decide (colIndex < -1)); [by destruct Hnot | lia]. }
    by destruct (set_tail_run s0 i n m rowIndex colIndex v Hn Hm Hall Hrow)
      as (ls & lr & s' & -> & _); [lia | done |].
Qed.

(** At a row or a column that no array has, [set] throws: the node
    cannot be created, or its matrix cannot be expanded. *)
Lemma set_beyond_limit s x y z rowIndex colIndex v :
  0 ≤ rowIndex → 0 ≤ colIndex →
  max_length ≤ rowIndex ∨ max_length ≤ colIndex →
  node_ok s x y z →
  snd (set x y z rowIndex colIndex v s) = inl RangeError.
Proof.
  intros Hrow Hcol Hlimit [Hnone | (g & Hg & Hfits)].
  - unfold set, bind at 1 2, this_findNode. rewrite Hnone.
    rewrite createNodeIfNeeded_RangeError; [done | done | lia].
  - destruct (node_grid_holds _ _ _ _ _ Hg)
      as (i & n & m & (Hfind & Hn & Hm & Hall) & HF).
    destruct (fits_width s m g HF Hfits) as [Hlen Hw].
    rewrite (set_found _ _ _ _ _ _ _ _ Hfind).
    by eapply set_tail_overflow.
Qed.

(** So [set] at non-negative indices returns only below the limit, and
    on a node it found or could create. *)
Lemma set_returns s x y z rowIndex colIndex v s' :
  0 ≤ rowIndex → 0 ≤ colIndex → node_ok s x y z →
  set x y z rowIndex colIndex v s = (s', inr tt) →
  rowIndex < max_length ∧ colIndex < max_length ∧ has_room s x y z.
Proof.
  intros Hrow Hcol Hok Hrun.
  destruct (decide (max_length ≤ rowIndex ∨ max_length ≤ colIndex))
    as [Hlimit | Hlimit].
  { pose proof (set_beyond_limit s x y z rowIndex colIndex v Hrow Hcol
                  Hlimit Hok) as He.
    by rewrite Hrun in He. }
  split_and!; [lia | lia |].
  destruct (findNode (this s) x y z) as [i |] eqn:Hfind;
    [left; rewrite Hfind; eauto |].
  destruct (decide (Z.of_nat (length (nodes (this s))) < max_length));
    [by right |].
  destruct (createNodeIfNeeded_throws s x y z (rowIndex + 1) (colIndex + 1)
              Hfind) as (He & _).
  { unfold can_create. lia. }
  destruct (createNodeIfNeeded x y z (rowIndex + 1) (colIndex + 1) s)
    as [s1 r] eqn:Hcreate. simpl in He. subst r.
  unfold set, bind at 1 2, this_findNode in Hrun.
  by rewrite Hfind, Hcreate in Hrun.
Qed.

(** ** [update] *)

Lemma ones_idemp vs : ones (ones vs) = ones vs.
Proof. unfold ones. by rewrite length_replicate. Qed.

Lemma fill_row_run l k s pre post :
  cells s !! l = Some (pre ++ post) → length post = k →
  for_each (λ c, store_cell l (Z.of_nat c) (Num 1)) (seq (length pre) k) s
  = (mkState (this s) (grids s)
             (<[l := pre ++ replicate k (Num 1)]> (cells s)), inr tt).
Proof.
  revert s pre post. induction k as [| k IH]; intros s pre post Hl Hlen.
  - apply nil_length_inv in Hlen as ->. simpl. unfold ret.
    by rewrite insert_id, state_eta.
  - destruct post as [| p post]; [done |]. simpl in Hlen. simpl.
    assert (store_cell l (Z.of_nat (length pre)) (Num 1) s
            = (mkState (this s) (grids s)
                       (<[l := (pre ++ [Num 1]) ++ post]> (cells s)), inr tt))
      as Hstore.
    { unfold store_cell. rewrite (bind_inr _ _ _ _ _ (row_of_run _ _ _ Hl)).
      unfold put_row. do 3 f_equal. unfold array_set.
      destruct (Z.ltb_spec (Z.of_nat (length pre)) 0); [lia |].
      destruct (Z.ltb_spec (Z.of_nat (length pre))
                  (Z.of_nat (length (pre ++ p :: post)))) as [_ | Hge].
      2: { rewrite length_app in Hge. simpl in Hge. lia. }
      rewrite Nat2Z.id, insert_app_r_alt, Nat.sub_diag by lia.
      simpl. by rewrite <- app_assoc. }
    rewrite (bind_inr _ _ _ _ _ Hstore).
    replace (S (length pre)) with (length (pre ++ [Num 1]))
      by (rewrite length_app; simpl; lia).
    rewrite (IH _ (pre ++ [Num 1]) post).
    + simpl. rewrite insert_insert_eq. by rewrite <- app_assoc.
    + apply lookup_insert_eq.
    + lia.
Qed.

Lemma update_row_run l s vs :
  cells s !! l = Some vs →
  update_row l s
  = (mkState (this s) (grids s) (<[l := ones vs]> (cells s)), inr tt).
Proof.
  intros Hl. unfold update_row, update_row_with.
  rewrite (bind_inr _ _ _ _ _ (row_of_run _ _ _ Hl)).
  apply (fill_row_run l (length vs) s [] vs); done.
Qed.

Lemma update_nodes_run ns s :
  (∀ n, n ∈ ns → ∃ m, grids s !! value n = Some m ∧ rows_allocated s m) →
  ∃ s', for_each update_node ns s = (s', inr tt) ∧
        this s' = this s ∧ grids s' = grids s ∧
        ∀ l, cells s' !! l = if decide (l ∈ rows_of s ns)
                             then ones <$> cells s !! l
                             else cells s !! l.
Proof.
  revert s. induction ns as [| n ns IH]; intros s Hok.
  - exists s. split_and!; [done.. |]. intros l.
    by rewrite decide_False by apply not_elem_of_nil.
  - destruct (Hok n) as (m & Hm & Hall); [by left |].
    destruct (map_rows_run update_row ones m s update_row_run ones_idemp Hall)
      as (s1 & Hrun1 & Ht1 & Hg1 & Hc1).
    destruct (IH s1) as (s' & Hrun & Ht & Hg & Hc).
    { intros n' Hin. destruct (Hok n') as (m' & Hm' & Hall'); [by right |].
      exists m'. split; [by rewrite Hg1 |].
      intros l Hl. rewrite Hc1. destruct (Hall' l Hl) as [vs ->].
      case_decide; simpl; eauto. }
    exists s'. split_and!; [| congruence | congruence |].
    + simpl. unfold update_node at 1, update_node_with.
      rewrite (bind_inr _ _ _ _ tt
                 (eq_trans (bind_inr _ _ _ _ _ (grid_of_run _ _ _ Hm)) Hrun1)).
      done.
    + intros l. rewrite Hc, Hc1.
      assert (rows_of s1 ns = rows_of s ns) as ->.
      { unfold rows_of. by rewrite Hg1. }
      unfold rows_of at 2. simpl. rewrite Hm. simpl.
      fold (rows_of s ns).
      destruct (decide (l ∈ m)) as [Hin | Hin];
        destruct (decide (l ∈ rows_of s ns)) as [Hin' | Hin'];
        destruct (decide (l ∈ m ++ rows_of s ns)) as [Hin'' | Hin''];
        try done;
        try (exfalso; apply Hin''; apply elem_of_app; by auto).
      * destruct (cells s !! l); simpl; [| done]. by rewrite ones_idemp.
      * by apply elem_of_app in Hin'' as [? | ?].
Qed.

(** *** The order of the writes *)

Lemma for_each_app {A} (body : A → M unit) l1 l2 s :
  for_each body (l1 ++ l2) s = (for_each body l1 ;;; for_each body l2) s.
Proof.
  revert s. induction l1 as [| a l1 IH]; intros s; [done |].
  simpl. unfold bind at 1 2 3.
  destruct (body a s) as [s1 [e | []]]; [done |].
  rewrite IH. done.
Qed.

Lemma for_each_fmap {A B} (f : A → B) (body : B → M unit) l s :
  for_each body (f <$> l) s = for_each (λ a, body (f a)) l s.
Proof.
  revert s. induction l as [| a l IH]; intros s; [done |].
  simpl. unfold bind. destruct (body (f a) s) as [s1 [e | []]]; [done |].
  apply IH.
Qed.

Lemma for_each_inv {B} (Inv : state → Prop) (W : B → M unit) l s :
  (∀ b s, b ∈ l → Inv s → Inv (fst (W b s))) →
  Inv s → Inv (fst (for_each W l s)).
Proof.
  revert s. induction l as [| b l IH]; intros s HW Hs; [done |].
  simpl. unfold bind.
  pose proof (HW b s ltac:(left) Hs) as Hs1.
  destruct (W b s) as [s1 [e | []]]; [done |].
  apply IH; [| done]. intros b' s0 Hin. apply HW. by right.
Qed.

(** A loop whose body does, at each element, a list of steps, does the
    steps of all its elements one after the other, and stops where a
    step throws. *)
Lemma for_each_flatten {A B} (Inv : state → Prop) (body : A → M unit)
    (ws : A → list B) (W : B → M unit) l s :
  (∀ a s, a ∈ l → Inv s → body a s = for_each W (ws a) s) →
  (∀ b s, b ∈ l ≫= ws → Inv s → Inv (fst (W b s))) →
  Inv s →
  for_each body l s = for_each W (l ≫= ws) s.
Proof.
  revert s. induction l as [| a l IH]; intros s Hbody HW Hs; [done |].
  change ((a :: l) ≫= ws) with (ws a ++ (l ≫= ws)) in *.
  rewrite for_each_app. simpl. unfold bind.
  rewrite (Hbody a s) by (done || by left).
  pose proof (for_each_inv Inv W (ws a) s) as Hs1.
  destruct (for_each W (ws a) s) as [s1 [e | []]]; [done |].
  apply IH.
  - intros a' s0 Hin. apply Hbody. by right.
  - intros b s0 Hin. apply HW. apply elem_of_app. by right.
  - apply Hs1; [| done]. intros b s0 Hin. apply HW. apply elem_of_app. by left.
Qed.

(** The loops of [update], whatever the assignment does as long as it
    keeps the lengths of the arrays: the assignments are made row by
    row and, in a row, column by column. *)
Lemma update_row_order assign s0 l s :
  is_Some (cells s0 !! l) → same_shape s0 s →
  update_row_with assign l s = for_each (assign_one assign) (row_writes s0 l) s.
Proof.
  intros [vs0 Hvs0] (Ht & Hg & Hlen).
  pose proof (Hlen l) as Hl. rewrite Hvs0 in Hl.
  destruct (cells s !! l) as [vs |] eqn:Hvs; [| done].
  injection Hl as Hl.
  unfold update_row_with. rewrite (bind_inr _ _ _ _ _ (row_of_run _ _ _ Hvs)).
  unfold row_writes. rewrite Hvs0. simpl. rewrite for_each_fmap.
  by rewrite Hl.
Qed.

Lemma update_node_order assign s0 n m s :
  grids s0 !! value n = Some m → rows_allocated s0 m →
  (∀ w s, w ∈ node_writes s0 n → same_shape s0 s →
          same_shape s0 (fst (assign_one assign w s))) →
  same_shape s0 s →
  update_node_with assign n s
  = for_each (assign_one assign) (node_writes s0 n) s.
Proof.
  intros Hm Hall Hkeeps Hs. unfold update_node_with.
  assert (grids s !! value n = Some m) as Hm'.
  { destruct Hs as (_ & -> & _). done. }
  rewrite (bind_inr _ _ _ _ _ (grid_of_run _ _ _ Hm')).
  unfold node_writes in *. rewrite Hm in *. simpl in *.
  apply (for_each_flatten (same_shape s0)); [| done | done].
  intros l s1 Hin Hs1. apply update_row_order; [by apply Hall | done].
Qed.

Lemma update_order assign s :
  (∀ n, n ∈ nodes (this s) →
        ∃ m, grids s !! value n = Some m ∧ rows_allocated s m) →
  keeps_shape s assign →
  update_with assign s = for_each (assign_one assign) (update_writes s) s.
Proof.
  intros Hok Hkeeps. unfold update_with, bind at 1, this_nodes.
  unfold update_writes.
  apply (for_each_flatten (same_shape s)); [| done | done].
  intros n s1 Hin Hs1. destruct (Hok n Hin) as (m & Hm & Hall).
  apply (update_node_order assign s n m); [done.. | | done].
  intros w s2 Hw. apply Hkeeps. unfold update_writes.
  apply list_elem_of_bind. eauto.
Qed.

(** The assignments of [update] are to cells that are there. *)
Lemma update_writes_in_range s w :
  w ∈ update_writes s →
  ∃ vs, cells s !! w.1 = Some vs ∧ 0 ≤ w.2 < Z.of_nat (length vs).
Proof.
  unfold update_writes, node_writes, row_writes.
  intros (n & Hw & _)%list_elem_of_bind.
  apply list_elem_of_bind in Hw as (l & Hw & _).
  apply list_elem_of_fmap in Hw as (c & -> & Hc).
  apply elem_of_seq in Hc. simpl.
  destruct (cells s !! l) as [vs |]; [| simpl in Hc; lia].
  exists vs. simpl in Hc. split; [done | lia].
Qed.

Lemma store_cell_same_shape s0 s l i v vs :
  same_shape s0 s → cells s0 !! l = Some vs →
  0 ≤ i < Z.of_nat (length vs) →
  same_shape s0 (fst (store_cell l i v s)).
Proof.
  intros (Ht & Hg & Hlen) Hvs Hi.
  pose proof (Hlen l) as Hl. rewrite Hvs in Hl.
  destruct (cells s !! l) as [vs' |] eqn:Hvs'; [| done].
  injection Hl as Hl.
  unfold store_cell. rewrite (bind_inr _ _ _ _ _ (row_of_run _ _ _ Hvs')).
  simpl. split_and!; [done.. |]. intros l'. simpl.
  destruct (decide (l = l')) as [<- | Hne].
  - rewrite lookup_insert_eq, Hvs. simpl. f_equal.
    unfold array_set. destruct (Z.ltb_spec i 0); [lia |].
    destruct (Z.ltb_spec i (Z.of_nat (length vs'))); [| lia].
    by rewrite length_insert.
  - by rewrite lookup_insert_ne.
Qed.

Lemma store_cell_keeps_shape s : keeps_shape s store_cell.
Proof.
  intros w s1 (vs & Hvs & Hi)%update_writes_in_range Hs1.
  by eapply store_cell_same_shape.
Qed.

Lemma numbered_keeps_shape s counter : keeps_shape s (numbered counter).
Proof.
  intros w s1 (vs & Hvs & Hi)%update_writes_in_range Hs1.
  unfold numbered, bind at 1, row_of.
  destruct (cells s1 !! counter) as [k |] eqn:Hk; [| done].
  destruct k as [| [k |] [| ? ?]]; try done.
  assert (∃ vs0, cells s !! counter = Some vs0 ∧ length vs0 = 1%nat)
    as (vs0 & Hvs0 & Hlen0).
  { destruct Hs1 as (_ & _ & Hlen). specialize (Hlen counter).
    rewrite Hk in Hlen. destruct (cells s !! counter) as [vs0 |]; [| done].
    injection Hlen as Hlen. eauto. }
  pose proof (store_cell_same_shape s s1 counter 0 (Num (k + 1)) vs0 Hs1 Hvs0
                ltac:(lia)) as Hs2.
  unfold bind.
  destruct (store_cell counter 0 (Num (k + 1)) s1) as [s2 [e | []]];
    [done |].
  simpl in Hs2. by eapply store_cell_same_shape.
Qed.

Lemma grid_at_rows s o g :
  grid_at s o = Some g →
  ∃ m, grids s !! o = Some m ∧ rows_allocated s m.
Proof.
  intros (m & Hm & HF)%grid_at_Some. exists m. split; [done |].
  by eapply rows_allocated_Forall2.
Qed.

(** ** Well-formed states *)

(** *** References *)

Global Instance keeps_refs_preorder : PreOrder keeps_refs.
Proof.
  split.
  - intros s Hwf. exact Hwf.
  - intros s1 s2 s3 H1 H2 Hwf. apply H2, H1, Hwf.
Qed.

Lemma refs_ok_constructor : refs_ok constructor.
Proof. split; [by intros n ?%elem_of_nil | by intros o m ?]. Qed.

Lemma refs_ok_store_ok s : refs_ok s → store_ok s.
Proof.
  intros [Hnodes Hrows] n Hin. destruct (Hnodes n Hin) as [m Hm].
  destruct (rows_allocated_grid s m (Hrows _ _ Hm)) as [g Hg].
  exists g. apply grid_at_Some. eauto.
Qed.

Lemma refs_ok_put_row s l vs :
  refs_ok s → refs_ok (mkState (this s) (grids s) (<[l := vs]> (cells s))).
Proof.
  intros [Hnodes Hrows]. split; [done |]. simpl.
  intros o m Hm l' Hin. simpl. destruct (decide (l = l')) as [-> | Hne].
  - rewrite lookup_insert_eq. eauto.
  - rewrite lookup_insert_ne by done. by eapply Hrows.
Qed.

Lemma refs_ok_put_grid s o m :
  refs_ok s → rows_allocated s m →
  refs_ok (mkState (this s) (<[o := m]> (grids s)) (cells s)).
Proof.
  intros [Hnodes Hrows] Hall. split; simpl.
  - intros n Hin. destruct (decide (o = value n)) as [-> | Hne].
    + rewrite lookup_insert_eq. eauto.
    + rewrite lookup_insert_ne by done. by apply Hnodes.
  - intros o' m'. destruct (decide (o = o')) as [-> | Hne].
    + rewrite lookup_insert_eq. by intros [= <-].
    + rewrite lookup_insert_ne by done. apply Hrows.
Qed.

Lemma put_row_refs_safe l vs : refs_safe (put_row l vs).
Proof. intros s. split; [| done]. intros Hwf. by apply refs_ok_put_row. Qed.

Lemma store_cell_refs_safe l i v : refs_safe (store_cell l i v).
Proof. ob_bind; [ob_read |]. apply put_row_refs_safe. Qed.

Lemma push_cell_refs_safe l v : refs_safe (push_cell l v).
Proof.
  ob_bind; [ob_read |].
  destruct (_ <? _); [apply put_row_refs_safe | ob_leaf obeys_throw].
Qed.

Lemma push_cells_loop_refs_safe fuel l colIndex :
  refs_safe (push_cells_loop fuel l colIndex).
Proof.
  induction fuel as [| fuel IH]; simpl.
  - ob_leaf obeys_ret.
  - ob_bind; [ob_read |].
    destruct (_ <=? _); [| ob_leaf obeys_ret].
    ob_bind; [apply push_cell_refs_safe | apply IH].
Qed.

Lemma push_rows_loop_refs_ok fuel o rowIndex cc s :
  refs_ok s → refs_ok (fst (push_rows_loop fuel o rowIndex cc s)).
Proof.
  revert s. induction fuel as [| fuel IH]; intros s Hwf; [done |].
  simpl. unfold bind at 1, grid_of.
  destruct (grids s !! o) as [m |] eqn:Hm; [| done].
  destruct (_ <=? _); [| done].
  destruct (array_fill0_cases cc s) as [Hfill | Hfill].
  { by rewrite (bind_inl _ _ _ _ _ Hfill). }
  rewrite (bind_inr _ _ _ _ _ Hfill).
  set (l := fresh (dom (cells s))). set (s1 := mkState _ _ _).
  assert (refs_ok s1) as Hwf1 by (by apply refs_ok_put_row).
  destruct (decide (Z.of_nat (length m) < max_length)) as [Hlt | Hge].
  - rewrite (bind_inr _ _ _ _ _ (push_row_run o l s1 m Hm Hlt)).
    apply IH. apply (refs_ok_put_grid s1); [done |].
    intros l' [Hin | ->%list_elem_of_singleton]%elem_of_app; simpl.
    + destruct Hwf as [_ Hrows].
      destruct (decide (l = l')) as [-> | Hne].
      * rewrite lookup_insert_eq. eauto.
      * rewrite lookup_insert_ne by done. by eapply Hrows.
    + rewrite lookup_insert_eq. eauto.
  - by rewrite (bind_inl _ _ _ _ _
                  (push_row_RangeError o l s1 m Hm ltac:(lia))).
Qed.

Lemma push_rows_loop_refs_safe fuel o rowIndex cc :
  refs_safe (push_rows_loop fuel o rowIndex cc).
Proof.
  intros s. split; [intros Hwf; by apply push_rows_loop_refs_ok |].
  by destruct (snd _).
Qed.

Lemma expandMatrixIfNeeded_refs_safe i rowIndex colIndex :
  refs_safe (expandMatrixIfNeeded i rowIndex colIndex).
Proof.
  unfold expandMatrixIfNeeded.
  ob_bind; [ob_read |].
  ob_bind; [ob_read |].
  eapply obeys_bind with (P := λ _, True); [apply _ | | intros ? ?].
  { eapply obeys_weaken; [ob_leaf cols_of_obeys | done]. }
  ob_bind; [apply push_rows_loop_refs_safe |].
  ob_bind; [ob_read |].
  eapply obeys_bind with (P := λ _, True); [apply _ | | intros ? ?].
  - match goal with |- context [match ?m with [] => _ | _ :: _ => _ end] =>
      destruct m end; [ob_leaf obeys_throw |].
    ob_bind; [ob_read |]. ob_leaf obeys_ret.
  - destruct (_ <=? _); [| ob_leaf obeys_ret].
    apply obeys_for_each; [apply _ |]. intros l.
    apply push_cells_loop_refs_safe.
Qed.

Lemma set_tail_refs_safe i rowIndex colIndex v :
  refs_safe (set_tail i rowIndex colIndex v).
Proof.
  unfold set_tail.
  ob_bind; [apply expandMatrixIfNeeded_refs_safe |].
  ob_bind; [ob_read |].
  ob_bind; [ob_read |].
  destruct (index _ rowIndex); [apply store_cell_refs_safe |].
  ob_leaf obeys_throw.
Qed.

Lemma update_refs_safe : refs_safe update.
Proof.
  unfold update, update_with.
  ob_bind; [ob_leaf this_nodes_obeys |].
  apply obeys_for_each; [apply _ |]. intros n.
  ob_bind; [ob_read |].
  apply obeys_for_each; [apply _ |]. intros l.
  ob_bind; [ob_read |].
  apply obeys_for_each; [apply _ |]. intros c.
  apply store_cell_refs_safe.
Qed.

Lemma createNodeIfNeeded_refs_ok s x y z rows cols :
  refs_ok s → refs_ok (fst (createNodeIfNeeded x y z rows cols s)).
Proof.
  intros Hwf. destruct (findNode (this s) x y z) as [i |] eqn:Hfind.
  { by rewrite (createNodeIfNeeded_found _ _ _ _ _ _ _ Hfind). }
  destruct (decide (rows ≤ max_length ∧ (rows ≤ 0 ∨ 0 ≤ cols ≤ max_length)))
    as [[Hrows Hsize] | Hsize].
  2: { rewrite createNodeIfNeeded_RangeError; [done | done | lia]. }
  assert (∀ s' ls o,
            (∀ n, n ∈ nodes (this s') →
                  n ∈ nodes (this s) ∨ value n = o) →
            grids s !! o = None →
            grids s' = <[o := ls]> (grids s) →
            (∀ l, cells s' !! l = if decide (l ∈ ls) then Some (zeros cols)
                                  else cells s !! l) →
            refs_ok s') as Hnew.
  { intros s' ls o Hnodes Ho Hg Hc. destruct Hwf as [Hn Hrs]. split.
    - intros n Hin. rewrite Hg. destruct (Hnodes n Hin) as [Hold | <-].
      + destruct (Hn n Hold) as [m Hm]. exists m.
        rewrite lookup_insert_ne; [done |]. intros ->. congruence.
      + rewrite lookup_insert_eq. eauto.
    - intros o' m. rewrite Hg. intros Hm l Hin. rewrite Hc.
      destruct (decide (l ∈ ls)); [eauto |].
      destruct (decide (o = o')) as [-> | Hne].
      + rewrite lookup_insert_eq in Hm. by injection Hm as <-.
      + rewrite lookup_insert_ne in Hm by done. by eapply Hrs. }
  destruct (decide (Z.of_nat (length (nodes (this s))) < max_length))
    as [Hroom | Hfull].
  - destruct (createNodeIfNeeded_run s x y z rows cols Hfind Hrows Hsize Hroom)
      as (ls & o & s' & -> & Hnodes & _ & Ho & Hg & _ & _ & _ & Hc).
    apply (Hnew s' ls o); [| done..]. simpl. intros n. rewrite Hnodes.
    intros [Hin | ->%list_elem_of_singleton]%elem_of_app; [by left | by right].
  - destruct (createNodeIfNeeded_full s x y z rows cols Hfind Hrows Hsize)
      as (ls & o & s' & -> & Ht & Ho & Hg & _ & _ & Hc); [lia |].
    apply (Hnew s' ls o); [| done..]. simpl. intros n. rewrite Ht. by left.
Qed.

Lemma set_refs_ok s x y z rowIndex colIndex v :
  refs_ok s → refs_ok (fst (set x y z rowIndex colIndex v s)).
Proof.
  intros Hwf. unfold set, bind at 1 2, this_findNode.
  pose proof (createNodeIfNeeded_refs_ok s x y z (rowIndex + 1) (colIndex + 1)
                Hwf) as Hcreate.
  fold (set_tail) in *.
  assert (∀ i s1, refs_ok s1 →
                  refs_ok (fst (set_tail i rowIndex colIndex v s1))) as Htail.
  { intros i s1. by destruct (set_tail_refs_safe i rowIndex colIndex v s1). }
  destruct (findNode (this s) x y z) as [i |].
  - by apply Htail.
  - destruct (createNodeIfNeeded _ _ _ _ _ s) as [s1 [e | i]]; [done |].
    by apply Htail.
Qed.

Lemma setMatrix_refs_ok s x y z matrix :
  refs_ok s → refs_ok (fst (setMatrix x y z matrix s)).
Proof.
  intros Hwf. unfold setMatrix, bind at 1, grid_of.
  destruct (grids s !! matrix) as [m |] eqn:Hm; [| done].
  unfold bind at 1.
  pose proof (cols_of_obeys eq (λ _, True) m I s) as [Hs _].
  destruct (cols_of m s) as [s0 [e | cols]]; simpl in Hs; subst s0; [done |].
  pose proof (createNodeIfNeeded_refs_ok s x y z (Z.of_nat (length m)) cols Hwf)
    as Hwf1.
  assert (is_Some (grids (fst (createNodeIfNeeded x y z (Z.of_nat (length m))
                                 cols s)) !! matrix)) as Hm1.
  { destruct (findNode (this s) x y z) as [i |] eqn:Hfind.
    { rewrite (createNodeIfNeeded_found _ _ _ _ _ _ _ Hfind). simpl. eauto. }
    destruct (decide (Z.of_nat (length m) ≤ max_length ∧
                      (Z.of_nat (length m) ≤ 0 ∨ 0 ≤ cols ≤ max_length)))
      as [[Hrows Hsize] | Hsize].
    2: { rewrite createNodeIfNeeded_RangeError; [simpl; eauto | done | lia]. }
    destruct (createNodeIfNeeded_alloc s x y z _ cols Hfind Hrows Hsize)
      as (ls & o & s1 & -> & Ht & Ho & Hg & _).
    assert (is_Some (grids s1 !! matrix)) as Hs1.
    { rewrite Hg, lookup_insert_ne; [eauto |]. intros ->. congruence. }
    unfold bind, push_node.
    by destruct (_ <? _). }
  unfold bind.
  destruct (createNodeIfNeeded _ _ _ _ _ s) as [s1 [e | i]]; [done |].
  simpl in *. destruct Hwf1 as [Hn Hrows]. split; [| done]. simpl.
  intros n (k & Hk)%list_elem_of_lookup_1.
  destruct (decide (k = i)) as [-> | Hne].
  - rewrite list_lookup_alter_eq in Hk.
    destruct (nodes (this s1) !! i); [| done]. by injection Hk as <-.
  - rewrite list_lookup_alter_ne in Hk by done.
    apply Hn. by eapply list_elem_of_lookup_2.
Qed.

Lemma call_refs_ok c s : refs_ok s → refs_ok (fst (call c s)).
Proof.
  intros Hwf.
  destruct c as [x y z rows cols | x y z | x y z r c | x y z M
                | x y z r c v | x y z |]; unfold call;
    rewrite bind_ret_fst.
  - by apply createNodeIfNeeded_refs_ok.
  - by rewrite (reads_state _ _ (getAllData_reads x y z)).
  - by rewrite (reads_state _ _ (get_reads x y z r c)).
  - by apply setMatrix_refs_ok.
  - by apply set_refs_ok.
  - by rewrite (reads_state _ _ (getDimensions_reads x y z)).
  - by destruct (update_refs_safe s) as [H _]; apply H.
Qed.

(** *** Limits *)

Global Instance keeps_limits_preorder : PreOrder keeps_limits.
Proof.
  split.
  - intros s H. exact H.
  - intros s1 s2 s3 H1 H2 H. apply H2, H1, H.
Qed.

Lemma within_limits_constructor : within_limits constructor.
Proof.
  pose proof max_length_pos.
  split_and!; [simpl; lia | by intros o m ? | by intros l vs ?].
Qed.

Lemma within_limits_put_row s l vs :
  within_limits s → Z.of_nat (length vs) ≤ max_length →
  within_limits (mkState (this s) (grids s) (<[l := vs]> (cells s))).
Proof.
  intros (Hn & Hg & Hc) Hvs. split_and!; [done.. |]. simpl.
  intros l' vs'. destruct (decide (l = l')) as [<- | Hne].
  - rewrite lookup_insert_eq. by intros [= <-].
  - rewrite lookup_insert_ne by done. apply Hc.
Qed.

Lemma within_limits_put_grid s o m :
  within_limits s → Z.of_nat (length m) ≤ max_length →
  within_limits (mkState (this s) (<[o := m]> (grids s)) (cells s)).
Proof.
  intros (Hn & Hg & Hc) Hm. split_and!; [done | | done]. simpl.
  intros o' m'. destruct (decide (o = o')) as [<- | Hne].
  - rewrite lookup_insert_eq. by intros [= <-].
  - rewrite lookup_insert_ne by done. apply Hg.
Qed.

Lemma store_cell_limits_safe l i v : limits_safe (λ _, True) (store_cell l i v).
Proof.
  intros s. unfold store_cell, bind, row_of.
  destruct (cells s !! l) as [vs |] eqn:Hl; simpl; [| done].
  split; [| done]. intros Hs. apply within_limits_put_row; [done |].
  apply array_set_limit. destruct Hs as (_ & _ & Hc). by eapply Hc.
Qed.

Lemma push_cell_limits_safe l v : limits_safe (λ _, True) (push_cell l v).
Proof.
  intros s. unfold push_cell, bind, row_of.
  destruct (cells s !! l) as [vs |] eqn:Hl; simpl; [| done].
  destruct (Z.ltb_spec (Z.of_nat (length vs)) max_length); simpl; [| done].
  split; [| done]. intros Hs. apply within_limits_put_row; [done |].
  rewrite length_app. simpl. lia.
Qed.

Lemma push_row_limits_safe o l : limits_safe (λ _, True) (push_row o l).
Proof.
  intros s. unfold push_row, bind, grid_of.
  destruct (grids s !! o) as [m |] eqn:Hm; simpl; [| done].
  destruct (Z.ltb_spec (Z.of_nat (length m)) max_length); simpl; [| done].
  split; [| done]. intros Hs. apply within_limits_put_grid; [done |].
  rewrite length_app. simpl. lia.
Qed.

Lemma array_fill0_limits_safe cols :
  limits_safe (λ _, True) (array_fill0 cols).
Proof.
  intros s. destruct (array_fill0_cases cols s) as [-> | Hrun]; [done |].
  destruct (decide (0 ≤ cols ≤ max_length)) as [Hc | Hc].
  - rewrite Hrun. split; [| done]. intros Hs.
    apply within_limits_put_row; [done |]. rewrite zeros_length; lia.
  - rewrite array_fill0_RangeError by lia. done.
Qed.

Lemma array_from_loop_limits_safe n f :
  limits_safe (λ _, True) f →
  limits_safe (λ ls, length ls = n) (array_from_loop n f).
Proof.
  intros Hf. induction n as [| n IH]; simpl.
  - ob_leaf obeys_ret.
  - eapply obeys_bind with (P := λ _, True); [apply _ | apply Hf | intros l _].
    eapply obeys_bind with (P := λ ls, length ls = n);
      [apply _ | apply IH | intros ls Hls].
    apply obeys_ret; [apply _ |]. simpl. congruence.
Qed.

Lemma array_from_limits_safe len f :
  limits_safe (λ _, True) f →
  limits_safe (λ ls, Z.of_nat (length ls) ≤ max_length) (array_from len f).
Proof.
  intros Hf. unfold array_from. pose proof max_length_pos.
  destruct (Z.ltb_spec max_length len); [ob_leaf obeys_throw |].
  eapply obeys_weaken; [by apply array_from_loop_limits_safe |].
  intros ls ->. lia.
Qed.

Lemma new_grid_limits_safe ls :
  Z.of_nat (length ls) ≤ max_length → limits_safe (λ _, True) (new_grid ls).
Proof.
  intros Hls s. split; [| done]. intros Hs.
  by apply within_limits_put_grid.
Qed.

Lemma push_node_limits_safe n : limits_safe (λ _, True) (push_node n).
Proof.
  intros s. unfold push_node.
  destruct (Z.ltb_spec (Z.of_nat (length (nodes (this s)))) max_length);
    simpl; [| done].
  split; [| done]. intros (Hn & Hg & Hc). split_and!; [| done..]. simpl.
  rewrite length_app. simpl. lia.
Qed.

Lemma add_address_limits_safe a : limits_safe (λ _, True) (add_address a).
Proof. intros s. split; [| done]. by intros (Hn & Hg & Hc). Qed.

Lemma set_node_value_limits_safe i o :
  limits_safe (λ _, True) (set_node_value i o).
Proof.
  intros s. split; [| done]. intros (Hn & Hg & Hc). split_and!; [| done..].
  simpl. by rewrite length_alter.
Qed.

Lemma createNodeIfNeeded_limits_safe x y z rows cols :
  limits_safe (λ _, True) (createNodeIfNeeded x y z rows cols).
Proof.
  unfold createNodeIfNeeded.
  ob_find r. destruct r as [i |]; [ob_leaf obeys_ret |].
  ob_bind; [apply array_from_limits_safe, array_fill0_limits_safe |].
  ob_bind; [by apply new_grid_limits_safe |].
  ob_bind; [apply push_node_limits_safe |].
  ob_bind; [apply add_address_limits_safe |].
  ob_leaf obeys_ret.
Qed.

Lemma push_rows_loop_limits_safe fuel o rowIndex cc :
  limits_safe (λ _, True) (push_rows_loop fuel o rowIndex cc).
Proof.
  induction fuel as [| fuel IH]; simpl.
  - ob_leaf obeys_ret.
  - ob_bind; [ob_read |].
    destruct (_ <=? _); [| ob_leaf obeys_ret].
    ob_bind; [apply array_fill0_limits_safe |].
    ob_bind; [apply push_row_limits_safe | apply IH].
Qed.

Lemma push_cells_loop_limits_safe fuel l colIndex :
  limits_safe (λ _, True) (push_cells_loop fuel l colIndex).
Proof.
  induction fuel as [| fuel IH]; simpl.
  - ob_leaf obeys_ret.
  - ob_bind; [ob_read |].
    destruct (_ <=? _); [| ob_leaf obeys_ret].
    ob_bind; [apply push_cell_limits_safe | apply IH].
Qed.

Lemma expandMatrixIfNeeded_limits_safe i rowIndex colIndex :
  limits_safe (λ _, True) (expandMatrixIfNeeded i rowIndex colIndex).
Proof.
  unfold expandMatrixIfNeeded.
  ob_bind; [ob_read |].
  ob_bind; [ob_read |].
  eapply obeys_bind with (P := λ _, True); [apply _ | | intros ? ?].
  { eapply obeys_weaken; [ob_leaf cols_of_obeys | done]. }
  ob_bind; [apply push_rows_loop_limits_safe |].
  ob_bind; [ob_read |].
  eapply obeys_bind with (P := λ _, True); [apply _ | | intros ? ?].
  - match goal with |- context [match ?m with [] => _ | _ :: _ => _ end] =>
      destruct m end; [ob_leaf obeys_throw |].
    ob_bind; [ob_read |]. ob_leaf obeys_ret.
  - destruct (_ <=? _); [| ob_leaf obeys_ret].
    apply obeys_for_each; [apply _ |]. intros l.
    apply push_cells_loop_limits_safe.
Qed.

Lemma set_limits_safe x y z rowIndex colIndex v :
  limits_safe (λ _, True) (set x y z rowIndex colIndex v).
Proof.
  unfold set.
  ob_find r.
  eapply obeys_bind with (P := λ _, True); [apply _ | | intros i _].
  { destruct r as [i |]; [ob_leaf obeys_ret |].
    apply createNodeIfNeeded_limits_safe. }
  ob_bind; [apply expandMatrixIfNeeded_limits_safe |].
  ob_bind; [ob_read |].
  ob_bind; [ob_read |].
  destruct (index _ rowIndex); [apply store_cell_limits_safe |].
  ob_leaf obeys_throw.
Qed.

Lemma setMatrix_limits_safe x y z matrix :
  limits_safe (λ _, True) (setMatrix x y z matrix).
Proof.
  unfold setMatrix.
  ob_bind; [ob_read |].
  eapply obeys_bind with (P := λ _, True); [apply _ | | intros ? ?].
  { eapply obeys_weaken; [ob_leaf cols_of_obeys | done]. }
  ob_bind; [apply createNodeIfNeeded_limits_safe |].
  apply set_node_value_limits_safe.
Qed.

Lemma update_limits_safe : limits_safe (λ _, True) update.
Proof.
  unfold update, update_with.
  ob_bind; [ob_leaf this_nodes_obeys |].
  apply obeys_for_each; [apply _ |]. intros n.
  ob_bind; [ob_read |].
  apply obeys_for_each; [apply _ |]. intros l.
  ob_bind; [ob_read |].
  apply obeys_for_each; [apply _ |]. intros c.
  apply store_cell_limits_safe.
Qed.

Lemma limits_safe_fst {A} (Q : A → Prop) (m : M A) s :
  limits_safe Q m → within_limits s → within_limits (fst (m s)).
Proof. intros H. by destruct (H s) as [? _]. Qed.

Lemma call_within_limits c s :
  within_limits s → within_limits (fst (call c s)).
Proof.
  destruct c as [x y z rows cols | x y z | x y z r c | x y z M
                | x y z r c v | x y z |]; unfold call;
    rewrite bind_ret_fst.
  - apply (limits_safe_fst _ _ _ (createNodeIfNeeded_limits_safe _ _ _ _ _)).
  - by rewrite (reads_state _ _ (getAllData_reads x y z)).
  - by rewrite (reads_state _ _ (get_reads x y z r c)).
  - apply (limits_safe_fst _ _ _ (setMatrix_limits_safe _ _ _ _)).
  - apply (limits_safe_fst _ _ _ (set_limits_safe _ _ _ _ _ _)).
  - by rewrite (reads_state _ _ (getDimensions_reads x y z)).
  - apply (limits_safe_fst _ _ _ update_limits_safe).
Qed.

(** *** States of JavaScript *)

Lemma wf_constructor : wf constructor.
Proof. split; [apply refs_ok_constructor | apply within_limits_constructor]. Qed.

Lemma wf_store_ok s : wf s → store_ok s.
Proof. intros [? _]. by apply refs_ok_store_ok. Qed.

Lemma wf_node_ok s x y z : wf s → node_ok s x y z.
Proof.
  intros [Hrefs (_ & Hgl & Hcl)].
  destruct (findNode (this s) x y z) as [i |] eqn:Hfind; [right | by left].
  destruct (findNode_Some _ _ _ _ _ Hfind) as (n & Hn & _).
  destruct (refs_ok_store_ok s Hrefs n) as [g Hg];
    [by eapply list_elem_of_lookup_2 |].
  exists g. split.
  { unfold node_grid. rewrite Hfind. simpl. by rewrite Hn. }
  apply grid_at_Some in Hg as (m & Hm & HF). split.
  - rewrite <- (Forall2_length _ _ _ HF). by eapply Hgl.
  - apply Forall_forall. intros r (k & Hk)%list_elem_of_lookup_1.
    destruct (Forall2_lookup_r _ _ _ _ _ HF Hk) as (l & _ & Hl).
    by eapply Hcl.
Qed.

(** Every call keeps the state well formed, whether it returns or
    throws. *)
Lemma call_wf c s : wf s → wf (fst (call c s)).
Proof.
  intros [? ?]. split; [by apply call_refs_ok | by apply call_within_limits].
Qed.

Lemma calls_wf cs s : wf s → wf (calls cs s).
Proof.
  revert s. induction cs as [| c cs IH]; intros s Hwf; [done |].
  simpl. by apply IH, call_wf.
Qed.

(** ** Cells and the lengths of the rows *)

Lemma cell_row_length g rowIndex colIndex :
  is_Some (cell g rowIndex colIndex) ↔
  0 ≤ rowIndex < Z.of_nat (length g) ∧ 0 ≤ colIndex < row_length g rowIndex.
Proof.
  unfold row_length. split.
  - intros [v (Hrow & Hcol & r & Hr & Hv)%cell_Some].
    pose proof (lookup_lt_Some _ _ _ Hr). pose proof (lookup_lt_Some _ _ _ Hv).
    rewrite index_lookup, Hr by done. lia.
  - intros [[Hr0 Hr1] [Hc0 Hc1]].
    destruct (lookup_lt_is_Some_2 g (Z.to_nat rowIndex)) as [r Hr]; [lia |].
    rewrite index_lookup, Hr in Hc1 by done.
    destruct (lookup_lt_is_Some_2 r (Z.to_nat colIndex)) as [v Hv]; [lia |].
    exists v. apply cell_Some. eauto.
Qed.

(** ** The first row filled up to the limit *)

(** [expandMatrixIfNeeded] at a column that no array has, on a matrix
    that has the row: the first row is filled with zeros up to
    [max_length] cells, then the [push] throws and the other rows are
    left as they were. *)
Lemma expandMatrixIfNeeded_fills_first s i n l0 rest vs0 rowIndex colIndex :
  nodes (this s) !! i = Some n →
  grids s !! value n = Some (l0 :: rest) →
  rows_allocated s (l0 :: rest) →
  cells s !! l0 = Some vs0 →
  rowIndex < Z.of_nat (length (l0 :: rest)) →
  Z.of_nat (length vs0) ≤ max_length ≤ colIndex →
  expandMatrixIfNeeded i rowIndex colIndex s
  = (mkState (this s) (grids s)
             (<[l0 := pad (max_length - 1) vs0]> (cells s)),
     inl RangeError).
Proof.
  intros Hn Hm Hall Hvs0 Hrow Hlimit. unfold expandMatrixIfNeeded.
  rewrite (bind_inr _ _ _ _ _ (node_value_run _ _ _ Hn)).
  rewrite (bind_inr _ _ _ _ _ (grid_of_run _ _ _ Hm)).
  rewrite (bind_inr _ _ _ _ _ (cols_of_run _ _ Hall)).
  rewrite (bind_inr _ _ _ _ _
             (push_rows_loop_noop _ (value n) rowIndex _ s _ Hm Hrow)).
  rewrite (bind_inr _ _ _ _ _ (grid_of_run _ _ _ Hm)).
  rewrite (bind_inr _ _ _ _ (Z.of_nat (length vs0))
             (bind_inr _ _ _ _ _ (row_of_run _ _ _ Hvs0))).
  destruct (Z.leb_spec (Z.of_nat (length vs0)) colIndex) as [_ | ?]; [| lia].
  change (for_each ?body (l0 :: rest)) with (body l0 ;;; for_each body rest).
  apply bind_inl.
  apply push_cells_loop_overflow; [done | done | lia].
Qed.

(** ** The usage example of the class, run *)

(** [setMatrix(0, 0, 0, [[1,2,3],[4,5,6]])], then [set(0, 0, 0, 5, 5, 42)]:
    6 rows of 6 cells, the new ones 0, 42 in the last one, and the
    first cell still 1. *)
Example set_grows_2x3_to_6x6 :
  let s := fst (set 0 0 0 5 5 (Num 42) store_2x3) in
  node_grid s 0 0 0
  = Some [[Num 1; Num 2; Num 3; Num 0; Num 0; Num 0];
          [Num 4; Num 5; Num 6; Num 0; Num 0; Num 0];
          [Num 0; Num 0; Num 0; Num 0; Num 0; Num 0];
          [Num 0; Num 0; Num 0; Num 0; Num 0; Num 0];
          [Num 0; Num 0; Num 0; Num 0; Num 0; Num 0];
          [Num 0; Num 0; Num 0; Num 0; Num 0; Num 42]] ∧
  snd (getDimensions 0 0 0 s) = inr (6, 6) ∧
  snd (get 0 0 0 0 0 s) = inr (Num 1).
Proof. split_and!; reflexivity. Qed.

(** [set(0, 1, 2, 5, 3, 42)] on a new [Memory]: 6 rows of 4 cells. *)
Example set_creates_6x4 :
  let s := fst (set 0 1 2 5 3 (Num 42) constructor) in
  node_grid s 0 1 2 = Some (created_grid 5 3 (Num 42)) ∧
  snd (getDimensions 0 1 2 s) = inr (6, 4) ∧
  usedAddresses (this s) = {["0,1,2"]}.
Proof. split_and!; [reflexivity | reflexivity | by vm_compute]. Qed.

(** [set(0, 0, 0, 0, 4294967295, 2)] after [set(0, 0, 0, 1, 0, 1)] on a
    new [Memory]: the first row is filled up to [max_length] cells, the
    next [push] throws, the second row is as it was. *)
Lemma set_2x1_at_limit :
  set 0 0 0 0 max_length (Num 2) store_2x1
  = (mkState (this store_2x1) (grids store_2x1)
             (<[1%positive := pad (max_length - 1) [Num 0]]>
                (cells store_2x1)),
     inl RangeError).
Proof.
  pose proof max_length_pos as Hmax.
  assert (findNode (this store_2x1) 0 0 0 = Some 0%nat) as Hfind
    by reflexivity.
  rewrite (set_found _ _ _ _ _ _ _ _ Hfind). unfold set_tail.
  apply bind_inl.
  apply (expandMatrixIfNeeded_fills_first store_2x1 0%nat
           (Node 0 0 0 1%positive) 1%positive [2%positive] [Num 0]);
    [reflexivity | reflexivity | | reflexivity | simpl; lia | simpl; lia].
  intros l Hl. repeat (apply elem_of_cons in Hl as [-> | Hl]);
    [by eexists.. | by apply elem_of_nil in Hl].
Qed.

(** * The claims *)

(** A matrix given by its rows is within the limits of arrays. *)
Ltac fits_tac :=
  split; [| repeat constructor]; unfold max_length; simpl; lia.

(** C1, as the code has it.  When the rows of the node's matrix are
    pairwise distinct arrays (or the address has no node yet and
    [this.nodes] has room for one) and the indices are below
    [max_length], a value written by [set] at [(r0, c0)] is what [get]
    returns there after a second [set] at [(r1, c1)] with [r1 > r0] or
    [c1 > c0].  And in any case, whether it returns or throws,
    [expandMatrixIfNeeded] keeps every row at its place and every cell
    of it at its place: it only adds rows after the last one and cells
    after the last one of a row. *)
Theorem growth_keeps_written_values :
  (∀ s x y z r0 c0 v0 r1 c1 v1,
     0 ≤ r0 < max_length → 0 ≤ c0 < max_length →
     0 ≤ r1 < max_length → 0 ≤ c1 < max_length →
     r0 < r1 ∨ c0 < c1 →
     node_ok s x y z → has_room s x y z → rows_distinct s x y z →
     ∃ s1 s2, set x y z r0 c0 v0 s = (s1, inr tt) ∧
              set x y z r1 c1 v1 s1 = (s2, inr tt) ∧
              get x y z r0 c0 s2 = (s2, inr v0)) ∧
  (∀ s i n g rowIndex colIndex,
     nodes (this s) !! i = Some n →
     grid_at s (value n) = Some g →
     ∃ g', grid_at (fst (expandMatrixIfNeeded i rowIndex colIndex s)) (value n)
           = Some g' ∧
           grid_extends g g').
Proof.
  split; [| apply expandMatrixIfNeeded_extends].
  intros s x y z r0 c0 v0 r1 c1 v1 Hr0 Hc0 Hr1 Hc1 Hgt Hok Hroom Hdist.
  destruct (set_entry s x y z r0 c0 v0 Hok)
    as (s0 & i & n & m & Hset & Hholds & _ & Hw & Hnew).
  { apply (can_create_set s x y z); [done | lia | lia]. }
  assert (NoDup m) as Hnd.
  { destruct Hnew as [-> | (_ & _ & _ & _ & ? & _)]; [| done].
    destruct Hdist as [Hnone | (i' & n' & m' & Hholds' & Hnd)].
    - destruct Hholds as [? _]. congruence.
    - by destruct (holds_unique _ _ _ _ _ _ _ _ _ _ Hholds Hholds')
        as (_ & _ & ->). }
  destruct Hholds as (Hfind & Hn & Hm & Hall).
  destruct (set_tail_distinct s0 i n m r0 c0 v0 Hn Hm Hall Hnd Hr0 Hc0 Hw)
    as (s1 & m1 & lr & vs & Hrun1 & Ht1 & Hm1 & Hall1 & Hw1 & Hnd1 & Hlr
        & Hvs & Hv & _).
  assert (nodes (this s1) !! i = Some n) as Hn1 by (by rewrite Ht1).
  destruct (set_tail_distinct s1 i n m1 r1 c1 v1 Hn1 Hm1 Hall1 Hnd1 Hr1 Hc1 Hw1)
    as (s2 & m2 & lr2 & vs2 & Hrun2 & Ht2 & Hm2 & Hall2 & _ & _ & _ & _ & _
        & Hkeep).
  destruct (Hkeep _ _ _ _ _ Hlr Hvs Hv) as (Hlr' & vs' & Hvs' & Hv'); [lia |].
  assert (findNode (this s1) x y z = Some i) as Hfind1 by (by rewrite Ht1).
  assert (findNode (this s2) x y z = Some i) as Hfind2 by (by rewrite Ht2).
  exists s1, s2. split_and!.
  - congruence.
  - by rewrite (set_found _ _ _ _ _ _ _ _ Hfind1).
  - destruct (rows_allocated_grid s2 m2 Hall2) as [g HF].
    rewrite (get_run s2 x y z r0 c0 i n m2 g); [| done | by rewrite Ht2 | done..].
    destruct (Forall2_lookup_l _ _ _ _ _ HF Hlr') as (r & Hr & Hlr'').
    assert (r = vs') as -> by congruence.
    assert (cell g r0 c0 = Some v0) as ->; [| done].
    apply cell_Some. split_and!; [lia | lia | eauto].
Qed.

Lemma growth_keeps_written_values_witness :
  (∃ s1 s2, set 0 0 0 0 0 (Num 5) store_2x3 = (s1, inr tt) ∧
            set 0 0 0 5 5 (Num 42) s1 = (s2, inr tt) ∧
            get 0 0 0 0 0 s2 = (s2, inr (Num 5))) ∧
  (∃ g', grid_at (fst (expandMatrixIfNeeded 0 5 5 store_2x3)) 1%positive
         = Some g' ∧
         grid_extends [[Num 1; Num 2; Num 3]; [Num 4; Num 5; Num 6]] g').
Proof.
  destruct growth_keeps_written_values as [Hset Hexpand]. split.
  - apply Hset; try (unfold max_length; lia).
    + right. exists [[Num 1; Num 2; Num 3]; [Num 4; Num 5; Num 6]].
      split; [reflexivity | fits_tac].
    + left. vm_compute. eauto.
    + right.
      exists 0%nat, (Node 0 0 0 1%positive), [1%positive; 2%positive].
      split.
      * split_and!; try reflexivity.
        intros l Hl. repeat (apply elem_of_cons in Hl as [-> | Hl]);
          [vm_compute; eauto.. | by apply elem_of_nil in Hl].
      * apply NoDup_cons. split; [by intros ?%list_elem_of_singleton |].
        apply NoDup_singleton.
  - apply (Hexpand store_2x3 0%nat (Node 0 0 0 1%positive)); reflexivity.
Defined.

(** C1 as stated fails when one array is two rows of the matrix: after
    [setMatrix(0, 0, 0, [r, r])], [set(0, 0, 0, 0, 0, 5)] and
    [set(0, 0, 0, 1, 0, 7)], [get(0, 0, 0, 0, 0)] returns 7. *)
Lemma shared_row_loses_written_value :
  let s := fst (setMatrix 0 0 0 1%positive heap_shared_row) in
  ∃ s1 s2, set 0 0 0 0 0 (Num 5) s = (s1, inr tt) ∧
           set 0 0 0 1 0 (Num 7) s1 = (s2, inr tt) ∧
           get 0 0 0 0 0 s2 = (s2, inr (Num 7)) ∧
           snd (get 0 0 0 0 0 s2) ≠ inr (Num 5).
Proof.
  eexists _, _. split_and!; [reflexivity | reflexivity | reflexivity |].
  vm_compute. discriminate.
Qed.

(** C2, as the code has it.  From an address without a node, in a store
    with room for one, after each call of a sequence of [set] calls at
    non-negative indices below [max_length] the calls so far have all
    returned and every row of the node's matrix is as long as every
    other row. *)
Theorem sets_rectangular s x y z ws k :
  findNode (this s) x y z = None →
  Z.of_nat (length (nodes (this s))) < max_length →
  Forall (λ w, 0 ≤ w.1.1 < max_length ∧ 0 ≤ w.1.2 < max_length) ws →
  (0 < k ≤ length ws)%nat →
  ∃ s' g, sets x y z (take k ws) s = (s', inr tt) ∧
          node_grid s' x y z = Some g ∧ rectangular g.
Proof.
  intros Hfind Hroom Hws Hk.
  destruct ws as [| [[r c] v] ws]; [simpl in Hk; lia |].
  destruct k as [| k]; [lia |]. simpl in Hk.
  apply Forall_cons in Hws as [[Hr Hc] Hws]. simpl in Hr, Hc.
  destruct (set_entry s x y z r c v)
    as (s0 & i & n & m & Hset & Hholds & _ & _ & Hnew); [by left | |].
  { intros _. unfold can_create. lia. }
  destruct Hnew as [-> | (_ & _ & _ & Hlen & Hnd & Hz)].
  { destruct Hholds as [? _]. congruence. }
  destruct Hholds as (Hfind0 & Hn & Hm & Hall).
  assert (row_lengths s0 i (c + 1)) as Hrect0.
  { exists n, m. split_and!; [done.. |]. intros l Hin.
    exists (zeros (c + 1)). split; [by apply Hz |]. apply zeros_length. lia. }
  destruct (set_tail_row_lengths s0 i _ r c v Hrect0 ltac:(lia) Hr Hc)
    as (s1 & w1 & Hrun1 & Ht1 & Hrect1 & Hw1).
  destruct (sets_row_lengths s1 x y z i w1 (take k ws))
    as (s' & w' & Hrun' & Ht' & Hrect'); [by rewrite Ht1 | done | done | |].
  { by apply Forall_take. }
  destruct (row_lengths_rectangular s' x y z i w') as (g & Hg & Hrectg);
    [by rewrite Ht', Ht1 | done |].
  exists s', g. split_and!; [| done..].
  rewrite <- Hset in Hrun1.
  unfold sets. simpl. by rewrite (bind_inr _ _ _ _ _ Hrun1).
Qed.

Lemma sets_rectangular_witness :
  ∃ s' g, sets 0 1 2 (take 2 [(5, 3, Num 42); (0, 7, Num 1); (9, 0, Num 2)])
               store_2x3 = (s', inr tt) ∧
          node_grid s' 0 1 2 = Some g ∧ rectangular g.
Proof.
  apply sets_rectangular.
  - reflexivity.
  - by vm_compute.
  - repeat constructor; unfold max_length; simpl; lia.
  - simpl. lia.
Defined.

(** C2 as stated fails at a column that no array has: after
    [set(0, 0, 0, 1, 0, 1)] on a new [Memory], two rows of one cell,
    [set(0, 0, 0, 0, 4294967295, 2)] fills the first row up to
    [max_length] cells, throws a RangeError at the next [push], and
    leaves the second row with its one cell. *)
Lemma set_beyond_limit_ragged :
  let s := fst (set 0 0 0 0 max_length (Num 2) store_2x1) in
  snd (set 0 0 0 0 max_length (Num 2) store_2x1) = inl RangeError ∧
  ∃ r0 r1, node_grid s 0 0 0 = Some [r0; r1] ∧
           Z.of_nat (length r0) = max_length ∧ length r1 = 1%nat ∧
           ¬ rectangular [r0; r1].
Proof.
  pose proof max_length_pos as Hmax.
  rewrite set_2x1_at_limit. cbv zeta. split; [done |].
  exists (pad (max_length - 1) [Num 0]), [Num 1].
  assert (Z.of_nat (length (pad (max_length - 1) [Num 0])) = max_length)
    as Hlen.
  { rewrite pad_length. simpl length. lia. }
  split_and!; [| done | done |].
  - apply node_grid_Some.
    exists 0%nat, (Node 0 0 0 1%positive), [1%positive; 2%positive].
    split_and!; [reflexivity.. |].
    apply Forall2_cons. split; [apply lookup_insert_eq |].
    apply Forall2_cons. split; [| apply Forall2_nil_2].
    unfold fst, cells at 1. by rewrite lookup_insert_ne.
  - intros Hrect.
    assert (length (pad (max_length - 1) [Num 0]) = length [Num 1]) as Heq.
    { apply Hrect; [by left | right; by left]. }
    rewrite Heq in Hlen. simpl in Hlen. lia.
Qed.

(** C3.  [setMatrix(x, y, z, matrix)], for a [matrix] that is one of
    arrays, returns when the address has a node or [this.nodes] has
    room for one; and whenever it returns, [getAllData(x, y, z)]
    returns [matrix] itself, and the matrix it designates is the one it
    designated before, whether the address had a node or not. *)
Theorem setMatrix_getAllData s x y z matrix g :
  grid_at s matrix = Some g →
  (fits g → has_room s x y z →
   ∃ s', setMatrix x y z matrix s = (s', inr tt)) ∧
  (∀ s', setMatrix x y z matrix s = (s', inr tt) →
         getAllData x y z s' = (s', inr matrix) ∧
         grid_at s' matrix = Some g).
Proof.
  intros Hg. pose proof Hg as (m & Hm & HF)%grid_at_Some.
  pose proof (rows_allocated_Forall2 _ _ _ HF) as Hall. split.
  - intros Hfits Hroom. destruct (fits_width s m g HF Hfits) as [Hlen Hw].
    destruct (setMatrix_run s x y z matrix m Hm Hall) as (s' & _ & _ & Hrun & _).
    { destruct Hroom as [? | Hroom]; [by left | right].
      pose proof (width_nonneg s m). unfold can_create. lia. }
    eauto.
  - intros s' Hrun.
    pose proof (setMatrix_returns s x y z matrix m s' Hm Hall Hrun) as Hcan.
    destruct (setMatrix_run s x y z matrix m Hm Hall Hcan)
      as (s'' & i & n & Hrun' & Hfind & Hn & Hv & Hm' & Hcells).
    assert (s'' = s') as -> by congruence. split.
    + rewrite <- Hv. by apply (getAllData_run _ _ _ _ i).
    + eapply grid_at_frame; [| done..]. congruence.
Qed.

Lemma setMatrix_getAllData_witness :
  ∃ s', setMatrix 0 0 0 1%positive heap_2x3 = (s', inr tt) ∧
        getAllData 0 0 0 s' = (s', inr 1%positive) ∧
        grid_at s' 1%positive
        = Some [[Num 1; Num 2; Num 3]; [Num 4; Num 5; Num 6]].
Proof.
  destruct (setMatrix_getAllData heap_2x3 0 0 0 1%positive
              [[Num 1; Num 2; Num 3]; [Num 4; Num 5; Num 6]] eq_refl)
    as [Hreturns Hround].
  destruct Hreturns as [s' Hrun].
  - fits_tac.
  - right. by vm_compute.
  - exists s'. split; [done |]. by apply Hround.
Defined.

(** C4, as the code has it.  [set] at a non-negative row and column
    below [max_length] never throws, on a node that is there or that
    [this.nodes] has room for: it creates the node when there is none,
    as [rowIndex + 1] rows of [colIndex + 1] zeros, expands the matrix of
    the node when needed, and afterwards the cell holds the value.  At
    a non-negative row and column of which one is [max_length] or more
    it throws a RangeError.  It never checks its indices: at a negative
    row it throws a TypeError; at a negative column (and a row that it
    can reach) it returns as usual, unless there is no node yet and the
    column is below -1: then it throws a RangeError and creates
    nothing. *)
Theorem set_total :
  (∀ s x y z rowIndex colIndex v,
     0 ≤ rowIndex < max_length → 0 ≤ colIndex < max_length →
     node_ok s x y z → has_room s x y z →
     ∃ s' g, set x y z rowIndex colIndex v s = (s', inr tt) ∧
             node_grid s' x y z = Some g ∧
             cell g rowIndex colIndex = Some v ∧
             (findNode (this s) x y z = None →
              g = created_grid rowIndex colIndex v)) ∧
  (∀ s x y z rowIndex colIndex v,
     0 ≤ rowIndex → 0 ≤ colIndex →
     max_length ≤ rowIndex ∨ max_length ≤ colIndex →
     node_ok s x y z →
     snd (set x y z rowIndex colIndex v s) = inl RangeError) ∧
  (∀ s x y z rowIndex colIndex v,
     rowIndex < 0 → colIndex < max_length →
     node_ok s x y z → has_room s x y z →
     snd (set x y z rowIndex colIndex v s) = inl TypeError) ∧
  (∀ s x y z rowIndex colIndex v,
     0 ≤ rowIndex < max_length → colIndex < 0 →
     node_ok s x y z → has_room s x y z →
     (findNode (this s) x y z = None ∧ colIndex < -1 →
      set x y z rowIndex colIndex v s = (s, inl RangeError)) ∧
     (¬ (findNode (this s) x y z = None ∧ colIndex < -1) →
      snd (set x y z rowIndex colIndex v s) = inr tt)).
Proof.
  split_and!.
  - intros s x y z rowIndex colIndex v Hrow Hcol Hok Hroom.
    destruct (set_nonnegative_run s x y z rowIndex colIndex v Hrow Hcol Hok
                Hroom) as (s' & g & Hrun & Hg & Hv).
    exists s', g. split_and!; [done.. |]. intros Hnone.
    destruct (set_unused_run s x y z rowIndex colIndex v Hnone)
      as (s'' & Hrun' & Hg'); [| lia | lia |].
    { apply (can_create_set s x y z); [done | lia | lia | done]. }
    congruence.
  - apply set_beyond_limit.
  - apply set_negative_row.
  - apply set_negative_col.
Qed.

Lemma set_total_witness :
  (∃ s' g, set 0 1 2 5 3 (Num 42) store_2x3 = (s', inr tt) ∧
           node_grid s' 0 1 2 = Some g ∧
           cell g 5 3 = Some (Num 42) ∧
           (findNode (this store_2x3) 0 1 2 = None →
            g = created_grid 5 3 (Num 42))) ∧
  snd (set 0 0 0 0 max_length (Num 42) store_2x3) = inl RangeError ∧
  snd (set 0 0 0 (-1) 5 (Num 42) store_2x3) = inl TypeError ∧
  snd (set 0 0 0 1 (-3) (Num 42) store_2x3) = inr tt ∧
  set 0 1 2 1 (-3) (Num 42) store_2x3 = (store_2x3, inl RangeError).
Proof.
  assert (node_ok store_2x3 0 1 2) as Hnew by (by left).
  assert (node_ok store_2x3 0 0 0) as Hold.
  { right. exists [[Num 1; Num 2; Num 3]; [Num 4; Num 5; Num 6]].
    split; [reflexivity | fits_tac]. }
  assert (∀ x y z, has_room store_2x3 x y z) as Hroom.
  { intros x y z. right. by vm_compute. }
  destruct set_total as (Hnonneg & Hlimit & Hrow & Hcol). split_and!.
  - apply Hnonneg; [unfold max_length; lia.. | done | done].
  - apply Hlimit; [lia | unfold max_length; lia | right; lia | done].
  - apply Hrow; [lia | unfold max_length; lia | done | done].
  - apply (Hcol store_2x3 0 0 0 1 (-3));
      [unfold max_length; lia | lia | done | done |].
    intros [H _]. discriminate H.
  - apply (Hcol store_2x3 0 1 2 1 (-3));
      [unfold max_length; lia | lia | done | done |].
    split; [reflexivity | lia].
Defined.

(** C4 as stated fails: [set(0, 0, 0, 0, -1, 5)] on a new [Memory]
    throws nothing at all, what the other negative indices throw is a
    TypeError or a RangeError of the engine, and at the non-negative
    column 4294967295 [set] throws too. *)
Lemma set_negative_index_unchecked :
  snd (set 0 0 0 0 (-1) (Num 5) constructor) = inr tt ∧
  node_grid (fst (set 0 0 0 0 (-1) (Num 5) constructor)) 0 0 0 = Some [[]] ∧
  snd (set 0 0 0 (-1) 0 (Num 5) constructor) = inl TypeError ∧
  snd (set 0 0 0 0 (-2) (Num 5) constructor) = inl RangeError ∧
  set 0 0 0 0 4294967295 (Num 1) constructor = (constructor, inl RangeError).
Proof. split_and!; reflexivity. Qed.

(** C5, as the code has it.  A call that throws "Invalid address" or
    "Index out of bounds", or a RangeError when it is to create a node
    and [this.nodes] has room for it, leaves the whole state as it was.
    (Not covered are the TypeError of a [set] at a negative row, which
    comes after the node was created or the columns were expanded, and
    the RangeError of a [set] that expands the matrix of a node up to
    [max_length], which comes after the expansion.) *)
Theorem error_keeps_state c s e :
  snd (call c s) = inl e → e ≠ TypeError →
  (e = RangeError → creates c s) →
  fst (call c s) = s.
Proof.
  destruct c as [x y z rows cols | x y z | x y z r c | x y z M
                | x y z r c v | x y z |]; unfold call;
    intros He%bind_ret_inl Hne Hcreates; rewrite bind_ret_fst.
  - apply createNodeIfNeeded_exn in He as (-> & _ & Hsame).
    apply Hsame. by destruct (Hcreates eq_refl).
  - apply reads_state, getAllData_reads.
  - apply reads_state, get_reads.
  - apply setMatrix_exn in He as [-> | (-> & _ & Hsame)]; [done |].
    apply Hsame. by destruct (Hcreates eq_refl).
  - apply set_exn in He as [-> | (-> & Hsame)]; [done |].
    destruct (Hcreates eq_refl) as [Hnone Hroom]. by apply Hsame.
  - apply reads_state, getDimensions_reads.
  - destruct (on_arrays_exn _ _ _ _ update_on_arrays He) as [-> | ->];
      [done | by destruct (Hcreates eq_refl)].
Qed.

Lemma error_keeps_state_witness :
  fst (call (Get 0 0 0 3 0) store_3x2) = store_3x2 ∧
  fst (call (GetAllData 1 1 1) store_3x2) = store_3x2 ∧
  fst (call (SetCell 1 1 1 0 (-2) (Num 1)) store_3x2) = store_3x2 ∧
  fst (call (SetCell 1 1 1 0 4294967295 (Num 1)) store_3x2) = store_3x2.
Proof.
  assert (∀ r c v, creates (SetCell 1 1 1 r c v) store_3x2) as Hcreates.
  { intros r c v. split; [reflexivity | by vm_compute]. }
  split_and!.
  - apply (error_keeps_state _ _ (Error "Index out of bounds"));
      [reflexivity | discriminate | discriminate].
  - apply (error_keeps_state _ _ (Error "Invalid address"));
      [reflexivity | discriminate | discriminate].
  - apply (error_keeps_state _ _ RangeError);
      [reflexivity | discriminate | done].
  - apply (error_keeps_state _ _ RangeError);
      [reflexivity | discriminate | done].
Defined.

(** C5 as stated fails: [set(0, 0, 0, -1, 0, 5)] on a new [Memory]
    throws, and the node it created on the way stays in the store.  And
    a RangeError is no sign of an unchanged state either:
    [set(0, 0, 0, 0, 4294967295, 2)] after [set(0, 0, 0, 1, 0, 1)] throws
    one with the first row [max_length] cells long. *)
Lemma set_negative_row_not_atomic :
  (let r := call (SetCell 0 0 0 (-1) 0 (Num 5)) constructor in
   snd r = inl TypeError ∧
   fst r ≠ constructor ∧
   nodes (this (fst r)) = [Node 0 0 0 1%positive] ∧
   "0,0,0" ∈ usedAddresses (this (fst r))) ∧
  (let r := call (SetCell 0 0 0 0 max_length (Num 2)) store_2x1 in
   snd r = inl RangeError ∧
   fst r ≠ store_2x1 ∧
   ∃ vs, cells (fst r) !! 1%positive = Some vs ∧
         Z.of_nat (length vs) = max_length).
Proof.
  split.
  - split_and!.
    + reflexivity.
    + intros H. apply (f_equal (λ s, nodes (this s))) in H. discriminate H.
    + reflexivity.
    + vm_compute. reflexivity.
  - pose proof max_length_pos as Hmax. cbv zeta. unfold call.
    assert (Z.of_nat (length (pad (max_length - 1) [Num 0])) = max_length)
      as Hlen.
    { rewrite pad_length. simpl length. lia. }
    unfold bind. rewrite set_2x1_at_limit. split_and!; [done | |].
    + intros H. apply (f_equal (λ s, cells s !! 1%positive)) in H.
      unfold fst, cells at 1 in H. rewrite lookup_insert_eq in H.
      change (cells store_2x1 !! 1%positive) with (Some [Num 0]) in H.
      apply (inj Some) in H. rewrite H in Hlen. simpl in Hlen. lia.
    + eexists. split; [apply lookup_insert_eq | done].
Qed.

(** C6, as the code has it.  [get] leaves the state as it is.  Without
    a node at the address it throws "Invalid address".  With a node, it
    returns the cell at [(rowIndex, colIndex)] when the matrix has one
    and throws "Index out of bounds" when it has none: that is, exactly
    when [rowIndex] is outside [0, rows) or [colIndex] is outside
    [0, length of the row rowIndex), where [rows] is the number of rows
    [getDimensions] reports.  The number of columns [getDimensions]
    reports is the length of the first row; for a rectangular matrix it
    is the length of every row, and the cell is there exactly when
    [0 ≤ rowIndex < rows] and [0 ≤ colIndex < cols]. *)
Theorem get_spec s x y z rowIndex colIndex :
  fst (get x y z rowIndex colIndex s) = s ∧
  (findNode (this s) x y z = None →
   snd (get x y z rowIndex colIndex s) = inl (Error "Invalid address")) ∧
  (∀ g, node_grid s x y z = Some g →
        snd (get x y z rowIndex colIndex s)
        = match cell g rowIndex colIndex with
          | Some v => inr v
          | None => inl (Error "Index out of bounds")
          end ∧
        snd (getDimensions x y z s)
        = inr (Z.of_nat (length g), first_row_length g) ∧
        (snd (get x y z rowIndex colIndex s)
         = inl (Error "Index out of bounds")
         ↔ ¬ (0 ≤ rowIndex < Z.of_nat (length g) ∧
              0 ≤ colIndex < row_length g rowIndex))) ∧
  (∀ g rows cols,
     node_grid s x y z = Some g → rectangular g →
     snd (getDimensions x y z s) = inr (rows, cols) →
     (snd (get x y z rowIndex colIndex s) = inl (Error "Index out of bounds")
      ↔ ¬ (0 ≤ rowIndex < rows ∧ 0 ≤ colIndex < cols)) ∧
     (0 ≤ rowIndex < rows ∧ 0 ≤ colIndex < cols →
      ∃ v, cell g rowIndex colIndex = Some v ∧
           snd (get x y z rowIndex colIndex s) = inr v)).
Proof.
  split_and!.
  - apply reads_state, get_reads.
  - intros Hfind. unfold get, bind, this_findNode. by rewrite Hfind.
  - intros g (i & n & m & Hi & Hn & Hm & Hg)%node_grid_Some.
    rewrite (getDimensions_run s x y z i n m g) by done.
    rewrite (get_run s x y z rowIndex colIndex i n m g) by done.
    split_and!; [done.. |]. simpl.
    rewrite <- (cell_row_length g rowIndex colIndex).
    destruct (cell g rowIndex colIndex) as [v |]; split.
    + done.
    + intros []. eauto.
    + by intros _ [? ?].
    + done.
  - intros g rows cols Hgrid Hrect.
    pose proof Hgrid as (i & n & m & Hi & Hn & Hm & Hg)%node_grid_Some.
    rewrite (getDimensions_run s x y z i n m g) by done.
    rewrite (get_run s x y z rowIndex colIndex i n m g) by done.
    simpl. intros [= <- <-].
    rewrite <- (cell_in_bounds g rowIndex colIndex Hrect).
    destruct (cell g rowIndex colIndex) as [v |]; split.
    + split; [done |]. intros []. eauto.
    + eauto.
    + split; [| done]. by intros _ [? ?].
    + by intros [? ?].
Qed.

Lemma get_spec_witness :
  snd (get 0 0 0 3 0 store_3x2) = inl (Error "Index out of bounds") ∧
  snd (get 0 0 0 0 2 store_3x2) = inl (Error "Index out of bounds") ∧
  snd (get 0 0 0 2 1 store_3x2) = inr (Num 7) ∧
  snd (get 1 1 1 0 0 store_3x2) = inl (Error "Invalid address") ∧
  snd (get 0 0 0 1 1 store_12_3) = inl (Error "Index out of bounds").
Proof.
  set (g := [[Num 0; Num 0]; [Num 0; Num 0]; [Num 0; Num 7]]).
  assert (node_grid store_3x2 0 0 0 = Some g) as Hg by reflexivity.
  assert (rectangular g) as Hrect.
  { intros r1 r2 H1 H2. subst g.
    repeat (apply elem_of_cons in H1 as [-> | H1]);
      repeat (apply elem_of_cons in H2 as [-> | H2]);
      try done; by apply elem_of_nil in H1 || by apply elem_of_nil in H2. }
  assert (snd (getDimensions 0 0 0 store_3x2) = inr (3, 2)) as Hd by reflexivity.
  split_and!.
  - destruct (get_spec store_3x2 0 0 0 3 0) as (_ & _ & _ & H).
    apply (H g 3 2 Hg Hrect Hd). lia.
  - destruct (get_spec store_3x2 0 0 0 0 2) as (_ & _ & _ & H).
    apply (H g 3 2 Hg Hrect Hd). lia.
  - destruct (get_spec store_3x2 0 0 0 2 1) as (_ & _ & H & _).
    apply (H g Hg).
  - destruct (get_spec store_3x2 1 1 1 0 0) as (_ & H & _).
    apply H. reflexivity.
  - destruct (get_spec store_12_3 0 0 0 1 1) as (_ & _ & H & _).
    apply (H [[Num 1; Num 2]; [Num 3]] eq_refl).
    unfold row_length. simpl. lia.
Defined.

(** C6 as stated fails on a matrix whose rows have different lengths,
    as [setMatrix] stores them: with [[1], [2, 3]], of dimensions
    (2, 1), [get(0, 0, 0, 1, 1)] returns 3 although the column 1 is
    outside [0, 1); with [[1, 2], [3]], of dimensions (2, 2), it throws
    "Index out of bounds" although the row and the column are within
    [0, 2). *)
Lemma get_ragged_not_by_dimensions :
  snd (getDimensions 0 0 0 store_1_23) = inr (2, 1) ∧
  snd (get 0 0 0 1 1 store_1_23) = inr (Num 3) ∧
  snd (getDimensions 0 0 0 store_12_3) = inr (2, 2) ∧
  snd (get 0 0 0 1 1 store_12_3) = inl (Error "Index out of bounds").
Proof. split_and!; reflexivity. Qed.



(** C8.  A [set] repeated with the same arguments changes nothing:
    whenever the first call returns, as it does at indices below
    [max_length] on a node that is there or that [this.nodes] has room
    for, the second call returns and the state after it is the state
    after the first.  And [expandMatrixIfNeeded] at a row and a column
    within the dimensions of the matrix changes nothing either. *)
Theorem set_idempotent :
  (∀ s x y z rowIndex colIndex v,
     0 ≤ rowIndex → 0 ≤ colIndex → node_ok s x y z →
     (rowIndex < max_length → colIndex < max_length → has_room s x y z →
      ∃ s1, set x y z rowIndex colIndex v s = (s1, inr tt)) ∧
     (∀ s1, set x y z rowIndex colIndex v s = (s1, inr tt) →
            set x y z rowIndex colIndex v s1 = (s1, inr tt))) ∧
  (∀ s i n g rowIndex colIndex,
     nodes (this s) !! i = Some n → grid_at s (value n) = Some g →
     0 ≤ rowIndex < Z.of_nat (length g) →
     0 ≤ colIndex < first_row_length g →
     expandMatrixIfNeeded i rowIndex colIndex s = (s, inr tt)).
Proof.
  split.
  - intros s x y z rowIndex colIndex v Hrow Hcol Hok. split.
    + intros Hr Hc Hroom.
      destruct (set_nonnegative_run s x y z rowIndex colIndex v
                  (conj Hrow Hr) (conj Hcol Hc) Hok Hroom)
        as (s1 & g & Hrun & _).
      eauto.
    + intros s1 Hrun.
      destruct (set_returns s x y z rowIndex colIndex v s1 Hrow Hcol Hok Hrun)
        as (Hr & Hc & Hroom).
      destruct (set_entry s x y z rowIndex colIndex v Hok)
        as (s0 & i & n & m & Hset & (Hfind & Hn & Hm & Hall) & _ & Hw & _).
      { apply (can_create_set s x y z); [done | lia | lia]. }
      destruct (set_tail_post s0 i n m rowIndex colIndex v Hn Hm Hall
                  (conj Hrow Hr) (conj Hcol Hc) Hw)
        as (s1' & m1 & lr & vs & Hrun' & Ht & Hm1 & Hall1 & Hlr & Hvs & Hv
            & Hw').
      assert (s1' = s1) as -> by congruence.
      assert (findNode (this s1) x y z = Some i) as Hfind1 by (by rewrite Ht).
      rewrite (set_found _ _ _ _ _ _ _ _ Hfind1).
      eapply set_tail_noop; try done. by rewrite Ht.
  - intros s i n g rowIndex colIndex Hn (m & Hm & Hg)%grid_at_Some Hrow Hcol.
    eapply expandMatrixIfNeeded_noop; try done.
    + by eapply rows_allocated_Forall2.
    + rewrite (Forall2_length _ _ _ Hg). lia.
    + rewrite (width_grid _ _ _ Hg). lia.
    + intros ->. apply Forall2_nil_inv_l in Hg as ->. simpl in Hrow. lia.
Qed.

Lemma set_idempotent_witness :
  (∃ s1, set 0 0 0 5 5 (Num 42) store_2x3 = (s1, inr tt) ∧
         set 0 0 0 5 5 (Num 42) s1 = (s1, inr tt)) ∧
  expandMatrixIfNeeded 0 1 2 store_2x3 = (store_2x3, inr tt).
Proof.
  destruct set_idempotent as [Hset Hexpand]. split.
  - destruct (Hset store_2x3 0 0 0 5 5 (Num 42)) as [Hreturns Hsame];
      [lia | lia | |].
    { right. exists [[Num 1; Num 2; Num 3]; [Num 4; Num 5; Num 6]].
      split; [reflexivity | fits_tac]. }
    destruct Hreturns as [s1 Hrun];
      [unfold max_length; lia | unfold max_length; lia | |].
    { left. vm_compute. eauto. }
    exists s1. split; [done | by apply Hsame].
  - apply (Hexpand store_2x3 0%nat (Node 0 0 0 1%positive)
             [[Num 1; Num 2; Num 3]; [Num 4; Num 5; Num 6]]);
      [reflexivity | reflexivity | simpl; lia | simpl; lia].
Defined.

(** C9.  In a store whose nodes all have their matrix on the heap,
    [update] returns, the nodes and the outer arrays are as before, and
    the matrix of every node has the shape it had, row by row, with
    every cell 1.  The cells are assigned in the order of
    [update_writes]: node after node in the order of [this.nodes], row
    after row, column after column.  Since all the cells get the same
    value this cannot be read off the state [update] ends in; it is
    said of the loops of [update], with the assignment as a parameter:
    whatever an assignment does that keeps the lengths of the arrays,
    as the assignment [l[c] = 1] of [update] does, the loops make the
    assignments one after the other in this order, and stop where one
    throws. *)
Theorem update_sets_ones s :
  store_ok s →
  (∃ s', update s = (s', inr tt) ∧
         this s' = this s ∧ grids s' = grids s ∧
         (∀ n g, n ∈ nodes (this s) → grid_at s (value n) = Some g →
                 grid_at s' (value n) = Some (ones <$> g))) ∧
  update = update_with store_cell ∧
  keeps_shape s store_cell ∧
  (∀ assign, keeps_shape s assign →
             update_with assign s
             = for_each (assign_one assign) (update_writes s) s).
Proof.
  intros Hok.
  assert (∀ n, n ∈ nodes (this s) →
               ∃ m, grids s !! value n = Some m ∧ rows_allocated s m) as Hok'.
  { intros n Hin. destruct (Hok n Hin) as [g Hg]. by eapply grid_at_rows. }
  split_and!; [| done | apply store_cell_keeps_shape
               | intros assign Hkeeps; by apply update_order].
  destruct (update_nodes_run (nodes (this s)) s Hok')
    as (s' & Hrun & Ht & Hg & Hc).
  exists s'. split_and!; [done.. |].
  intros n g Hin (m & Hm & HF)%grid_at_Some. apply grid_at_Some.
  exists m. split; [by rewrite Hg |].
  apply Forall2_fmap_r. apply Forall2_same_length_lookup_2.
  { by eapply Forall2_length. }
  intros k l r Hl Hr.
  pose proof (Forall2_lookup_lr _ _ _ _ _ _ HF Hl Hr) as Hlr.
  rewrite Hc, Hlr. rewrite decide_True; [done |].
  unfold rows_of. apply list_elem_of_bind. exists n. split; [| done].
  rewrite Hm. simpl. by eapply list_elem_of_lookup_2.
Qed.

Lemma update_sets_ones_witness :
  (∃ s', update store_two_nodes = (s', inr tt) ∧
         node_grid s' 0 0 0
         = Some [[Num 1; Num 1; Num 1]; [Num 1; Num 1; Num 1]] ∧
         node_grid s' 1 1 1 = Some [[Num 1; Num 1]]) ∧
  (let s' := fst (update_with (numbered 9%positive) store_counted) in
   node_grid s' 0 0 0 = Some [[Num 0; Num 1; Num 2]; [Num 3; Num 4; Num 5]] ∧
   node_grid s' 1 1 1 = Some [[Num 6; Num 7]]).
Proof.
  split.
  - destruct (update_sets_ones store_two_nodes)
      as ((s' & Hrun & Ht & Hg & Hones) & _).
    + intros n Hin. vm_compute in Hin.
      repeat (apply elem_of_cons in Hin as [-> | Hin]);
        [vm_compute; eauto.. | by apply elem_of_nil in Hin].
    + exists s'. split; [done |].
      pose proof (Hones (Node 0 0 0 1%positive)
                    [[Num 1; Num 2; Num 3]; [Num 4; Num 5; Num 6]]) as H0.
      pose proof (Hones (Node 1 1 1 3%positive) [[Num 0; Num 9]]) as H1.
      unfold node_grid. rewrite Ht. split.
      * apply H0; [vm_compute; left | reflexivity].
      * apply H1; [vm_compute; right; left | reflexivity].
  - destruct (update_sets_ones store_counted) as (_ & _ & _ & Horder).
    + intros n Hin. vm_compute in Hin.
      repeat (apply elem_of_cons in Hin as [-> | Hin]);
        [vm_compute; eauto.. | by apply elem_of_nil in Hin].
    + cbv zeta. rewrite (Horder (numbered 9%positive)).
      * split; reflexivity.
      * apply numbered_keeps_shape.
Defined.

(** C10.  When the store already holds a node at [(x, y, z)],
    [createNodeIfNeeded] returns that node, whatever [rows] and [cols]
    are, and the whole state (the nodes and their order, the index of
    used addresses, every array) is as it was. *)
Theorem createNodeIfNeeded_existing s x y z rows cols n :
  n ∈ nodes (this s) → coords n = (x, y, z) →
  ∃ i n', createNodeIfNeeded x y z rows cols s = (s, inr i) ∧
          nodes (this s) !! i = Some n' ∧ coords n' = (x, y, z).
Proof.
  intros Hin Hn.
  destruct (findNode (this s) x y z) as [i |] eqn:Hfind.
  - destruct (findNode_Some _ _ _ _ _ Hfind) as (n' & Hn' & <- & <- & <-).
    exists i, n'. split; [| done].
    by apply createNodeIfNeeded_found.
  - apply findNode_None in Hfind. destruct Hfind.
    apply list_elem_of_fmap. by exists n.
Qed.

Lemma createNodeIfNeeded_existing_witness :
  ∃ i n', createNodeIfNeeded 0 0 0 7 9 store_2x3 = (store_2x3, inr i) ∧
          nodes (this store_2x3) !! i = Some n' ∧ coords n' = (0, 0, 0).
Proof.
  apply (createNodeIfNeeded_existing store_2x3 0 0 0 7 9 (Node 0 0 0 1%positive)).
  - vm_compute. left.
  - reflexivity.
Defined.

(** * Further properties of the code *)

(** ** Addresses, the index and the list of nodes *)

Lemma findNode_as_coords m x y z :
  findNode m x y z
  = fst <$> list_find (λ c, c = (x, y, z)) (coords <$> nodes m).
Proof.
  unfold findNode. rewrite list_find_fmap.
  rewrite (list_find_ext ((λ c, c = (x, y, z)) ∘ coords)
             (λ n, xx n = x ∧ yy n = y ∧ zz n = z)).
  - by destruct (list_find _ (nodes m)) as [[??] |].
  - intros n. unfold coords. simpl. split.
    + by intros [= <- <- <-].
    + by intros (<- & <- & <-).
Qed.

Lemma findNode_grows m m' x y z i more :
  coords <$> nodes m' = (coords <$> nodes m) ++ more →
  findNode m x y z = Some i → findNode m' x y z = Some i.
Proof.
  intros Heq. rewrite !findNode_as_coords, Heq.
  intros ([j c] & Hfind & ->)%fmap_Some.
  by rewrite (list_find_app_l _ _ _ _ _ Hfind).
Qed.

(** X1.  The address string names the coordinates: two triples have the
    same string exactly when they are the same triple. *)
Theorem generateAddress_names_coordinates x y z x' y' z' :
  generateAddress x y z = generateAddress x' y' z' ↔
  (x, y, z) = (x', y', z').
Proof.
  split.
  - by intros (-> & -> & ->)%generateAddress_inj.
  - by intros [= -> -> ->].
Qed.

Lemma generateAddress_names_coordinates_witness :
  generateAddress 1 23 (-4) ≠ generateAddress 12 3 (-4) ∧
  generateAddress (-1) 0 25 = "-1,0,25".
Proof.
  split; [| reflexivity].
  intros H%generateAddress_names_coordinates. discriminate H.
Defined.

Lemma call_index_ok c s : index_ok s → index_ok (fst (call c s)).
Proof.
  unfold index_ok. intros Hs.
  destruct (call_effect c s) as [[Hn Hu] | (x & y & z & _ & _ & Hn & Hu)].
  - by rewrite Hn, Hu.
  - rewrite Hn, Hu, Hs, fmap_app, list_to_set_app_L. simpl.
    unfold address_of at 2. simpl.
    rewrite (right_id_L ∅ (∪)). apply (comm_L (∪)).
Qed.

Lemma calls_index_ok cs s : index_ok s → index_ok (calls cs s).
Proof.
  revert s. induction cs as [| c cs IH]; intros s Hs; [done |].
  simpl. by apply IH, call_index_ok.
Qed.

Lemma index_ok_findNode s x y z :
  index_ok s →
  generateAddress x y z ∈ usedAddresses (this s) ↔
  is_Some (findNode (this s) x y z).
Proof.
  intros ->. rewrite elem_of_list_to_set, list_elem_of_fmap.
  rewrite <- not_eq_None_Some, findNode_None. split.
  - intros ([[x' y'] z'] & Heq & Hin) Hnot. unfold address_of in Heq.
    simpl in Heq. apply generateAddress_inj in Heq as (-> & -> & ->). done.
  - intros Hin. exists (x, y, z). split; [done |].
    by destruct (decide ((x, y, z) ∈ coords <$> nodes (this s))).
Qed.

(** X2.  The index and the nodes agree, and every call keeps it so,
    also one that throws: an address is in [usedAddresses] exactly when
    [findNode] finds a node at it. *)
Theorem index_matches_nodes s cs x y z :
  index_ok s →
  index_ok (calls cs s) ∧
  (generateAddress x y z ∈ usedAddresses (this (calls cs s)) ↔
   is_Some (findNode (this (calls cs s)) x y z)).
Proof.
  intros Hs%(calls_index_ok cs). split; [done |].
  by apply index_ok_findNode.
Qed.

Lemma index_matches_nodes_witness :
  let s := calls [SetCell 1 2 3 0 0 (Num 7); SetCell 4 5 6 (-1) 0 (Num 7);
                  Get 7 8 9 0 0] constructor in
  index_ok s ∧
  (generateAddress 4 5 6 ∈ usedAddresses (this s) ↔
   is_Some (findNode (this s) 4 5 6)).
Proof. apply index_matches_nodes. reflexivity. Defined.

Lemma call_one_node_per_address c s :
  one_node_per_address s → one_node_per_address (fst (call c s)).
Proof.
  unfold one_node_per_address. intros Hs.
  destruct (call_effect c s) as [[Hn _] | (x & y & z & _ & Hnone & Hn & _)].
  - by rewrite Hn.
  - rewrite Hn. apply NoDup_app. split_and!; [done | | apply NoDup_singleton].
    intros c' Hin ->%list_elem_of_singleton.
    by apply findNode_None in Hnone.
Qed.

Lemma calls_one_node_per_address cs s :
  one_node_per_address s → one_node_per_address (calls cs s).
Proof.
  revert s. induction cs as [| c cs IH]; intros s Hs; [done |].
  simpl. by apply IH, call_one_node_per_address.
Qed.

(** X3.  The store never holds two nodes with the same coordinates,
    whatever is called, so no node hides behind another: [findNode] at
    the coordinates of a node finds this very node. *)
Theorem one_node_at_each_address s cs i n :
  one_node_per_address s →
  one_node_per_address (calls cs s) ∧
  (nodes (this (calls cs s)) !! i = Some n →
   findNode (this (calls cs s)) (xx n) (yy n) (zz n) = Some i).
Proof.
  intros Hs%(calls_one_node_per_address cs). split; [done |].
  set (s' := calls cs s) in *. intros Hn.
  destruct (findNode (this s') (xx n) (yy n) (zz n)) as [j |] eqn:Hfind.
  - destruct (findNode_Some _ _ _ _ _ Hfind) as (n' & Hn' & Hx & Hy & Hz).
    f_equal. apply (NoDup_lookup _ j i (coords n) Hs).
    + rewrite list_lookup_fmap, Hn'. unfold coords. simpl. congruence.
    + by rewrite list_lookup_fmap, Hn.
  - apply findNode_None in Hfind. destruct Hfind.
    apply list_elem_of_fmap. exists n. split; [done |].
    by eapply list_elem_of_lookup_2.
Qed.

Lemma one_node_at_each_address_witness :
  let s := calls [SetCell 1 2 3 0 0 (Num 7); SetMatrix 1 2 3 1%positive;
                  CreateNodeIfNeeded 1 2 3 4 4; SetCell 0 0 0 1 1 (Num 2)]
                 heap_2x3 in
  one_node_per_address s ∧
  nodes (this s) = [Node 1 2 3 1%positive; Node 0 0 0 3%positive] ∧
  findNode (this s) 0 0 0 = Some 1%nat.
Proof.
  destruct (one_node_at_each_address heap_2x3
              [SetCell 1 2 3 0 0 (Num 7); SetMatrix 1 2 3 1%positive;
               CreateNodeIfNeeded 1 2 3 4 4; SetCell 0 0 0 1 1 (Num 2)]
              1%nat (Node 0 0 0 3%positive)) as [Hnodup Hfind].
  - constructor.
  - split_and!; [done | reflexivity | by apply Hfind].
Defined.

Lemma call_nodes_grow c s :
  ∃ more, coords <$> nodes (this (fst (call c s)))
          = (coords <$> nodes (this s)) ++ more.
Proof.
  destruct (call_effect c s) as [[Hn _] | (x & y & z & _ & _ & Hn & _)].
  - exists []. by rewrite app_nil_r.
  - by exists [(x, y, z)].
Qed.

Lemma calls_nodes_grow cs s :
  ∃ more, coords <$> nodes (this (calls cs s))
          = (coords <$> nodes (this s)) ++ more.
Proof.
  revert s. induction cs as [| c cs IH]; intros s.
  - exists []. by rewrite app_nil_r.
  - simpl. destruct (IH (fst (call c s))) as [more2 ->].
    destruct (call_nodes_grow c s) as [more1 ->].
    exists (more1 ++ more2). by rewrite app_assoc.
Qed.

(** X4.  No call removes a node or moves one: the coordinates of the
    nodes before a sequence of calls are the first ones of the list
    after it, in their order, and [findNode] still returns the same
    node for an address that had one. *)
Theorem nodes_stay_in_place s cs :
  (coords <$> nodes (this s)) `prefix_of` (coords <$> nodes (this (calls cs s))) ∧
  ∀ x y z i, findNode (this s) x y z = Some i →
             findNode (this (calls cs s)) x y z = Some i.
Proof.
  destruct (calls_nodes_grow cs s) as [more Hmore]. split.
  - by exists more.
  - intros x y z i. by apply (findNode_grows _ _ _ _ _ _ more).
Qed.

(** ** Dimensions and cells after [set] *)

Lemma set_tail_dimensions s i n m rowIndex colIndex v :
  nodes (this s) !! i = Some n →
  grids s !! value n = Some m →
  rows_allocated s m →
  0 ≤ rowIndex < max_length → 0 ≤ colIndex < max_length →
  width s m ≤ max_length →
  ∃ s' m',
    set_tail i rowIndex colIndex v s = (s', inr tt) ∧
    this s' = this s ∧
    grids s' !! value n = Some m' ∧
    rows_allocated s' m' ∧
    Z.of_nat (length m') = Z.max (Z.of_nat (length m)) (rowIndex + 1) ∧
    width s' m' = Z.max (width s m) (colIndex + 1).
Proof.
  intros Hn Hm Hall Hrow Hcol Hwmax.
  destruct (set_tail_run s i n m rowIndex colIndex v Hn Hm Hall Hrow)
    as (ls & lr & s' & Hrun & Ht & Hg & Hlen & Hnd & Hfresh & Hlr & Hc);
    [lia | done |].
  assert (∀ l, l ∈ m ++ ls →
               ∃ vs, base s m ls l = Some vs ∧
                     cells s' !! l = Some (written_row s m ls lr colIndex v l vs))
    as Hrows.
  { intros l Hin. destruct (base_allocated s m ls l Hall Hin) as [vs Hvs].
    exists vs. split; [done |]. rewrite Hc. by apply written_base. }
  exists s', (m ++ ls). split_and!; [done.. | | | |].
  - rewrite Hg. apply lookup_insert_eq.
  - intros l Hin. destruct (Hrows l Hin) as (? & _ & ->). eauto.
  - rewrite length_app. lia.
  - assert (∃ l0 rest, m ++ ls = l0 :: rest) as (l0 & rest & Heq).
    { destruct (m ++ ls) as [| l0 rest] eqn:E; [| eauto].
      apply (f_equal length) in E. rewrite length_app in E. simpl in E. lia. }
    assert (l0 ∈ m ++ ls) as Hin0 by (rewrite Heq; by left).
    destruct (base_first s m ls l0 rest Hall Hfresh Heq) as (vs0 & Hvs0 & Hlen0).
    destruct (Hrows l0 Hin0) as (vs0' & Hvs0' & Hl0).
    assert (vs0' = vs0) as -> by congruence.
    rewrite Heq. simpl. rewrite Hl0. simpl.
    by apply written_row_length.
Qed.

(** X5.  A [set] at non-negative indices below [max_length] makes the
    dimensions that [getDimensions] reports the larger of what they
    were and what the target needs:
    [(max rows (rowIndex + 1), max cols (colIndex + 1))]; they never
    decrease. *)
Theorem set_dimensions s x y z rowIndex colIndex v rows cols :
  0 ≤ rowIndex < max_length → 0 ≤ colIndex < max_length →
  node_ok s x y z → has_room s x y z →
  snd (getDimensions x y z s) = inr (rows, cols) →
  ∃ s', set x y z rowIndex colIndex v s = (s', inr tt) ∧
        getDimensions x y z s'
        = (s', inr (Z.max rows (rowIndex + 1), Z.max cols (colIndex + 1))).
Proof.
  intros Hrow Hcol Hok Hroom Hdims.
  destruct (set_entry s x y z rowIndex colIndex v Hok)
    as (s0 & i & n & m & Hset & Hholds & _ & Hwmax & Hnew).
  { apply (can_create_set s x y z); [done | lia | lia]. }
  pose proof Hholds as (Hfind & Hn & Hm & Hall).
  assert (Z.max rows (rowIndex + 1)
          = Z.max (Z.of_nat (length m)) (rowIndex + 1) ∧
          Z.max cols (colIndex + 1) = Z.max (width s0 m) (colIndex + 1))
    as [-> ->].
  { destruct Hnew as [-> | (Hnone & _ & _ & Hlen & _ & Hz)].
    - destruct (rows_allocated_grid s m Hall) as [g Hg].
      rewrite (getDimensions_run s x y z i n m g) in Hdims by done.
      simpl in Hdims. injection Hdims as <- <-.
      by rewrite (Forall2_length _ _ _ Hg), (width_grid _ _ _ Hg).
    - unfold getDimensions, bind, this_findNode in Hdims.
      rewrite Hnone in Hdims. simpl in Hdims. injection Hdims as <- <-.
      assert (width s0 m = colIndex + 1) as ->.
      { destruct m as [| l0 m']; [simpl in Hlen; lia |].
        simpl. rewrite (Hz l0) by left. simpl. apply zeros_length. lia. }
      lia. }
  destruct (set_tail_dimensions s0 i n m rowIndex colIndex v Hn Hm Hall Hrow
              Hcol Hwmax)
    as (s' & m' & Hrun & Ht & Hm' & Hall' & Hlen' & Hw').
  exists s'. split; [congruence |].
  destruct (rows_allocated_grid s' m' Hall') as [g' Hg'].
  rewrite (getDimensions_run s' x y z i n m' g');
    [| by rewrite Ht | by rewrite Ht | done..].
  by rewrite (Forall2_length _ _ _ Hg') in Hlen';
    rewrite (width_grid _ _ _ Hg') in Hw'; rewrite Hlen', Hw'.
Qed.

Lemma set_dimensions_witness :
  ∃ s', set 0 0 0 5 1 (Num 42) store_2x3 = (s', inr tt) ∧
        getDimensions 0 0 0 s' = (s', inr (Z.max 2 (5 + 1), Z.max 3 (1 + 1))).
Proof.
  apply set_dimensions; [unfold max_length; lia.. | | | reflexivity].
  - right. exists [[Num 1; Num 2; Num 3]; [Num 4; Num 5; Num 6]].
    split; [reflexivity | fits_tac].
  - left. vm_compute. eauto.
Defined.

(** X6.  What [set] writes at non-negative indices below [max_length],
    [get] reads back at the same indices. *)
Theorem set_then_get s x y z rowIndex colIndex v :
  0 ≤ rowIndex < max_length → 0 ≤ colIndex < max_length →
  node_ok s x y z → has_room s x y z →
  ∃ s', set x y z rowIndex colIndex v s = (s', inr tt) ∧
        get x y z rowIndex colIndex s' = (s', inr v).
Proof.
  intros Hrow Hcol Hok Hroom.
  destruct (set_nonnegative_run s x y z rowIndex colIndex v Hrow Hcol Hok
              Hroom)
    as (s' & g & Hrun & (i & n & m & Hi & Hn & Hm & Hg)%node_grid_Some & Hv).
  exists s'. split; [done |].
  by rewrite (get_run s' x y z rowIndex colIndex i n m g), Hv.
Qed.

Lemma set_then_get_witness :
  ∃ s', set 3 (-1) 0 4 2 (Num 8) store_2x3 = (s', inr tt) ∧
        get 3 (-1) 0 4 2 s' = (s', inr (Num 8)).
Proof.
  apply set_then_get; [unfold max_length; lia.. | by left |].
  right. by vm_compute.
Defined.

Lemma rectangular_row_lengths s x y z i n m g :
  holds s x y z i n m →
  Forall2 (λ l r, cells s !! l = Some r) m g →
  rectangular g →
  row_lengths s i (first_row_length g).
Proof.
  intros (_ & Hn & Hm & _) Hg Hrect. exists n, m. split_and!; [done.. |].
  intros l (k & Hk)%list_elem_of_lookup_1.
  destruct (Forall2_lookup_l _ _ _ _ _ Hg Hk) as (r & Hr & Hlr).
  exists r. split; [done |]. by eapply rectangular_row_length.
Qed.

(** X7.  A [set] at non-negative indices below [max_length] keeps a
    rectangular matrix rectangular, whatever node it is: one the store
    created or one put there by [setMatrix], its rows distinct arrays
    or not. *)
Theorem set_keeps_rectangular s x y z rowIndex colIndex v g :
  node_grid s x y z = Some g → rectangular g → fits g →
  0 ≤ rowIndex < max_length → 0 ≤ colIndex < max_length →
  ∃ s' g', set x y z rowIndex colIndex v s = (s', inr tt) ∧
           node_grid s' x y z = Some g' ∧ rectangular g'.
Proof.
  intros Hgrid Hrect Hfits Hrow Hcol.
  destruct (node_grid_holds _ _ _ _ _ Hgrid) as (i & n & m & Hholds & Hg).
  pose proof (rectangular_row_lengths _ _ _ _ _ _ _ _ Hholds Hg Hrect) as Hlens.
  destruct (fits_width s m g Hg Hfits) as [_ Hw].
  rewrite (width_grid _ _ _ Hg) in Hw.
  destruct Hholds as (Hfind & _).
  destruct (set_tail_row_lengths s i _ rowIndex colIndex v Hlens Hw Hrow Hcol)
    as (s' & w' & Hrun & Ht & Hlens' & _).
  destruct (row_lengths_rectangular s' x y z i w') as (g' & Hg' & Hrect');
    [by rewrite Ht | done |].
  exists s', g'. split_and!; [| done..].
  by rewrite (set_found _ _ _ _ _ _ _ _ Hfind).
Qed.

Lemma set_keeps_rectangular_witness :
  ∃ s' g', set 0 0 0 0 1 (Num 3)
               (fst (setMatrix 0 0 0 1%positive heap_shared_row))
           = (s', inr tt) ∧
           node_grid s' 0 0 0 = Some g' ∧ rectangular g'.
Proof.
  apply (set_keeps_rectangular _ _ _ _ _ _ _ [[Num 0; Num 0]; [Num 0; Num 0]]);
    [reflexivity | | fits_tac | unfold max_length; lia..].
  intros r1 r2 H1 H2.
  repeat (apply elem_of_cons in H1 as [-> | H1]);
    repeat (apply elem_of_cons in H2 as [-> | H2]);
    try done; by apply elem_of_nil in H1 || by apply elem_of_nil in H2.
Defined.

(** ** The node's array under [set] and [setMatrix] *)

(** X8.  [set] works in place: whatever it does, return or throw, the
    outer array of a node that was there is still the node's matrix
    afterwards, the very array [getAllData] returned before. *)
Theorem set_keeps_outer_array s x y z rowIndex colIndex v o :
  getAllData x y z s = (s, inr o) →
  getAllData x y z (fst (set x y z rowIndex colIndex v s))
  = (fst (set x y z rowIndex colIndex v s), inr o).
Proof.
  intros Hget.
  destruct (findNode (this s) x y z) as [i |] eqn:Hfind.
  2: { unfold getAllData, bind, this_findNode in Hget.
       by rewrite Hfind in Hget. }
  destruct (findNode_Some _ _ _ _ _ Hfind) as (n & Hn & _).
  rewrite (getAllData_run s x y z i n Hfind Hn) in Hget.
  injection Hget as <-.
  rewrite (set_found _ _ _ _ _ _ _ _ Hfind).
  pose proof (on_arrays_this _ _ s (set_tail_on_arrays i rowIndex colIndex v))
    as Ht.
  apply (getAllData_run _ x y z i n); by rewrite Ht.
Qed.

Lemma set_keeps_outer_array_witness :
  getAllData 0 0 0 (fst (set 0 0 0 7 7 (Num 1) store_2x3))
  = (fst (set 0 0 0 7 7 (Num 1) store_2x3), inr 1%positive) ∧
  getAllData 0 0 0 (fst (set 0 0 0 (-1) 7 (Num 1) store_2x3))
  = (fst (set 0 0 0 (-1) 7 (Num 1) store_2x3), inr 1%positive).
Proof. split; by apply set_keeps_outer_array. Defined.

(** X9.  [setMatrix] shares the caller's array with the store: a [set]
    that follows writes into the array the caller passed, which then
    holds the value at the indices. *)
Theorem setMatrix_shares_array s x y z matrix g rowIndex colIndex v :
  grid_at s matrix = Some g → fits g → has_room s x y z →
  0 ≤ rowIndex < max_length → 0 ≤ colIndex < max_length →
  ∃ s1 s2 g', setMatrix x y z matrix s = (s1, inr tt) ∧
              set x y z rowIndex colIndex v s1 = (s2, inr tt) ∧
              grid_at s2 matrix = Some g' ∧
              cell g' rowIndex colIndex = Some v.
Proof.
  intros Hg Hfits Hroom Hrow Hcol.
  pose proof Hg as (m & Hm & HF)%grid_at_Some.
  pose proof (rows_allocated_Forall2 _ _ _ HF) as Hall.
  destruct (fits_width s m g HF Hfits) as [Hlen Hw].
  destruct (setMatrix_run s x y z matrix m Hm Hall)
    as (s1 & i & n & Hrun1 & Hfind & Hn & Hv & Hm1 & Hcells).
  { destruct Hroom as [? | Hroom]; [by left | right].
    pose proof (width_nonneg s m). unfold can_create. lia. }
  assert (grid_at s1 matrix = Some g) as Hg1.
  { eapply grid_at_frame; [| done..]. congruence. }
  assert (node_grid s1 x y z = Some g) as Hnode1.
  { unfold node_grid. rewrite Hfind. simpl. rewrite Hn. simpl. by rewrite Hv. }
  destruct (set_nonnegative_run s1 x y z rowIndex colIndex v Hrow Hcol)
    as (s2 & g' & Hrun2 & Hnode2 & Hcell).
  { right. eauto. }
  { left. rewrite Hfind. eauto. }
  exists s1, s2, g'. split_and!; [done.. | | done].
  assert (this s2 = this s1) as Ht.
  { rewrite (set_found _ _ _ _ _ _ _ _ Hfind) in Hrun2.
    pose proof (on_arrays_this _ _ s1
                  (set_tail_on_arrays i rowIndex colIndex v)) as Ht.
    by rewrite Hrun2 in Ht. }
  unfold node_grid in Hnode2. rewrite Ht, Hfind in Hnode2. simpl in Hnode2.
  rewrite Hn in Hnode2. simpl in Hnode2. by rewrite Hv in Hnode2.
Qed.

Lemma setMatrix_shares_array_witness :
  ∃ s1 s2 g', setMatrix 0 0 0 1%positive heap_2x3 = (s1, inr tt) ∧
              set 0 0 0 1 4 (Num 8) s1 = (s2, inr tt) ∧
              grid_at s2 1%positive = Some g' ∧
              cell g' 1 4 = Some (Num 8).
Proof.
  apply (setMatrix_shares_array heap_2x3 0 0 0 1%positive
           [[Num 1; Num 2; Num 3]; [Num 4; Num 5; Num 6]]);
    [reflexivity | fits_tac | right; by vm_compute
    | unfold max_length; lia..].
Defined.

(** X10.  A [set] that throws at a row or a column that no array has
    loses nothing: the matrix of the node is still there, with the rows
    and the cells it had at their places. *)
Theorem set_beyond_limit_keeps_cells s x y z rowIndex colIndex v g :
  node_grid s x y z = Some g → fits g →
  0 ≤ rowIndex → 0 ≤ colIndex →
  max_length ≤ rowIndex ∨ max_length ≤ colIndex →
  snd (set x y z rowIndex colIndex v s) = inl RangeError ∧
  ∃ g', node_grid (fst (set x y z rowIndex colIndex v s)) x y z = Some g' ∧
        grid_extends g g'.
Proof.
  intros Hg Hfits Hrow Hcol Hlimit.
  destruct (node_grid_holds _ _ _ _ _ Hg)
    as (i & n & m & (Hfind & Hn & Hm & Hall) & HF).
  destruct (fits_width s m g HF Hfits) as [Hlen Hw].
  rewrite (set_found _ _ _ _ _ _ _ _ Hfind).
  pose proof (expandMatrixIfNeeded_overflow s i n m rowIndex colIndex
                Hn Hm Hall Hlen Hw Hrow Hlimit) as Hthrow.
  destruct (expandMatrixIfNeeded_grown i rowIndex colIndex s) as [Hgrown _].
  destruct (expandMatrixIfNeeded i rowIndex colIndex s) as [s' r] eqn:Hexp.
  simpl in Hthrow, Hgrown. subst r.
  unfold set_tail. rewrite (bind_inl _ _ _ _ _ Hexp). simpl.
  split; [done |].
  destruct (grown_grid_at s s' (value n) g Hgrown) as (g' & Hg' & Hext).
  { apply grid_at_Some. eauto. }
  exists g'. split; [| done].
  destruct Hgrown as (Ht & _).
  unfold node_grid. rewrite Ht, Hfind. simpl. rewrite Hn. done.
Qed.

Lemma set_beyond_limit_keeps_cells_witness :
  snd (set 0 0 0 2 max_length (Num 9) store_2x3) = inl RangeError ∧
  ∃ g', node_grid (fst (set 0 0 0 2 max_length (Num 9) store_2x3)) 0 0 0
        = Some g' ∧
        grid_extends [[Num 1; Num 2; Num 3]; [Num 4; Num 5; Num 6]] g'.
Proof.
  apply set_beyond_limit_keeps_cells;
    [reflexivity | fits_tac | lia | unfold max_length; lia | right; lia].
Defined.

(** ** [set] as a function on matrices *)

Lemma expanded_expand_grid s m ls g rowIndex colIndex j l :
  Forall2 (λ l r, cells s !! l = Some r) m g →
  NoDup (m ++ ls) →
  length ls = Z.to_nat (rowIndex + 1 - Z.of_nat (length m)) →
  (m ++ ls) !! j = Some l →
  expanded s m ls colIndex l = expand_grid g rowIndex colIndex !! j.
Proof.
  intros HF Hdist Hlen Hl.
  pose proof (Forall2_length _ _ _ HF) as Hlg.
  pose proof (width_grid s m g HF) as Hw.
  assert (base s m ls l
          = (g ++ replicate (Z.to_nat (rowIndex + 1 - Z.of_nat (length g)))
                            (zeros (first_row_length g))) !! j) as Hbase.
  { unfold base. apply NoDup_app in Hdist as (_ & Hsep & _).
    apply lookup_app_Some in Hl as [Hl | [Hge Hl]].
    - rewrite decide_False by (apply Hsep; by eapply list_elem_of_lookup_2).
      destruct (Forall2_lookup_l _ _ _ _ _ HF Hl) as (r & Hr & ->).
      symmetry. by apply lookup_app_l_Some.
    - rewrite decide_True by (by eapply list_elem_of_lookup_2).
      apply lookup_lt_Some in Hl. symmetry.
      rewrite lookup_app_r by lia. rewrite Hw.
      apply lookup_replicate_2. lia. }
  unfold expanded, expand_grid. rewrite Hw.
  assert (l ∈ m ++ ls) as Hin by (by eapply list_elem_of_lookup_2).
  destruct (decide (first_row_length g ≤ colIndex)) as [Hc | Hc].
  - rewrite decide_True by done. by rewrite list_lookup_fmap, Hbase.
  - rewrite decide_False by tauto. done.
Qed.

(** X11.  On a node whose rows are distinct arrays, with indices that
    arrays have, [set] returns and the node's matrix is [set_grid] of
    what it was: rows of zeros up to [rowIndex], as wide as the first
    row was; zeros at the end of every row up to [colIndex] when the
    first row was not longer; then the value in its cell. *)
Theorem set_is_set_grid s x y z i n m g rowIndex colIndex v :
  holds s x y z i n m → NoDup m →
  node_grid s x y z = Some g → fits g →
  0 ≤ rowIndex < max_length → 0 ≤ colIndex < max_length →
  ∃ s', set x y z rowIndex colIndex v s = (s', inr tt) ∧
        node_grid s' x y z = Some (set_grid g rowIndex colIndex v).
Proof.
  intros (Hfind & Hn & Hm & Hall) Hdist Hg Hfits Hrow Hcol.
  apply node_grid_Some in Hg as (i' & n' & m' & Hfind' & Hn' & Hm' & HF).
  assert (i' = i) as -> by congruence.
  assert (n' = n) as -> by congruence.
  assert (m' = m) as -> by congruence.
  destruct (fits_width s m g HF Hfits) as [Hlen Hw].
  rewrite (set_found _ _ _ _ _ _ _ _ Hfind).
  destruct (set_tail_run s i n m rowIndex colIndex v Hn Hm Hall Hrow)
    as (ls & lr & s' & Hrun & Ht & Hgr & Hlenls & Hnd & Hfresh & Hlr & Hc);
    [lia | done |].
  exists s'. split; [done |].
  assert (NoDup (m ++ ls)) as Hdist'.
  { apply NoDup_app. split_and!; [done | | done].
    intros l Hin Hin'. destruct (Hall l Hin) as [vs Hvs].
    rewrite (Hfresh l Hin') in Hvs. discriminate. }
  pose proof (Forall2_length _ _ _ HF) as Hlg.
  apply node_grid_Some. exists i, n, (m ++ ls).
  split_and!; [by rewrite Ht | by rewrite Ht
              | rewrite Hgr; apply lookup_insert_eq |].
  apply Forall2_same_length_lookup_2.
  { unfold set_grid, expand_grid. rewrite length_alter.
    case_decide; rewrite ?length_fmap, !length_app, length_replicate; lia. }
  intros j l row Hl Hrowj. rewrite Hc. unfold written.
  rewrite (expanded_expand_grid s m ls g rowIndex colIndex j l HF Hdist'
             Hlenls Hl).
  unfold set_grid in Hrowj.
  destruct (decide (j = Z.to_nat rowIndex)) as [-> | Hne].
  - assert (l = lr) as -> by congruence.
    rewrite decide_True by done. by rewrite list_lookup_alter_eq in Hrowj.
  - rewrite decide_False.
    + by rewrite list_lookup_alter_ne in Hrowj.
    + intros ->. apply Hne. by eapply NoDup_lookup.
Qed.

Lemma set_is_set_grid_witness :
  ∃ s', set 0 0 0 2 3 (Num 9) store_2x3 = (s', inr tt) ∧
        node_grid s' 0 0 0
        = Some [[Num 1; Num 2; Num 3; Num 0];
                [Num 4; Num 5; Num 6; Num 0];
                [Num 0; Num 0; Num 0; Num 9]].
Proof.
  apply (set_is_set_grid store_2x3 0 0 0 0%nat
           (Node 0 0 0 1%positive) [1%positive; 2%positive]
           [[Num 1; Num 2; Num 3]; [Num 4; Num 5; Num 6]]);
    [| apply NoDup_cons; split; [by intros ?%list_elem_of_singleton
                                | apply NoDup_singleton]
     | reflexivity | fits_tac | unfold max_length; lia..].
  split_and!; [reflexivity.. |].
  intros l Hin. repeat (apply elem_of_cons in Hin as [-> | Hin]);
    [vm_compute; eauto.. | by apply elem_of_nil in Hin].
Defined.

(** ** [createNodeIfNeeded] at a free address *)

(** X12.  At an address without a node, when [this.nodes] has room and
    [rows] and [cols] are lengths of arrays, [createNodeIfNeeded]
    returns a new node, the last of [this.nodes]: its matrix is [rows]
    rows of [cols] zeros, its address is in the index, and the arrays
    that were on the heap are as they were. *)
Theorem createNodeIfNeeded_new s x y z rows cols :
  findNode (this s) x y z = None →
  Z.of_nat (length (nodes (this s))) < max_length →
  0 ≤ rows ≤ max_length → 0 ≤ cols ≤ max_length →
  ∃ s' o,
    createNodeIfNeeded x y z rows cols s
    = (s', inr (length (nodes (this s)))) ∧
    nodes (this s') = nodes (this s) ++ [Node x y z o] ∧
    findNode (this s') x y z = Some (length (nodes (this s))) ∧
    generateAddress x y z ∈ usedAddresses (this s') ∧
    node_grid s' x y z = Some (replicate (Z.to_nat rows) (zeros cols)) ∧
    (∀ o', is_Some (grids s !! o') → grids s' !! o' = grids s !! o') ∧
    (∀ l, is_Some (cells s !! l) → cells s' !! l = cells s !! l).
Proof.
  intros Hfind Hroom Hrows Hcols.
  destruct (createNodeIfNeeded_run s x y z rows cols Hfind)
    as (ls & o & s' & Hrun & Hnodes & Hused & Ho & Hg & Hlen & Hnd & Hfresh
        & Hc); [lia | by right | done |].
  assert (findNode (this s') x y z = Some (length (nodes (this s)))) as Hfind'.
  { by apply (findNode_last (this s) _ _ _ _ (Node x y z o)). }
  exists s', o. split_and!; [done.. | | | |].
  - rewrite Hused. apply elem_of_union_l. by apply elem_of_singleton.
  - apply node_grid_Some.
    exists (length (nodes (this s))), (Node x y z o), ls.
    split_and!; [done | | |].
    + by rewrite Hnodes, lookup_app_r, Nat.sub_diag by lia.
    + simpl. rewrite Hg. apply lookup_insert_eq.
    + apply Forall2_same_length_lookup_2.
      { by rewrite length_replicate. }
      intros k l r Hl [-> _]%lookup_replicate. rewrite Hc.
      rewrite decide_True; [done |]. by eapply list_elem_of_lookup_2.
  - intros o' [m Hm]. rewrite Hg.
    apply lookup_insert_ne. intros ->. congruence.
  - intros l [vs Hvs]. rewrite Hc, decide_False; [done |].
    intros Hin. rewrite (Hfresh l Hin) in Hvs. discriminate.
Qed.

Lemma createNodeIfNeeded_new_witness :
  ∃ s' o,
    createNodeIfNeeded 4 5 6 2 3 store_2x3 = (s', inr 1%nat) ∧
    nodes (this s') = nodes (this store_2x3) ++ [Node 4 5 6 o] ∧
    findNode (this s') 4 5 6 = Some 1%nat ∧
    generateAddress 4 5 6 ∈ usedAddresses (this s') ∧
    node_grid s' 4 5 6
    = Some [[Num 0; Num 0; Num 0]; [Num 0; Num 0; Num 0]] ∧
    (∀ o', is_Some (grids store_2x3 !! o') →
           grids s' !! o' = grids store_2x3 !! o') ∧
    (∀ l, is_Some (cells store_2x3 !! l) →
          cells s' !! l = cells store_2x3 !! l).
Proof.
  apply (createNodeIfNeeded_new store_2x3 4 5 6 2 3);
    [reflexivity | by vm_compute | unfold max_length; lia..].
Defined.

(** ** [update], twice *)

(** X13.  [update] is idempotent: a second [update] returns and leaves
    the whole state as the first one made it. *)
Theorem update_idempotent s :
  store_ok s →
  ∃ s1, update s = (s1, inr tt) ∧ update s1 = (s1, inr tt).
Proof.
  intros Hok.
  assert (∀ n, n ∈ nodes (this s) →
               ∃ m, grids s !! value n = Some m ∧ rows_allocated s m) as Hok'.
  { intros n Hin. destruct (Hok n Hin) as [g Hg]. by eapply grid_at_rows. }
  destruct (update_nodes_run (nodes (this s)) s Hok')
    as (s1 & Hrun1 & Ht1 & Hg1 & Hc1).
  assert (∀ n, n ∈ nodes (this s1) →
               ∃ m, grids s1 !! value n = Some m ∧ rows_allocated s1 m) as Hok1.
  { intros n. rewrite Ht1, Hg1. intros Hin.
    destruct (Hok' n Hin) as (m & Hm & Hall). exists m. split; [done |].
    intros l Hl. rewrite Hc1. destruct (Hall l Hl) as [vs ->].
    case_decide; simpl; eauto. }
  destruct (update_nodes_run (nodes (this s1)) s1 Hok1)
    as (s2 & Hrun2 & Ht2 & Hg2 & Hc2).
  exists s1. split; [done |].
  change (for_each update_node (nodes (this s1)) s1 = (s1, inr tt)).
  rewrite Hrun2. f_equal.
  assert (cells s2 = cells s1) as Hcells.
  { apply map_eq. intros l. rewrite Hc2.
    assert (rows_of s1 (nodes (this s1)) = rows_of s (nodes (this s))) as ->.
    { unfold rows_of. by rewrite Ht1, Hg1. }
    destruct (decide (l ∈ rows_of s (nodes (this s)))) as [Hin | Hin];
      [| done].
    rewrite Hc1, decide_True by done.
    destruct (cells s !! l); simpl; [| done]. by rewrite ones_idemp. }
  destruct s1, s2. simpl in *. congruence.
Qed.

Lemma update_idempotent_witness :
  ∃ s1, update store_two_nodes = (s1, inr tt) ∧ update s1 = (s1, inr tt).
Proof.
  apply update_idempotent.
  intros n Hin. vm_compute in Hin.
  repeat (apply elem_of_cons in Hin as [-> | Hin]);
    [vm_compute; eauto.. | by apply elem_of_nil in Hin].
Defined.

(** ** The states that calls reach *)

(** X14.  Every call, whether it returns or throws, keeps the heap as
    JavaScript has it: the matrix of every node is an array of arrays
    and no array has more than [max_length] elements.  So after any
    calls on a new [Memory] the conditions [store_ok] and [node_ok] of
    the theorems above hold. *)
Theorem calls_keep_well_formed cs s :
  wf s →
  wf (calls cs s) ∧
  store_ok (calls cs s) ∧
  ∀ x y z, node_ok (calls cs s) x y z.
Proof.
  intros Hwf%(calls_wf cs). split_and!; [done | by apply wf_store_ok |].
  intros x y z. by apply wf_node_ok.
Qed.

Lemma calls_keep_well_formed_witness :
  let s := calls [SetCell 0 0 0 2 2 (Num 1); SetCell 0 0 0 (-1) 0 (Num 2);
                  SetCell 1 1 1 0 (-5) (Num 3); Update;
                  CreateNodeIfNeeded 2 2 2 1 1] constructor in
  wf s ∧ store_ok s ∧ ∀ x y z, node_ok s x y z.
Proof. apply calls_keep_well_formed, wf_constructor. Defined.
